(** * github-archiver: the inactivity classifier and the archive transaction

    A shallow embedding of the Go packages [util], [logger], [github],
    [analyzer] and [archiver], and the properties of their behaviour.

    The program talks to a remote hosting service through the go-github
    client, sleeps, logs, reads one global flag and builds a slice.  Each of
    these effects is a component of the [World] that every function threads:

    - [FORCE_PROCESSING]: the global of package [util];
    - [logLevel], [stdlog]: the level of the default logger and the lines
      written so far (package [log] and package [logger]);
    - [remote]: the state of the hosting service, of an abstract type on which
      the go-github entry points act ([GitHubAPI]);
    - [events]: the requests sent to the service, with their outcome, and the
      sleeps, oldest first;
    - [heap]: the backing arrays of the [[]Repository] slices;
    - [clock]: the wall clock read by [time.Now].

    Go's [error] is [option error] ([None] is [nil]); a function returning
    [(T, error)] returns a pair. *)

From Stdlib Require Import ZArith String List Bool Lia.
From stdpp Require Import base option list strings gmap.

Local Open Scope string_scope.
Local Open Scope Z_scope.
Local Open Scope list_scope.

(** ** package time *)

(** An instant, in nanoseconds since the zero [time.Time]
    (January 1, year 1, 00:00:00 UTC). *)
Definition Time := Z.

(** [time.Duration] is an [int64] count of nanoseconds. *)
Definition Duration := Z.

Definition int64_min : Z := - 2 ^ 63.
Definition int64_max : Z := 2 ^ 63 - 1.

(** Two's complement wrap-around of an [int64] result. *)
Definition wrap64 (z : Z) : Z := (z + 2 ^ 63) mod 2 ^ 64 - 2 ^ 63.

(** Unary minus on an [int64]. *)
Definition neg64 (d : Duration) : Duration := wrap64 (- d).

Definition Millisecond : Duration := 1000000.
Definition Second : Duration := 1000000000.
Definition Hour : Duration := 3600000000000.

(** [time.Time{}] *)
Definition zeroTime : Time := 0.

(** [t.Add(d)]: the instant [t+d]. *)
Definition Time_Add (t : Time) (d : Duration) : Time := t + d.

(** [t.Before(u)] and [t.After(u)]: strict comparisons of instants. *)
Definition Time_Before (t u : Time) : bool := t <? u.
Definition Time_After (t u : Time) : bool := u <? t.

(** [t.Sub(u)]: the duration [t-u], saturated to the range of [Duration]. *)
Definition Time_Sub (t u : Time) : Duration :=
  if t - u <? int64_min then int64_min
  else if int64_max <? t - u then int64_max
  else t - u.

(** [d.Round(m)]: [d] rounded to the nearest multiple of [m], halfway values
    away from zero; [d] itself when [m <= 0]; the extreme duration when the
    result is not representable. *)
Definition Duration_Round (d m : Duration) : Duration :=
  if m <=? 0 then d
  else
    let r := Z.rem d m in
    if d <? 0 then
      let r := - r in
      if r + r <? m then d + r
      else if int64_min <=? d - m + r then d - m + r else int64_min
    else
      if r + r <? m then d - r
      else if d + m - r <=? int64_max then d + m - r else int64_max.

(** ** errors and log lines *)

(** Go [error] values: those the hosting client hands back, and those built
    by [fmt.Errorf] from a format and its string arguments; [Wrapf] is
    [fmt.Errorf] with a final [%w] verb and the error (possibly nil) given for
    it. *)
#[warnings="-register-all"]
Inductive error : Type :=
| HostError (msg : string)
| Errorf (format : string) (args : list string)
| Wrapf (format : string) (args : list string) (wrapped : option error).

(** Arguments of a formatted log line. *)
Inductive arg : Type :=
| AStr (s : string)
| AInt (n : Z)
| AErr (e : option error)
| ADate (layout : string) (t : Time)
| ADuration (d : Duration).

(** package logger: [LogLevel], an [int] enumeration. *)
Inductive LogLevel : Type :=
| DebugLevel | InfoLevel | WarnLevel | ErrorLevel | FatalLevel | SilentLevel.

Definition level_int (l : LogLevel) : Z :=
  match l with
  | DebugLevel => 0 | InfoLevel => 1 | WarnLevel => 2
  | ErrorLevel => 3 | FatalLevel => 4 | SilentLevel => 5
  end.

(** A line written either by [log.Printf] of the standard logger or by the
    levelled default logger of package [logger]. *)
Inductive LogLine : Type :=
| Printf (format : string) (args : list arg)
| Leveled (level : LogLevel) (format : string) (args : list arg).

(** ** package github: data *)

(** [Repository] of package [github]. *)
Record Repository : Type := mkRepository {
  Owner : string;
  Name : string;
  LastActivity : Time;
  IsArchived : bool
}.

(** [repo.LastActivity = t] on a local copy. *)
Definition set_LastActivity (t : Time) (r : Repository) : Repository :=
  {| Owner := Owner r; Name := Name r; LastActivity := t; IsArchived := IsArchived r |}.

(** The fields of go-github's [Repository] that the program reads or writes;
    all are pointers there. *)
Record GhRepository : Type := mkGhRepository {
  gh_Name : option string;
  gh_OwnerLogin : option string;
  gh_PushedAt : option Time;
  gh_UpdatedAt : option Time;
  gh_Archived : option bool
}.

(** go-github's [Issue]: only [UpdatedAt] is read. *)
Record Issue : Type := mkIssue {
  issue_UpdatedAt : option Time
}.

(** go-github getters are nil-safe: on a nil receiver or a nil field they
    return the zero value. *)
Definition GetPushedAt (r : option GhRepository) : Time :=
  match r with
  | Some g => match gh_PushedAt g with Some t => t | None => zeroTime end
  | None => zeroTime
  end.

Definition GetArchived (r : option GhRepository) : bool :=
  match r with
  | Some g => match gh_Archived g with Some b => b | None => false end
  | None => false
  end.

Definition Issue_GetUpdatedAt (i : option Issue) : Time :=
  match i with
  | Some x => match issue_UpdatedAt x with Some t => t | None => zeroTime end
  | None => zeroTime
  end.

(** [repository.Archived = github.Bool(archived)] *)
Definition set_Archived (b : bool) (g : GhRepository) : GhRepository :=
  {| gh_Name := gh_Name g; gh_OwnerLogin := gh_OwnerLogin g;
     gh_PushedAt := gh_PushedAt g; gh_UpdatedAt := gh_UpdatedAt g;
     gh_Archived := Some b |}.

Record IssueListByRepoOptions : Type := mkIssueOpts {
  Sort : string;
  Direction : string;
  PerPage : Z
}.

Record RepositoryCreateForkOptions : Type := mkForkOpts {
  Organization : string
}.

(** The requests the program sends to the hosting service. *)
Inductive Call : Type :=
| OrganizationsGet (org : string)
| UsersGet (user : string)
| RepositoriesGet (owner repo : string)
| IssuesListByRepo (owner repo : string) (opts : IssueListByRepoOptions)
| RepositoriesCreateFork (owner repo : string) (opts : RepositoryCreateForkOptions)
| RepositoriesDelete (owner repo : string)
| RepositoriesEdit (owner repo : string) (body : GhRepository).

(** What the world records of a run: each request with the error it came
    back with ([None] for a request that succeeded), and each sleep. *)
Inductive Event : Type :=
| Requested (c : Call) (err : option error)
| Slept (d : Duration).

(** The go-github entry points, acting on a service state of type [Host].  Each
    returns what the Go call returns, less the [*Response], which the modelled
    functions never read. *)
Class GitHubAPI (Host : Type) : Type := {
  Organizations_Get : string -> Host -> option error * Host;
  Users_Get : string -> Host -> option error * Host;
  Repositories_Get : string -> string -> Host -> (option GhRepository * option error) * Host;
  Issues_ListByRepo :
    string -> string -> IssueListByRepoOptions -> Host -> (list (option Issue) * option error) * Host;
  Repositories_CreateFork :
    string -> string -> RepositoryCreateForkOptions -> Host -> option error * Host;
  Repositories_Delete : string -> string -> Host -> option error * Host;
  Repositories_Edit : string -> string -> GhRepository -> Host -> option error * Host
}.

(** ** slices *)

(** A slice header: the backing array (an index into the heap, [None] for a
    nil slice), the offset of the first element in it, length and capacity. *)
Record Slice : Type := mkSlice {
  s_arr : option nat;
  s_off : nat;
  s_len : nat;
  s_cap : nat
}.

Definition nilSlice : Slice := mkSlice None 0 0 0.

(** The capacity the runtime picks when [append] has to reallocate; the
    language only promises a sufficiently large array. *)
Class GoRuntime : Type := {
  growslice : nat -> nat -> nat
}.

(** ** the world *)

Record World (Host : Type) : Type := mkWorld {
  FORCE_PROCESSING : bool;
  logLevel : LogLevel;
  stdlog : list LogLine;
  remote : Host;
  events : list Event;
  heap : list (list Repository);
  clock : Time
}.

Arguments mkWorld {Host}.
Arguments FORCE_PROCESSING {Host}.
Arguments logLevel {Host}.
Arguments stdlog {Host}.
Arguments remote {Host}.
Arguments events {Host}.
Arguments heap {Host}.
Arguments clock {Host}.

Definition M (Host A : Type) : Type := World Host -> A * World Host.

Definition ret {Host A} (a : A) : M Host A := fun w => (a, w).

Definition bind {Host A B} (m : M Host A) (k : A -> M Host B) : M Host B :=
  fun w => let '(a, w1) := m w in k a w1.

Declare Scope go_scope.
Delimit Scope go_scope with go.
Notation "x <- m ;; k" := (bind m (fun x => k))
  (at level 100, m at next level, right associativity) : go_scope.
Notation "m ;;; k" := (bind m (fun _ => k))
  (at level 100, right associativity) : go_scope.

Inductive ctl (A R : Type) : Type :=
| Next (a : A)
| Return (r : R).
Arguments Next {A R}.
Arguments Return {A R}.

Local Open Scope go_scope.

Section Program.
Context {Host : Type} `{api : GitHubAPI Host} `{rt : GoRuntime}.

(** *** primitive effects *)

Definition set_stdlog (l : list LogLine) (w : World Host) : World Host :=
  mkWorld (FORCE_PROCESSING w) (logLevel w) l (remote w) (events w) (heap w) (clock w).

Definition set_heap (h : list (list Repository)) (w : World Host) : World Host :=
  mkWorld (FORCE_PROCESSING w) (logLevel w) (stdlog w) (remote w) (events w) h (clock w).

(** [log.Printf] of the standard logger. *)
Definition log_Printf (format : string) (args : list arg) : M Host unit :=
  fun w => (tt, set_stdlog (stdlog w ++ [Printf format args])%list w).

(** The method [log] of the default logger: nothing is written when the
    level of the message is below the logger's. *)
Definition logger_log (level : LogLevel) (format : string) (args : list arg) : M Host unit :=
  fun w =>
    (tt, set_stdlog
           (stdlog w ++ (if level_int level <? level_int (logLevel w) then []
                         else [Leveled level format args]))%list w).

Definition logger_Debug := logger_log DebugLevel.
Definition logger_Info := logger_log InfoLevel.
Definition logger_Warn := logger_log WarnLevel.
Definition logger_Error := logger_log ErrorLevel.

Definition time_Now : M Host Time := fun w => (clock w, w).

Definition time_Sleep (d : Duration) : M Host unit :=
  fun w =>
    (tt, mkWorld (FORCE_PROCESSING w) (logLevel w) (stdlog w) (remote w)
                 (events w ++ [Slept d])%list (heap w) (clock w + Z.max 0 d)).

(** One request to the hosting service: the entry point acts on the remote
    state, and the request is recorded with its outcome.  [request] is for
    the entry points of which only the error is kept, [request_val] for those
    whose value is used as well. *)
Definition request (c : Call) (f : Host -> option error * Host) : M Host (option error) :=
  fun w =>
    let '(err, h) := f (remote w) in
    (err, mkWorld (FORCE_PROCESSING w) (logLevel w) (stdlog w) h
                  (events w ++ [Requested c err])%list (heap w) (clock w)).

Definition request_val {A : Type} (c : Call) (f : Host -> (A * option error) * Host)
    : M Host (A * option error) :=
  fun w =>
    let '((a, err), h) := f (remote w) in
    ((a, err), mkWorld (FORCE_PROCESSING w) (logLevel w) (stdlog w) h
                       (events w ++ [Requested c err])%list (heap w) (clock w)).

(** [e != nil] *)
Definition notnil (e : option error) : bool :=
  match e with Some _ => true | None => false end.

(** *** slices of [Repository] *)

Definition zeroRepository : Repository := mkRepository "" "" zeroTime false.

(** The elements [s[0], ..., s[len(s)-1]] as the heap [h] holds them. *)
Definition slice_elems (h : list (list Repository)) (s : Slice) : list Repository :=
  match s_arr s with
  | Some a => take (s_len s) (drop (s_off s) (default [] (h !! a)))
  | None => []
  end.

(** [s[i]], read from the backing array. *)
Definition index (s : Slice) (i : nat) : M Host Repository :=
  fun w =>
    (default zeroRepository
       (a ← s_arr s; arr ← heap w !! a; arr !! (s_off s + i)%nat), w).

(** [append(s, x)]: with room left the element is written in place, behind
    the last one; otherwise a new array is allocated, the elements are
    copied over and [x] is written behind them. *)
Definition realloc (s : Slice) (x : Repository) : M Host Slice :=
  fun w =>
    let newcap := Nat.max (S (s_len s)) (growslice (s_cap s) (S (s_len s))) in
    let arr := (slice_elems (heap w) s ++ [x]
                ++ replicate (newcap - S (s_len s)) zeroRepository)%list in
    (mkSlice (Some (length (heap w))) 0 (S (s_len s)) newcap,
     set_heap (heap w ++ [arr])%list w).

Definition append (s : Slice) (x : Repository) : M Host Slice :=
  match s_arr s with
  | Some a =>
      if (s_len s <? s_cap s)%nat then
        fun w =>
          (mkSlice (Some a) (s_off s) (S (s_len s)) (s_cap s),
           set_heap (alter (fun arr => <[(s_off s + s_len s)%nat := x]> arr) a (heap w)) w)
      else realloc s x
  | None => realloc s x
  end.

(** *** package util *)

Definition ForceProcessing (e : option error) : M Host bool :=
  (if notnil e then log_Printf "ERROR CONTINUANCE: %v" [AErr e] else ret tt) ;;;
  fun w =>
    if FORCE_PROCESSING w then (false, w)
    else (notnil e, w).

(** *** package github: the client *)

Definition GetLastActivity (owner repo : string) : M Host (Time * option error) :=
  logger_Debug "Fetching last activity for %s/%s" [AStr owner; AStr repo] ;;;
  r <- request_val (RepositoriesGet owner repo) (Repositories_Get owner repo) ;;
  let '(repository, err) := r in
  abort <- ForceProcessing err ;;
  if abort : bool then
    logger_Error "Failed to get repository info for %s/%s: %v"
                 [AStr owner; AStr repo; AErr err] ;;;
    ret (zeroTime, Some (Wrapf "failed to get repository info: %w" [] err))
  else
    let lastActivity := GetPushedAt repository in
    logger_Debug "Last push for %s/%s: %s"
                 [AStr owner; AStr repo; ADate "2006-01-02" lastActivity] ;;;
    let issueOpts := mkIssueOpts "updated" "desc" 1 in
    logger_Debug "Checking for more recent issue/PR activity in %s/%s"
                 [AStr owner; AStr repo] ;;;
    r <- request_val (IssuesListByRepo owner repo issueOpts)
                     (Issues_ListByRepo owner repo issueOpts) ;;
    let '(issues, err) := r in
    lastActivity <-
      match err, issues with
      | None, issue0 :: _ =>
          let issueTime := Issue_GetUpdatedAt issue0 in
          logger_Debug "Most recent issue/PR activity: %s" [ADate "2006-01-02" issueTime] ;;;
          if Time_After issueTime lastActivity then
            logger_Debug "Found more recent activity in issues/PRs: %s"
                         [ADate "2006-01-02" issueTime] ;;;
            ret issueTime
          else ret lastActivity
      | _, _ =>
          abort <- ForceProcessing err ;;
          (if abort : bool then
             logger_Warn "Error checking issues/PRs for %s/%s: %v"
                         [AStr owner; AStr repo; AErr err]
           else ret tt) ;;;
          ret lastActivity
      end ;;
    logger_Debug "Final last activity date for %s/%s: %s"
                 [AStr owner; AStr repo; ADate "2006-01-02" lastActivity] ;;;
    ret (lastActivity, None).

Definition CreateArchiveNamespace (namespace : string) : M Host (option error) :=
  logger_Debug "Checking if archive namespace %s exists" [AStr namespace] ;;;
  logger_Debug "Checking if %s exists as an organization" [AStr namespace] ;;;
  err <- request (OrganizationsGet namespace) (Organizations_Get namespace) ;;
  match err with
  | None =>
      logger_Debug "Archive namespace %s exists as an organization" [AStr namespace] ;;;
      ret None
  | Some _ =>
      logger_Debug "Checking if %s exists as a user" [AStr namespace] ;;;
      err <- request (UsersGet namespace) (Users_Get namespace) ;;
      match err with
      | None =>
          logger_Debug "Archive namespace %s exists as a user" [AStr namespace] ;;;
          ret None
      | Some _ =>
          logger_Error "Archive namespace %s does not exist" [AStr namespace] ;;;
          ret (Some (Errorf
            "archive namespace '%s' does not exist and cannot be created automatically. Please create the organization or user account manually"
            [namespace]))
      end
  end.

Definition ForkRepository (owner repo targetOrg : string) : M Host (option error) :=
  logger_Debug "Checking if %s/%s already exists" [AStr targetOrg; AStr repo] ;;;
  r <- request_val (RepositoriesGet targetOrg repo) (Repositories_Get targetOrg repo) ;;
  let '(_, err) := r in
  match err with
  | None =>
      logger_Info "Repository %s/%s already exists, skipping fork creation"
                  [AStr targetOrg; AStr repo] ;;;
      ret None
  | Some _ =>
      logger_Debug "Forking %s/%s to %s" [AStr owner; AStr repo; AStr targetOrg] ;;;
      let forkOpts := mkForkOpts targetOrg in
      err <- request (RepositoriesCreateFork owner repo forkOpts)
                     (Repositories_CreateFork owner repo forkOpts) ;;
      let done :=
        logger_Debug "Successfully forked %s/%s to %s"
                     [AStr owner; AStr repo; AStr targetOrg] ;;;
        ret None in
      abort <- ForceProcessing err ;;
      if abort : bool then
        logger_Error "Failed to fork %s/%s to %s: %v"
                     [AStr owner; AStr repo; AStr targetOrg; AErr err] ;;;
        if notnil err then ret (Some (Wrapf "failed to fork repository: %w" [] err))
        else done
      else done
  end.

Definition DeleteRepository (owner repo : string) : M Host (option error) :=
  logger_Debug "Deleting repository %s/%s" [AStr owner; AStr repo] ;;;
  err <- request (RepositoriesDelete owner repo) (Repositories_Delete owner repo) ;;
  abort <- ForceProcessing err ;;
  if abort : bool then
    logger_Error "Failed to delete repository %s/%s: %v" [AStr owner; AStr repo; AErr err] ;;;
    ret (Some (Wrapf "failed to delete repository: %w" [] err))
  else
    logger_Debug "Successfully deleted repository %s/%s" [AStr owner; AStr repo] ;;;
    ret None.

Definition SetArchiveStatus (owner repo : string) (archived : bool) : M Host (option error) :=
  let action := if negb archived then "unarchive" else "archive" in
  logger_Debug "%s repository %s/%s" [AStr action; AStr owner; AStr repo] ;;;
  r <- request_val (RepositoriesGet owner repo) (Repositories_Get owner repo) ;;
  let '(repository, err) := r in
  abort <- ForceProcessing err ;;
  if abort : bool then
    logger_Error "Failed to get repository info for %s/%s: %v"
                 [AStr owner; AStr repo; AErr err] ;;;
    ret (Some (Wrapf "failed to get repository info: %w" [] err))
  else
    match repository with
    | None =>
        logger_Error "Repository object for %s/%s is nil" [AStr owner; AStr repo] ;;;
        ret (Some (Errorf "repository object is nil" []))
    | Some g =>
        let repository := set_Archived archived g in
        err <- request (RepositoriesEdit owner repo repository)
                       (Repositories_Edit owner repo repository) ;;
        abort <- ForceProcessing err ;;
        if abort : bool then
          logger_Error "Failed to %s repository %s/%s: %v"
                       [AStr action; AStr owner; AStr repo; AErr err] ;;;
          ret (Some (Wrapf "failed to update archive status: %w" [] err))
        else
          logger_Debug "Successfully %sd repository %s/%s"
                       [AStr action; AStr owner; AStr repo] ;;;
          ret None
    end.

(** *** package archiver *)

Definition ArchiveRepository (owner archiveNamespace repo : string) : M Host (option error) :=
  logger_Debug "Beginning archive process for repository %s/%s" [AStr owner; AStr repo] ;;;
  (* 1. Create archive namespace if it doesn't exist *)
  logger_Info "Creating archive namespace %s..." [AStr archiveNamespace] ;;;
  err <- CreateArchiveNamespace archiveNamespace ;;
  abort <- ForceProcessing err ;;
  if abort : bool then
    logger_Error "Failed to create archive namespace %s: %v"
                 [AStr archiveNamespace; AErr err] ;;;
    ret (Some (Wrapf "failed to create archive namespace: %w" [] err))
  else
  logger_Debug "Archive namespace %s confirmed" [AStr archiveNamespace] ;;;
  (* 2. Fork the repository to the archive namespace *)
  logger_Info "Forking %s/%s to %s..." [AStr owner; AStr repo; AStr archiveNamespace] ;;;
  err <- ForkRepository owner repo archiveNamespace ;;
  abort <- ForceProcessing err ;;
  if abort : bool then
    logger_Error "Failed to fork repository %s/%s: %v" [AStr owner; AStr repo; AErr err] ;;;
    ret (Some (Wrapf "failed to fork repository: %w" [] err))
  else
  logger_Debug "Repository forked successfully" [] ;;;
  (* Wait for the fork to be created *)
  let waitTime := 5 * Second in
  logger_Debug "Waiting %v for fork to complete..." [ADuration waitTime] ;;;
  time_Sleep waitTime ;;;
  (* 3. Delete the original repository *)
  logger_Info "Deleting original repository %s/%s..." [AStr owner; AStr repo] ;;;
  err <- DeleteRepository owner repo ;;
  abort <- ForceProcessing err ;;
  if abort : bool then
    logger_Error "Failed to delete original repository %s/%s: %v"
                 [AStr owner; AStr repo; AErr err] ;;;
    ret (Some (Wrapf "failed to delete original repository: %w" [] err))
  else
  logger_Debug "Original repository deleted" [] ;;;
  (* 4. Set the archived status to true on the forked repository *)
  logger_Info "Setting archived status on %s/%s..." [AStr archiveNamespace; AStr repo] ;;;
  err <- SetArchiveStatus archiveNamespace repo true ;;
  abort <- ForceProcessing err ;;
  if abort : bool then
    logger_Error "Failed to set archived status on %s/%s: %v"
                 [AStr archiveNamespace; AStr repo; AErr err] ;;;
    ret (Some (Wrapf "failed to set archived status: %w" [] err))
  else
  logger_Debug "Archive status set successfully" [] ;;;
  logger_Info "Repository %s successfully archived to %s/%s"
              [AStr repo; AStr archiveNamespace; AStr repo] ;;;
  ret None.

(** *** package analyzer *)

(** [Analyzer]; its [client] field is the remote state of the world. *)
Record Analyzer : Type := NewAnalyzer {
  inactivityPeriod : Duration
}.

(** The body of the [range] loop of [FindInactiveRepositories], at index
    [i], with the current value of [inactiveRepos]: [Next] carries the
    slice into the next iteration ([continue] and the end of the body),
    [Return] leaves the function. *)
Definition range_body (repos : Slice) (now cutoffDate : Time)
    (i : nat) (inactiveRepos : Slice) : M Host (ctl Slice (Slice * option error)) :=
  repo <- index repos i ;;
  logger_Debug "[%d/%d] Checking repository %s/%s"
               [AInt (Z.of_nat i + 1); AInt (Z.of_nat (s_len repos));
                AStr (Owner repo); AStr (Name repo)] ;;;
  (* Skip already archived repositories *)
  if IsArchived repo then
    logger_Debug "Skipping %s/%s - already archived" [AStr (Owner repo); AStr (Name repo)] ;;;
    ret (Next inactiveRepos)
  else
    (* Get the latest activity timestamp *)
    logger_Debug "Fetching last activity for %s/%s" [AStr (Owner repo); AStr (Name repo)] ;;;
    r <- GetLastActivity (Owner repo) (Name repo) ;;
    let '(lastActivity, err) := r in
    abort <- ForceProcessing err ;;
    if abort : bool then
      logger_Error "Failed to check activity for %s/%s: %v"
                   [AStr (Owner repo); AStr (Name repo); AErr err] ;;;
      ret (Return (nilSlice,
                   Some (Wrapf "failed to check activity for %s/%s: %w"
                               [Owner repo; Name repo] err)))
    else
      (* Add repository details to the result *)
      let repo := set_LastActivity lastActivity repo in
      (* Format the duration since last activity for logging *)
      let inactiveDuration := Duration_Round (Time_Sub now lastActivity) (24 * Hour) in
      (* Check if the repository is inactive *)
      inactiveRepos <-
        (if Time_Before lastActivity cutoffDate then
           logger_Debug "Repository %s/%s is inactive (last activity: %s, %v ago)"
                        [AStr (Owner repo); AStr (Name repo);
                         ADate "2006-01-02" lastActivity; ADuration inactiveDuration] ;;;
           append inactiveRepos repo
         else
           logger_Debug "Repository %s/%s is active (last activity: %s, %v ago)"
                        [AStr (Owner repo); AStr (Name repo);
                         ADate "2006-01-02" lastActivity; ADuration inactiveDuration] ;;;
           ret inactiveRepos) ;;
      (* Add a small delay to prevent rate limiting *)
      time_Sleep (100 * Millisecond) ;;;
      ret (Next inactiveRepos).

(** [for i, repo := range repos]: [n] iterations are left, the next one at
    index [i]. *)
Fixpoint range_loop (repos : Slice) (now cutoffDate : Time)
    (n i : nat) (inactiveRepos : Slice) : M Host (ctl Slice (Slice * option error)) :=
  match n with
  | O => ret (Next inactiveRepos)
  | S n' =>
      c <- range_body repos now cutoffDate i inactiveRepos ;;
      match c with
      | Next inactiveRepos => range_loop repos now cutoffDate n' (S i) inactiveRepos
      | Return r => ret (Return r)
      end
  end.

Definition FindInactiveRepositories (a : Analyzer) (repos : Slice)
    : M Host (Slice * option error) :=
  let inactiveRepos := nilSlice in
  now <- time_Now ;;
  let cutoffDate := Time_Add now (neg64 (inactivityPeriod a)) in
  logger_Debug "Inactivity threshold set to %v (before %s)"
               [ADuration (inactivityPeriod a); ADate "2006-01-02" cutoffDate] ;;;
  logger_Info "Analyzing %d repositories for inactivity" [AInt (Z.of_nat (s_len repos))] ;;;
  c <- range_loop repos now cutoffDate (s_len repos) 0 inactiveRepos ;;
  match c with
  | Return r => ret r
  | Next inactiveRepos =>
      logger_Info "Found %d inactive repositories out of %d total"
                  [AInt (Z.of_nat (s_len inactiveRepos)); AInt (Z.of_nat (s_len repos))] ;;;
      ret (inactiveRepos, None)
  end.
End Program.

(** ** the rest of the client, and the driver

    [ListRepositories] and [main] can end in more ways than by returning:
    [main] leaves through [os.Exit], a nil pointer makes the program panic,
    and the paging loop of [ListRepositories] runs for as long as the
    service announces a next page.  They run in a process: a world, the
    listing requests sent so far, each with the error it came back with, and
    the number of times the usage text was printed. *)

(** go-github's [ListOptions], embedded in the options of both listings. *)
Record ListOptions : Type := mkListOptions {
  lo_Page : Z;
  lo_PerPage : Z
}.

(** go-github's [Response]: only [NextPage] is read. *)
Record Response : Type := mkResponse {
  NextPage : Z
}.

(** The two listing requests. *)
Inductive ListCall : Type :=
| RepositoriesList (user : string) (opts : ListOptions)
| RepositoriesListByOrg (org : string) (opts : ListOptions).

Inductive Listing : Type :=
| Listed (c : ListCall) (err : option error).

(** What a listing entry point returns: the repositories of the page (a
    slice of pointers), the response, and the error. *)
Definition Page : Type :=
  (list (option GhRepository) * option Response * option error)%type.

Class GitHubListing (Host : Type) : Type := {
  Repositories_List : string -> ListOptions -> Host -> Page * Host;
  Repositories_ListByOrg : string -> ListOptions -> Host -> Page * Host
}.

Record Process (Host : Type) : Type := mkProcess {
  world : World Host;
  listings : list Listing;
  usages : nat
}.

Arguments mkProcess {Host}.
Arguments world {Host}.
Arguments listings {Host}.
Arguments usages {Host}.

(** How a computation of the process ends: with a value, by [os.Exit], by a
    panic, or not within the steps it was given. *)
Inductive outcome (A : Type) : Type :=
| Done (a : A)
| Exited (code : Z)
| Panicked
| OutOfFuel.
Arguments Done {A}.
Arguments Exited {A}.
Arguments Panicked {A}.
Arguments OutOfFuel {A}.

Definition P (Host A : Type) : Type := Process Host -> outcome A * Process Host.

Definition pret {Host A} (a : A) : P Host A := fun p => (Done a, p).

Definition pbind {Host A B} (m : P Host A) (k : A -> P Host B) : P Host B :=
  fun p =>
    match m p with
    | (Done a, p1) => k a p1
    | (Exited code, p1) => (Exited code, p1)
    | (Panicked, p1) => (Panicked, p1)
    | (OutOfFuel, p1) => (OutOfFuel, p1)
    end.

Declare Scope proc_scope.
Delimit Scope proc_scope with proc.
Notation "x <- m ;; k" := (pbind m (fun x => k))
  (at level 100, m at next level, right associativity) : proc_scope.
Notation "m ;;; k" := (pbind m (fun _ => k))
  (at level 100, right associativity) : proc_scope.

(** The flags of the command line, as [flag.Parse] leaves them. *)
Record Flags : Type := mkFlags {
  flag_token : string;
  flag_target : string;
  flag_dryRun : bool;
  flag_org : bool;
  flag_threshold : Z;
  flag_verbose : bool;
  flag_quiet : bool;
  flag_force : bool
}.

(** What [flag.Parse] makes of the command line: it returns, with the flags
    set; or it meets [-h] or [-help]; or it meets a flag that is not defined
    or a value that does not parse.  In the last two cases the flag package
    prints the usage and ends the process itself. *)
Inductive CommandLine : Type :=
| Parsed (fl : Flags)
| ErrHelp
| ErrFlag.

(** What the loops of the process do next: go round again, leave the loop,
    or leave the function. *)
Inductive paging (S R : Type) : Type :=
| Again (s : S)
| Break (s : S)
| Leave (r : R).
Arguments Again {S R}.
Arguments Break {S R}.
Arguments Leave {S R}.

Section Driver.
Context {Host : Type} `{api : GitHubAPI Host} `{lst : GitHubListing Host} `{rt : GoRuntime}.

(** *** effects of the process *)

(** A computation on the world, run in the process. *)
Definition lift {A : Type} (m : M Host A) : P Host A :=
  fun p => let '(a, w) := m (world p) in (Done a, mkProcess w (listings p) (usages p)).

Definition os_Exit {A : Type} (code : Z) : P Host A := fun p => (Exited code, p).

(** Reading through a nil pointer. *)
Definition nil_dereference {A : Type} : P Host A := fun p => (Panicked, p).

Definition out_of_fuel {A : Type} : P Host A := fun p => (OutOfFuel, p).

(** [flag.Usage()] *)
Definition flag_Usage : P Host unit :=
  fun p => (Done tt, mkProcess (world p) (listings p) (S (usages p))).

(** [flag.Parse()], of the command line flag set, which handles errors by
    [ExitOnError]: after the usage, [os.Exit(0)] for a help request and
    [os.Exit(2)] for any other error. *)
Definition flag_Parse (cl : CommandLine) : P Host Flags :=
  match cl with
  | Parsed fl => pret fl
  | ErrHelp => (flag_Usage ;;; os_Exit 0)%proc
  | ErrFlag => (flag_Usage ;;; os_Exit 2)%proc
  end.

(** One listing request: the entry point acts on the remote state, and the
    request is recorded with its outcome. *)
Definition list_request (c : ListCall) (f : Host -> Page * Host) : P Host Page :=
  fun p =>
    let w := world p in
    let '((repos, resp, err), h) := f (remote w) in
    (Done (repos, resp, err),
     mkProcess (mkWorld (FORCE_PROCESSING w) (logLevel w) (stdlog w) h (events w) (heap w)
                        (clock w))
               (listings p ++ [Listed c err]) (usages p)).

(** [util.FORCE_PROCESSING = b] *)
Definition set_FORCE_PROCESSING (b : bool) : M Host unit :=
  fun w => (tt, mkWorld b (logLevel w) (stdlog w) (remote w) (events w) (heap w) (clock w)).

(** [make([]Repository, 0, n)]: a new array of [n] cells, and an empty slice
    on it. *)
Definition make (n : nat) : M Host Slice :=
  fun w =>
    (mkSlice (Some (length (heap w))) 0 0 n,
     set_heap (heap w ++ [replicate n zeroRepository]) w).

(** Product of two [int64]. *)
Definition mul64 (a b : Z) : Z := wrap64 (a * b).

(** Sum of two [int]. *)
Definition add64 (a b : Z) : Z := wrap64 (a + b).

(** *** package logger *)

(** [SetDefaultLevel] *)
Definition SetDefaultLevel (level : LogLevel) : M Host unit :=
  fun w =>
    (tt, mkWorld (FORCE_PROCESSING w) level (stdlog w) (remote w) (events w) (heap w)
                 (clock w)).

(** [Fatal] of the package: an error line under the force flag, and
    otherwise a fatal line and the end of the process. *)
Definition logger_Fatal (format : string) (args : list arg) : P Host unit :=
  (force <- lift (fun w => (FORCE_PROCESSING w, w)) ;;
   if force : bool then lift (logger_Error format args)
   else (lift (logger_log FatalLevel format args) ;;; os_Exit 1))%proc.

(** *** package github: the listing *)

Definition GetUpdatedAt (r : option GhRepository) : Time :=
  match r with
  | Some g => match gh_UpdatedAt g with Some t => t | None => zeroTime end
  | None => zeroTime
  end.

Definition NewClient (token : string) : M Host (option error) :=
  logger_Debug "Creating new GitHub client" [] ;;;
  ret None.

(** One round of a paging loop of [ListRepositories], for the page [opts]
    with [allRepos] collected so far.  The two loops of the function differ
    in the entry point they call and in the wording of their lines. *)
Definition page_body (fetching failed : string) (c : ListOptions -> ListCall)
    (f : ListOptions -> Host -> Page * Host) (target : string)
    (opts : ListOptions) (allRepos : list (option GhRepository))
    : P Host (paging (ListOptions * list (option GhRepository)) (Slice * option error)) :=
  (lift (logger_Debug fetching [AInt (add64 (lo_Page opts) 1)]) ;;;
   r <- list_request (c opts) (f opts) ;;
   let '(repos, resp, err) := r in
   abort <- lift (ForceProcessing err) ;;
   if abort : bool then
     lift (logger_Error failed [AStr target; AErr err]) ;;;
     pret (Leave (nilSlice, Some (Wrapf "failed to list repositories: %w" [] err)))
   else
     lift (logger_Debug "Retrieved %d repositories on page %d"
                        [AInt (Z.of_nat (length repos)); AInt (add64 (lo_Page opts) 1)]) ;;;
     let allRepos := allRepos ++ repos in
     match resp with
     | None => nil_dereference
     | Some resp =>
         if NextPage resp =? 0 then pret (Break (opts, allRepos))
         else pret (Again (mkListOptions (NextPage resp) (lo_PerPage opts), allRepos))
     end)%proc.

(** [for { ... }]: rounds until a break or a return; [fuel] bounds their
    number. *)
Fixpoint page_loop (fetching failed : string) (c : ListOptions -> ListCall)
    (f : ListOptions -> Host -> Page * Host) (target : string) (fuel : nat)
    (opts : ListOptions) (allRepos : list (option GhRepository))
    : P Host (paging (ListOptions * list (option GhRepository)) (Slice * option error)) :=
  match fuel with
  | O => out_of_fuel
  | S fuel' =>
      (r <- page_body fetching failed c f target opts allRepos ;;
       match r with
       | Again (opts, allRepos) => page_loop fetching failed c f target fuel' opts allRepos
       | Break s => pret (Break s)
       | Leave x => pret (Leave x)
       end)%proc
  end.

(** The second loop of [ListRepositories]: the entries with a name and an
    owner are converted and appended to [result]. *)
Fixpoint convert_loop (allRepos : list (option GhRepository)) (result : Slice) : M Host Slice :=
  match allRepos with
  | [] => ret result
  | repo :: rest =>
      match repo ≫= gh_Name, repo ≫= gh_OwnerLogin with
      | Some name, Some login =>
          result <- append result
                      (mkRepository login name (GetUpdatedAt repo) (GetArchived repo)) ;;
          convert_loop rest result
      | _, _ =>
          logger_Warn "Skipping repository with incomplete data" [] ;;;
          convert_loop rest result
      end
  end.

Definition ListRepositories (fuel : nat) (target : string) (org : bool)
    : P Host (Slice * option error) :=
  let entityType := if org then "organization" else "user" in
  (lift (logger_Info "Fetching repositories for %s %s" [AStr entityType; AStr target]) ;;;
   r <- (if negb org then
           page_loop "Fetching page %d of user repositories"
                     "Failed to list repositories for user %s: %v"
                     (RepositoriesList target) (Repositories_List target)
                     target fuel (mkListOptions 0 100) []
         else
           page_loop "Fetching page %d of organization repositories"
                     "Failed to list repositories for organization %s: %v"
                     (RepositoriesListByOrg target) (Repositories_ListByOrg target)
                     target fuel (mkListOptions 0 100) []) ;;
   match r with
   | Leave x => pret x
   | Again (_, allRepos) | Break (_, allRepos) =>
       lift (logger_Debug "Processing %d repositories" [AInt (Z.of_nat (length allRepos))] ;;;
             result <- make (length allRepos) ;;
             result <- convert_loop allRepos result ;;
             logger_Info "Successfully retrieved %d valid repositories for %s"
                         [AInt (Z.of_nat (s_len result)); AStr target] ;;;
             ret (result, None))%go
   end)%proc.

(** *** package main *)

(** [for _, repo := range inactiveRepos]: the lines of the report; [n]
    iterations are left, the next one at index [i]. *)
Fixpoint report_loop (inactiveRepos : Slice) (n i : nat) : M Host unit :=
  match n with
  | O => ret tt
  | S n' =>
      repo <- index inactiveRepos i ;;
      logger_Info "  - %s (Last activity: %s)"
                  [AStr (Name repo); ADate "2006-01-02" (LastActivity repo)] ;;;
      report_loop inactiveRepos n' (S i)
  end.

(** The body of the archiving loop of [main], at index [i]: the loop goes
    on to the next repository whether the transaction failed or not. *)
Definition archive_body (target archiveNamespace : string) (inactiveRepos : Slice) (i : nat)
    : M Host unit :=
  repo <- index inactiveRepos i ;;
  logger_Info "  - [%d/%d] Processing repository %s"
              [AInt (Z.of_nat i + 1); AInt (Z.of_nat (s_len inactiveRepos));
               AStr (Name repo)] ;;;
  err <- ArchiveRepository target archiveNamespace (Name repo) ;;
  abort <- ForceProcessing err ;;
  if abort : bool then
    logger_Error "Failed to archive repository %s: %v" [AStr (Name repo); AErr err]
  else
    logger_Info "  - [%d/%d] Successfully archived %s"
                [AInt (Z.of_nat i + 1); AInt (Z.of_nat (s_len inactiveRepos));
                 AStr (Name repo)].

(** [for i, repo := range inactiveRepos] *)
Fixpoint archive_loop (target archiveNamespace : string) (inactiveRepos : Slice) (n i : nat)
    : M Host unit :=
  match n with
  | O => ret tt
  | S n' =>
      archive_body target archiveNamespace inactiveRepos i ;;;
      archive_loop target archiveNamespace inactiveRepos n' (S i)
  end.

(** [main], on the command line [cl]; [fuel] bounds the rounds of the
    paging loop of [ListRepositories]. *)
Definition main (fuel : nat) (cl : CommandLine) : P Host unit :=
  (fl <- flag_Parse cl ;;
   lift (set_FORCE_PROCESSING (flag_force fl)) ;;;
   (* Configure logging level *)
   lift (if flag_verbose fl then
           SetDefaultLevel DebugLevel ;;;
           logger_Debug "Debug logging enabled" []
         else if flag_quiet fl then SetDefaultLevel WarnLevel
         else ret tt)%go ;;;
   (* Validate required flags *)
   (if String.eqb (flag_token fl) "" || String.eqb (flag_target fl) "" then
      flag_Usage ;;; os_Exit 1
    else pret tt) ;;;
   (* Initialize GitHub client *)
   lift (logger_Debug "Initializing GitHub client" []) ;;;
   err <- lift (NewClient (flag_token fl)) ;;
   abort <- lift (ForceProcessing err) ;;
   (if abort : bool then logger_Fatal "Failed to create GitHub client: %v" [AErr err]
    else pret tt) ;;;
   (* Create the repository analyzer *)
   let repoAnalyzer :=
     NewAnalyzer (mul64 (mul64 (mul64 (flag_threshold fl) 365) 24) Hour) in
   lift (logger_Debug "Repository analyzer initialized with %d year threshold"
                      [AInt (flag_threshold fl)]) ;;;
   (* Create the repository archiver *)
   lift (logger_Debug "Repository archiver initialized" []) ;;;
   (* 1. Fetch all repositories for the target *)
   lift (logger_Info "Fetching repositories for %s..." [AStr (flag_target fl)]) ;;;
   r <- ListRepositories fuel (flag_target fl) (flag_org fl) ;;
   let '(repos, err) := r in
   abort <- lift (ForceProcessing err) ;;
   (if abort : bool then logger_Fatal "Failed to list repositories: %v" [AErr err]
    else pret tt) ;;;
   lift (logger_Info "Found %d repositories for %s"
                     [AInt (Z.of_nat (s_len repos)); AStr (flag_target fl)]) ;;;
   (* 2. Analyze repositories for inactivity *)
   lift (logger_Info "Analyzing repository activity..." []) ;;;
   r <- lift (FindInactiveRepositories repoAnalyzer repos) ;;
   let '(inactiveRepos, err) := r in
   abort <- lift (ForceProcessing err) ;;
   (if abort : bool then logger_Fatal "Failed to analyze repositories: %v" [AErr err]
    else pret tt) ;;;
   if (s_len inactiveRepos =? 0)%nat then
     lift (logger_Info "No inactive repositories found." [])
   else
     lift (logger_Info "%d repositories inactive for %d+ years:"
                       [AInt (Z.of_nat (s_len inactiveRepos)); AInt (flag_threshold fl)]) ;;;
     lift (report_loop inactiveRepos (s_len inactiveRepos) 0) ;;;
     (* Stop here if this is a dry run *)
     if flag_dryRun fl then
       lift (logger_Info "Dry run completed. No changes were made." [])
     else
       (* 3. Archive inactive repositories *)
       lift (logger_Info "Archiving %d repositories:"
                         [AInt (Z.of_nat (s_len inactiveRepos))]) ;;;
       let archiveNamespace := String.append (flag_target fl) "-archive" in
       lift (archive_loop (flag_target fl) archiveNamespace inactiveRepos
                          (s_len inactiveRepos) 0) ;;;
       lift (logger_Info "Archive process completed. %d repositories archived."
                         [AInt (Z.of_nat (s_len inactiveRepos))]))%proc.
End Driver.

(** ** notions used to state the properties *)

Section Notions.
Context {Host : Type} `{api : GitHubAPI Host} `{rt : GoRuntime}.

(** The events a run from [w] to [w'] has added. *)
Definition new_events (w w' : World Host) : list Event :=
  drop (length (events w)) (events w').

(** The log lines it has written. *)
Definition new_lines (w w' : World Host) : list LogLine :=
  drop (length (stdlog w)) (stdlog w').

(** The decision [ForceProcessing] takes on [e] under the flag [force]:
    [true] makes the caller return the error. *)
Definition fatal (force : bool) (e : option error) : bool := negb force && notnil e.

(** [tracks w evs h L w']: going from [w] to [w'] the flag, the log level and
    the heap were left alone, the events [evs] were added, the remote state is
    now [h], and the lines [L] are among those written. *)
Record tracks (w : World Host) (evs : list Event) (h : Host) (L : list LogLine)
    (w' : World Host) : Prop := mkTracks {
  tr_force : FORCE_PROCESSING w' = FORCE_PROCESSING w;
  tr_level : logLevel w' = logLevel w;
  tr_heap : heap w' = heap w;
  tr_events : events w' = (events w ++ evs)%list;
  tr_remote : remote w' = h;
  tr_lines : exists ls, stdlog w' = (stdlog w ++ ls)%list /\ L ⊆ ls
}.

(** The error [CreateArchiveNamespace] returns when the namespace is neither
    an organization nor a user. *)
Definition namespace_missing (ns : string) : error :=
  Errorf
    "archive namespace '%s' does not exist and cannot be created automatically. Please create the organization or user account manually"
    [ns].

(** Outcome of [CreateArchiveNamespace] on the remote state [h]. *)
Definition ns_outcome (ns : string) (h : Host)
    (e : option error) (evs : list Event) (h' : Host) : Prop :=
  match Organizations_Get ns h with
  | (None, h1) => e = None /\ h' = h1 /\ evs = [Requested (OrganizationsGet ns) None]
  | (Some e1, h1) =>
      match Users_Get ns h1 with
      | (None, h2) =>
          e = None /\ h' = h2 /\
          evs = [Requested (OrganizationsGet ns) (Some e1); Requested (UsersGet ns) None]
      | (Some e2, h2) =>
          e = Some (namespace_missing ns) /\ h' = h2 /\
          evs = [Requested (OrganizationsGet ns) (Some e1);
                 Requested (UsersGet ns) (Some e2)]
      end
  end.

(** Outcome of [ForkRepository]. *)
Definition fork_outcome (force : bool) (owner repo target : string) (h : Host)
    (e : option error) (evs : list Event) (h' : Host) : Prop :=
  match Repositories_Get target repo h with
  | ((_, None), h1) =>
      e = None /\ h' = h1 /\ evs = [Requested (RepositoriesGet target repo) None]
  | ((_, Some ep), h1) =>
      match Repositories_CreateFork owner repo (mkForkOpts target) h1 with
      | (ef, h2) =>
          e = (if fatal force ef then Some (Wrapf "failed to fork repository: %w" [] ef)
               else None) /\ h' = h2 /\
          evs = [Requested (RepositoriesGet target repo) (Some ep);
                 Requested (RepositoriesCreateFork owner repo (mkForkOpts target)) ef]
      end
  end.

(** Outcome of [DeleteRepository], with the line its failure leaves in the
    log. *)
Definition delete_outcome (force : bool) (owner repo : string) (h : Host)
    (e : option error) (evs : list Event) (h' : Host) (L : list LogLine) : Prop :=
  match Repositories_Delete owner repo h with
  | (ed, h1) =>
      e = (if fatal force ed then Some (Wrapf "failed to delete repository: %w" [] ed)
           else None) /\ h' = h1 /\
      evs = [Requested (RepositoriesDelete owner repo) ed] /\
      L = (if notnil ed then [Printf "ERROR CONTINUANCE: %v" [AErr ed]] else [])
  end.

(** Outcome of [SetArchiveStatus]. *)
Definition status_outcome (force : bool) (owner repo : string) (archived : bool) (h : Host)
    (e : option error) (evs : list Event) (h' : Host) : Prop :=
  match Repositories_Get owner repo h with
  | ((g, eg), h1) =>
      if fatal force eg then
        e = Some (Wrapf "failed to get repository info: %w" [] eg) /\ h' = h1 /\
        evs = [Requested (RepositoriesGet owner repo) eg]
      else
        match g with
        | None =>
            e = Some (Errorf "repository object is nil" []) /\ h' = h1 /\
            evs = [Requested (RepositoriesGet owner repo) eg]
        | Some g0 =>
            match Repositories_Edit owner repo (set_Archived archived g0) h1 with
            | (ee, h2) =>
                e = (if fatal force ee
                     then Some (Wrapf "failed to update archive status: %w" [] ee)
                     else None) /\ h' = h2 /\
                evs = [Requested (RepositoriesGet owner repo) eg;
                       Requested (RepositoriesEdit owner repo (set_Archived archived g0)) ee]
            end
        end
  end.

(** The options [GetLastActivity] lists the issues with: the most recently
    updated one, alone. *)
Definition issueOpts : IssueListByRepoOptions := mkIssueOpts "updated" "desc" 1.

(** The later of the push timestamp of [g] and the update timestamp of the
    first issue of a listing that succeeded; the push timestamp alone when the
    listing failed or is empty. *)
Definition later_of (g : option GhRepository) (issues : list (option Issue))
    (ei : option error) : Time :=
  match ei, issues with
  | None, issue0 :: _ =>
      if Time_After (Issue_GetUpdatedAt issue0) (GetPushedAt g)
      then Issue_GetUpdatedAt issue0 else GetPushedAt g
  | _, _ => GetPushedAt g
  end.

(** Outcome of [GetLastActivity]. *)
Definition activity_outcome (force : bool) (owner repo : string) (h : Host)
    (r : Time * option error) (evs : list Event) (h' : Host) : Prop :=
  match Repositories_Get owner repo h with
  | ((g, eg), h1) =>
      if fatal force eg then
        r = (zeroTime, Some (Wrapf "failed to get repository info: %w" [] eg)) /\ h' = h1 /\
        evs = [Requested (RepositoriesGet owner repo) eg]
      else
        match Issues_ListByRepo owner repo issueOpts h1 with
        | ((issues, ei), h2) =>
            r = (later_of g issues ei, None) /\ h' = h2 /\
            evs = [Requested (RepositoriesGet owner repo) eg;
                   Requested (IssuesListByRepo owner repo issueOpts) ei]
        end
  end.

(** Outcome of [ArchiveRepository]: the four steps in order, each one
    reached only when [ForceProcessing] let the one before pass. *)
Definition archive_outcome (force : bool) (owner ns repo : string) (h : Host)
    (e : option error) (evs : list Event) (h' : Host) (L : list LogLine) : Prop :=
  exists e1 evs1 h1, ns_outcome ns h e1 evs1 h1 /\
  if fatal force e1 then
    e = Some (Wrapf "failed to create archive namespace: %w" [] e1) /\
    evs = evs1 /\ h' = h1 /\ L = []
  else
  exists e2 evs2 h2, fork_outcome force owner repo ns h1 e2 evs2 h2 /\
  if fatal force e2 then
    e = Some (Wrapf "failed to fork repository: %w" [] e2) /\
    evs = (evs1 ++ evs2)%list /\ h' = h2 /\ L = []
  else
  exists e3 evs3 h3 L3, delete_outcome force owner repo h2 e3 evs3 h3 L3 /\
  if fatal force e3 then
    e = Some (Wrapf "failed to delete original repository: %w" [] e3) /\
    evs = (evs1 ++ evs2 ++ Slept (5 * Second) :: evs3)%list /\ h' = h3 /\ L = L3
  else
  exists e4 evs4 h4, status_outcome force ns repo true h3 e4 evs4 h4 /\
    e = (if fatal force e4 then Some (Wrapf "failed to set archived status: %w" [] e4)
         else None) /\
    evs = (evs1 ++ evs2 ++ Slept (5 * Second) :: evs3 ++ evs4)%list /\ h' = h4 /\ L = L3.

(** A request of the namespace verification. *)
Definition is_namespace_check (ns : string) (ev : Event) : Prop :=
  exists e, ev = Requested (OrganizationsGet ns) e \/ ev = Requested (UsersGet ns) e.

(** A request to fork. *)
Definition is_fork_request (ev : Event) : Prop :=
  exists owner repo opts e, ev = Requested (RepositoriesCreateFork owner repo opts) e.

(** A request to delete. *)
Definition is_delete_request (ev : Event) : Prop :=
  exists owner repo e, ev = Requested (RepositoriesDelete owner repo) e.

(** What the properties of the final state ask of the hosting service:
    [present h owner repo] and [archived h owner repo] observe a state, a
    deletion that succeeds removes the repository, reading a repository and
    editing one neither add nor remove any, and an edit that succeeds with an
    [Archived] field sets the flag to it. *)
Record HostLaws (present archived : Host -> string -> string -> bool) : Prop := mkHostLaws {
  law_delete : forall o r h h',
    Repositories_Delete o r h = (None, h') -> present h' o r = false;
  law_get : forall o r h x h',
    Repositories_Get o r h = (x, h') -> forall o' r', present h' o' r' = present h o' r';
  law_edit_present : forall o r b h h',
    Repositories_Edit o r b h = (None, h') ->
    forall o' r', present h' o' r' = present h o' r';
  law_edit_archived : forall o r b v h h',
    Repositories_Edit o r b h = (None, h') -> gh_Archived b = Some v ->
    archived h' o r = v
}.

(** A slice header that the heap [hp] can serve: its array is allocated and
    holds the whole capacity; a nil slice has neither length nor capacity. *)
Definition slice_wf (hp : list (list Repository)) (s : Slice) : Prop :=
  match s_arr s with
  | Some a =>
      exists arr, hp !! a = Some arr /\
                  (s_off s + s_cap s <= length arr)%nat /\ (s_len s <= s_cap s)%nat
  | None => s_len s = 0%nat /\ s_cap s = 0%nat
  end.

(** [owned h0 hp s]: the heap [hp] extends [h0], and the slice [s] lives in
    the extension (or is nil); writing through [s] cannot reach [h0]. *)
Definition owned (h0 hp : list (list Repository)) (s : Slice) : Prop :=
  (exists ext, hp = h0 ++ ext) /\ slice_wf hp s /\
  forall a, s_arr s = Some a -> (length h0 <= a)%nat.

(** A world with nothing but the flag and the remote state: all that
    [GetLastActivity] depends on. *)
Definition bare (force : bool) (h : Host) : World Host :=
  mkWorld force SilentLevel [] h [] [] 0.

(** What [GetLastActivity owner repo] returns on the remote state [h], and
    the remote state it leaves. *)
Definition lookup_activity (force : bool) (h : Host) (owner repo : string)
    : (Time * option error) * Host :=
  (fst (GetLastActivity owner repo (bare force h)),
   remote (snd (GetLastActivity owner repo (bare force h)))).

(** The timestamps [GetLastActivity] returns for the repositories [rs], asked
    one after the other from the remote state [h] on. *)
Fixpoint lastActivities (force : bool) (rs : list Repository) (h : Host) : list Time :=
  match rs with
  | [] => []
  | r :: rs' =>
      fst (fst (lookup_activity force h (Owner r) (Name r)))
      :: lastActivities force rs' (snd (lookup_activity force h (Owner r) (Name r)))
  end.

(** The repositories not yet archived. *)
Definition live (rs : list Repository) : list Repository :=
  List.filter (fun r => negb (IsArchived r)) rs.

(** The repositories whose last activity is before the cutoff. *)
Definition inactive (cutoff : Time) (rs : list Repository) : list Repository :=
  List.filter (fun r => Time_Before (LastActivity r) cutoff) rs.

(** The events of one iteration on the repository [x]: the read of the
    repository alone when the function returns there, and otherwise the
    read, the listing of the issues and the pause. *)
Definition lookup_group (x : Repository) (g : list Event) : Prop :=
  exists eg,
    g = [Requested (RepositoriesGet (Owner x) (Name x)) eg] \/
    exists ei,
      g = [Requested (RepositoriesGet (Owner x) (Name x)) eg;
           Requested (IssuesListByRepo (Owner x) (Name x) issueOpts) ei;
           Slept (100 * Millisecond)].

(** The output of the classifier on the repositories [rs], from the remote
    state [h] on: those not archived, each with the timestamp
    [GetLastActivity] returns for it, that are inactive. *)
Definition classified (force : bool) (cutoff : Time) (rs : list Repository) (h : Host)
    : list Repository :=
  inactive cutoff
    (zip_with set_LastActivity (lastActivities force (live rs) h) (live rs)).

(** The cutoff [FindInactiveRepositories] computes. *)
Definition cutoffDate (a : Analyzer) (now : Time) : Time :=
  Time_Add now (neg64 (inactivityPeriod a)).

(** [halted owner ns repo e last]: the error [e] that [ArchiveRepository]
    returns when it stops after the event [last]; [e] wraps the error of the
    step that failed, and [last] is the request of that step that came back
    with an error, or the read that came back without a repository. *)
Inductive halted (owner ns repo : string) : error -> Event -> Prop :=
| halted_namespace e1 :
    halted owner ns repo
      (Wrapf "failed to create archive namespace: %w" [] (Some (namespace_missing ns)))
      (Requested (UsersGet ns) (Some e1))
| halted_fork ef :
    halted owner ns repo
      (Wrapf "failed to fork repository: %w" []
         (Some (Wrapf "failed to fork repository: %w" [] (Some ef))))
      (Requested (RepositoriesCreateFork owner repo (mkForkOpts ns)) (Some ef))
| halted_delete ed :
    halted owner ns repo
      (Wrapf "failed to delete original repository: %w" []
         (Some (Wrapf "failed to delete repository: %w" [] (Some ed))))
      (Requested (RepositoriesDelete owner repo) (Some ed))
| halted_read eg :
    halted owner ns repo
      (Wrapf "failed to set archived status: %w" []
         (Some (Wrapf "failed to get repository info: %w" [] (Some eg))))
      (Requested (RepositoriesGet ns repo) (Some eg))
| halted_nil :
    halted owner ns repo
      (Wrapf "failed to set archived status: %w" []
         (Some (Errorf "repository object is nil" [])))
      (Requested (RepositoriesGet ns repo) None)
| halted_edit g ee :
    halted owner ns repo
      (Wrapf "failed to set archived status: %w" []
         (Some (Wrapf "failed to update archive status: %w" [] (Some ee))))
      (Requested (RepositoriesEdit ns repo (set_Archived true g)) (Some ee)).

(** The events of a full iteration on the repository [x]: the read, let
    pass under the flag [force], the listing of the issues and the pause. *)
Definition full_group (force : bool) (x : Repository) (g : list Event) : Prop :=
  exists eg ei,
    fatal force eg = false /\
    g = [Requested (RepositoriesGet (Owner x) (Name x)) eg;
         Requested (IssuesListByRepo (Owner x) (Name x) issueOpts) ei;
         Slept (100 * Millisecond)].

(** The error [FindInactiveRepositories] returns when the read of [x] fails
    with [eg]. *)
Definition activity_failure (x : Repository) (eg : error) : error :=
  Wrapf "failed to check activity for %s/%s: %w" [Owner x; Name x]
        (Some (Wrapf "failed to get repository info: %w" [] (Some eg))).

(** *** notions for the listing and the driver *)

Context `{lst : GitHubListing Host}.

(** A levelled line that a logger at level [lvl] lets through; the lines of
    the standard logger are not filtered. *)
Definition audible (lvl : LogLevel) (l : LogLine) : Prop :=
  match l with
  | Leveled level _ _ => level_int lvl <= level_int level
  | Printf _ _ => True
  end.

(** [confined Q m]: whatever the world, the computation [m] leaves the force
    flag and the log level alone, adds only events that satisfy [Q], and
    writes only lines that the logger lets through. *)
Definition confined {A : Type} (Q : Event -> Prop) (m : M Host A) : Prop :=
  forall w,
    FORCE_PROCESSING (snd (m w)) = FORCE_PROCESSING w /\
    logLevel (snd (m w)) = logLevel w /\
    (exists evs, events (snd (m w)) = events w ++ evs /\ Forall Q evs) /\
    (exists ls, stdlog (snd (m w)) = stdlog w ++ ls /\ Forall (audible (logLevel w)) ls).

(** The same for a computation of the process, which in addition exits only
    without the force flag, and then with code 1. *)
Definition pconfined {A : Type} (Q : Event -> Prop) (m : P Host A) : Prop :=
  forall p,
    FORCE_PROCESSING (world (snd (m p))) = FORCE_PROCESSING (world p) /\
    logLevel (world (snd (m p))) = logLevel (world p) /\
    (exists evs, events (world (snd (m p))) = events (world p) ++ evs /\ Forall Q evs) /\
    (exists ls, stdlog (world (snd (m p))) = stdlog (world p) ++ ls /\
                Forall (audible (logLevel (world p))) ls) /\
    forall code, fst (m p) = Exited code ->
                 FORCE_PROCESSING (world p) = false /\ code = 1.

(** An event of a lookup of the last activity: a read of a repository, a
    listing of its issues or the pause of 100 ms. *)
Definition lookup_event (ev : Event) : Prop :=
  match ev with
  | Requested (RepositoriesGet _ _) _ => True
  | Requested (IssuesListByRepo _ _ opts) _ => opts = issueOpts
  | Slept d => d = 100 * Millisecond
  | _ => False
  end.

(** An event of a transaction that archives a repository of [owner] into
    the namespace [ns]. *)
Definition transaction_event (owner ns : string) (ev : Event) : Prop :=
  match ev with
  | Requested (OrganizationsGet n) _ => n = ns
  | Requested (UsersGet n) _ => n = ns
  | Requested (RepositoriesGet o _) _ => o = ns
  | Requested (RepositoriesCreateFork o _ opts) _ => o = owner /\ Organization opts = ns
  | Requested (RepositoriesDelete o _) _ => o = owner
  | Requested (RepositoriesEdit o _ body) _ => o = ns /\ gh_Archived body = Some true
  | Requested (IssuesListByRepo _ _ _) _ => False
  | Slept d => d = 5 * Second
  end.

(** An event of [main] on the target [target]. *)
Definition main_event (target : string) (ev : Event) : Prop :=
  lookup_event ev \/ transaction_event target (String.append target "-archive") ev.

(** The level of the default logger once [main] has read the flags, from
    the level [lvl] it started with: [-verbose] goes before [-quiet]. *)
Definition main_level (fl : Flags) (lvl : LogLevel) : LogLevel :=
  if flag_verbose fl then DebugLevel
  else if flag_quiet fl then WarnLevel
  else lvl.

(** The events [main] may add: those of the lookups in a dry run, and those
    of the lookups and of the transactions on the target otherwise. *)
Definition run_event (fl : Flags) (ev : Event) : Prop :=
  if flag_dryRun fl then lookup_event ev else main_event (flag_target fl) ev.

(** [transactions force owner ns xs h evs h']: from the remote state [h],
    one transaction of [ArchiveRepository] for each repository of [xs], in
    order, each from the state the one before has left and whatever the one
    before has returned; [evs] are their events and [h'] is the state after
    the last. *)
Inductive transactions (force : bool) (owner ns : string)
    : list Repository -> Host -> list Event -> Host -> Prop :=
| transactions_nil h : transactions force owner ns [] h [] h
| transactions_cons x xs h e evs h1 L evs' h2 :
    archive_outcome force owner ns (Name x) h e evs h1 L ->
    transactions force owner ns xs h1 evs' h2 ->
    transactions force owner ns (x :: xs) h (evs ++ evs') h2.

(** The [Repository] that [ListRepositories] makes of a listed entry; none
    for a nil entry and for one without a name or without an owner. *)
Definition listed (repo : option GhRepository) : option Repository :=
  name ← repo ≫= gh_Name;
  login ← repo ≫= gh_OwnerLogin;
  Some (mkRepository login name (GetUpdatedAt repo) (GetArchived repo)).

(** The entry point [ListRepositories] calls, and the call it is recorded
    as. *)
Definition list_entry (org : bool) (target : string) : ListOptions -> Host -> Page * Host :=
  if org then Repositories_ListByOrg target else Repositories_List target.

Definition list_call (org : bool) (target : string) : ListOptions -> ListCall :=
  if org then RepositoriesListByOrg target else RepositoriesList target.

(** The first page [ListRepositories] asks for. *)
Definition first_page : ListOptions := mkListOptions 0 100.

(** [paged force f opts h pgs opts' h']: from the page [opts] and the remote
    state [h] on, the service answers the requests [pgs], each with a
    response that announces a next page and with no error, or one that the
    flag [force] lets pass; the page to ask for next is [opts'], on the
    state [h']. *)
Inductive paged (force : bool) (f : ListOptions -> Host -> Page * Host)
    : ListOptions -> Host -> list (ListOptions * Page) -> ListOptions -> Host -> Prop :=
| paged_nil opts h : paged force f opts h [] opts h
| paged_cons opts h repos resp err h1 pgs opts' h' :
    f opts h = ((repos, Some resp, err), h1) ->
    fatal force err = false ->
    NextPage resp <> 0 ->
    paged force f (mkListOptions (NextPage resp) (lo_PerPage opts)) h1 pgs opts' h' ->
    paged force f opts h ((opts, (repos, Some resp, err)) :: pgs) opts' h'.

(** The entries of answered requests, and the requests as they are
    recorded. *)
Definition entries (pgs : list (ListOptions * Page)) : list (option GhRepository) :=
  concat (map (fun pg => fst (fst (snd pg))) pgs).

Definition recorded (c : ListOptions -> ListCall) (pgs : list (ListOptions * Page))
    : list Listing :=
  map (fun pg => Listed (c (fst pg)) (snd (snd pg))) pgs.

(** [listing_only p ls h p']: going from [p] to [p'] the listing requests
    [ls] were sent and the remote state is now [h]; but for the log,
    nothing else has changed. *)
Record listing_only (p : Process Host) (ls : list Listing) (h : Host) (p' : Process Host)
    : Prop := mkListingOnly {
  lg_force : FORCE_PROCESSING (world p') = FORCE_PROCESSING (world p);
  lg_level : logLevel (world p') = logLevel (world p);
  lg_heap : heap (world p') = heap (world p);
  lg_events : events (world p') = events (world p);
  lg_clock : clock (world p') = clock (world p);
  lg_usages : usages p' = usages p;
  lg_remote : remote (world p') = h;
  lg_listings : listings p' = listings p ++ ls
}.

(** [settles Q m]: when the computation [m] does not return, by an exit, a
    panic or for lack of fuel, the events it has added satisfy [Q]. *)
Definition settles {A : Type} (Q : Event -> Prop) (m : P Host A) : Prop :=
  forall p,
    (forall a, fst (m p) <> Done a) ->
    exists evs, events (world (snd (m p))) = events (world p) ++ evs /\ Forall Q evs.

(** [returns m]: the computation [m] always returns. *)
Definition returns {A : Type} (m : P Host A) : Prop :=
  forall p, exists a, fst (m p) = Done a.
End Notions.

(** ** a reference hosting service

    A small model of the hosting service, used to run the program on concrete
    worlds: the namespaces, the repositories by (owner, name), their issues
    (most recently updated first) and the set of requests that currently
    fail. *)
Record SimHost : Type := mkSimHost {
  sim_orgs : gset string;
  sim_users : gset string;
  sim_repos : gmap (string * string) GhRepository;
  sim_issues : gmap (string * string) (list (option Issue));
  sim_down : Call -> bool
}.

Definition unavailable : error := HostError "503 Service Unavailable".
Definition not_found : error := HostError "404 Not Found".

Definition sim_set_repos (m : gmap (string * string) GhRepository) (h : SimHost) : SimHost :=
  mkSimHost (sim_orgs h) (sim_users h) m (sim_issues h) (sim_down h).

Definition sim_org_get (org : string) (h : SimHost) : option error * SimHost :=
  if sim_down h (OrganizationsGet org) then (Some unavailable, h)
  else if bool_decide (org ∈ sim_orgs h) then (None, h)
  else (Some not_found, h).

Definition sim_user_get (user : string) (h : SimHost) : option error * SimHost :=
  if sim_down h (UsersGet user) then (Some unavailable, h)
  else if bool_decide (user ∈ sim_users h) then (None, h)
  else (Some not_found, h).

Definition sim_repo_get (owner repo : string) (h : SimHost)
    : (option GhRepository * option error) * SimHost :=
  if sim_down h (RepositoriesGet owner repo) then ((None, Some unavailable), h)
  else match sim_repos h !! (owner, repo) with
       | Some g => ((Some g, None), h)
       | None => ((None, Some not_found), h)
       end.

Definition sim_issues_list (owner repo : string) (opts : IssueListByRepoOptions) (h : SimHost)
    : (list (option Issue) * option error) * SimHost :=
  if sim_down h (IssuesListByRepo owner repo opts) then (([], Some unavailable), h)
  else match sim_repos h !! (owner, repo) with
       | Some _ =>
           ((take (Z.to_nat (PerPage opts)) (default [] (sim_issues h !! (owner, repo))), None), h)
       | None => (([], Some not_found), h)
       end.

Definition sim_create_fork (owner repo : string) (opts : RepositoryCreateForkOptions)
    (h : SimHost) : option error * SimHost :=
  if sim_down h (RepositoriesCreateFork owner repo opts) then (Some unavailable, h)
  else match sim_repos h !! (owner, repo) with
       | Some g =>
           if negb (bool_decide (Organization opts ∈ sim_orgs h ∪ sim_users h))
           then (Some not_found, h)
           else
           match sim_repos h !! (Organization opts, repo) with
           | Some _ => (None, h)
           | None =>
               (None, sim_set_repos
                        (<[(Organization opts, repo) :=
                             mkGhRepository (gh_Name g) (Some (Organization opts))
                                            (gh_PushedAt g) (gh_UpdatedAt g) (Some false)]>
                           (sim_repos h)) h)
           end
       | None => (Some not_found, h)
       end.

Definition sim_delete (owner repo : string) (h : SimHost) : option error * SimHost :=
  if sim_down h (RepositoriesDelete owner repo) then (Some unavailable, h)
  else match sim_repos h !! (owner, repo) with
       | Some _ => (None, sim_set_repos (delete (owner, repo) (sim_repos h)) h)
       | None => (Some not_found, h)
       end.

Definition sim_edit (owner repo : string) (body : GhRepository) (h : SimHost)
    : option error * SimHost :=
  if sim_down h (RepositoriesEdit owner repo body) then (Some unavailable, h)
  else match sim_repos h !! (owner, repo) with
       | Some g =>
           (None, sim_set_repos
                    (<[(owner, repo) :=
                         mkGhRepository (gh_Name g) (gh_OwnerLogin g) (gh_PushedAt g)
                                        (gh_UpdatedAt g)
                                        (match gh_Archived body with
                                         | Some b => Some b
                                         | None => gh_Archived g
                                         end)]>
                       (sim_repos h)) h)
       | None => (Some not_found, h)
       end.

#[export] Instance SimHost_api : GitHubAPI SimHost := {
  Organizations_Get := sim_org_get;
  Users_Get := sim_user_get;
  Repositories_Get := sim_repo_get;
  Issues_ListByRepo := sim_issues_list;
  Repositories_CreateFork := sim_create_fork;
  Repositories_Delete := sim_delete;
  Repositories_Edit := sim_edit
}.

(** A runtime that doubles the capacity. *)
Definition doubling : GoRuntime := {| growslice := fun old _ => (2 * old)%nat |}.

(** The repository [owner/name] is hosted. *)
Definition sim_present (h : SimHost) (owner repo : string) : bool :=
  bool_decide (is_Some (sim_repos h !! (owner, repo))).

(** The repository [owner/name] is hosted and marked archived. *)
Definition sim_archived (h : SimHost) (owner repo : string) : bool :=
  GetArchived (sim_repos h !! (owner, repo)).

(** A service on which no request fails for lack of availability. *)
Definition up : Call -> bool := fun _ => false.

(** alice/old-proj, last pushed at instant 1000. *)
Definition old_proj : GhRepository :=
  mkGhRepository (Some "old-proj") (Some "alice") (Some 1000) (Some 1500) (Some false).

(** A service that hosts alice/old-proj, with the user namespace
    alice-archive in place. *)
Definition alice_host (down : Call -> bool) : SimHost :=
  mkSimHost ∅ {["alice"; "alice-archive"]}
            {[("alice", "old-proj") := old_proj]} ∅ down.

(** The world at the start of a run: the flag as given on the command line,
    the default logger at its initial level, nothing logged or sent yet. *)
Definition world0 {Host} (force : bool) (h : Host) (hp : list (list Repository)) (now : Time)
    : World Host :=
  mkWorld force InfoLevel [] h [] hp now.

(** A service on which alice has no archive namespace. *)
Definition lonely_host : SimHost :=
  mkSimHost ∅ {["alice"]} {[("alice", "old-proj") := old_proj]} ∅ up.

(** A service on which deletions fail. *)
Definition no_delete : Call -> bool :=
  fun c => match c with RepositoriesDelete _ _ => true | _ => false end.

(** A service on which repositories cannot be read, while their issues
    can. *)
Definition no_read : Call -> bool :=
  fun c => match c with RepositoriesGet _ _ => true | _ => false end.

(** alice/old-proj with one issue, updated at instant 1200. *)
Definition issue_host (down : Call -> bool) : SimHost :=
  mkSimHost ∅ {["alice"]} {[("alice", "old-proj") := old_proj]}
            {[("alice", "old-proj") := [Some (mkIssue (Some 1200))]]} down.

(** A listing of three repositories, the second one archived, held in an
    array after a spare first cell. *)
Definition listing : list (list Repository) :=
  [[zeroRepository;
    mkRepository "alice" "old-proj" 77 false;
    mkRepository "alice" "gone" 78 true;
    mkRepository "alice" "new" 79 false]].

(** The slice of the three repositories. *)
Definition listing_slice : Slice := mkSlice (Some 0%nat) 1 3 3.

(** A service that hosts alice/old-proj, with an issue updated at instant
    1200, and alice/new, last pushed at instant 4000; alice/gone is not
    hosted any more. *)
Definition listing_host (down : Call -> bool) : SimHost :=
  mkSimHost ∅ {["alice"]}
    {[("alice", "old-proj") := old_proj;
      ("alice", "new") := mkGhRepository (Some "new") (Some "alice") (Some 4000) None None]}
    {[("alice", "old-proj") := [Some (mkIssue (Some 1200))]]} down.

(** The reference service lists the repositories of a namespace on one
    page, for a user and for an organization alike. *)
Definition sim_list (target : string) (opts : ListOptions) (h : SimHost) : Page * SimHost :=
  ((map (fun kv => Some (snd kv))
        (filter (fun kv => fst (fst kv) = target) (map_to_list (sim_repos h))),
    Some (mkResponse 0), None), h).

#[export] Instance SimHost_listing : GitHubListing SimHost := {
  Repositories_List := sim_list;
  Repositories_ListByOrg := sim_list
}.

(** A service that answers the listing requests from a script, one answer
    for each request and an empty last page once the script is used up, and
    on which every other request fails. *)
Definition Script : Type := list Page.

Definition Script_api : GitHubAPI Script := {|
  Organizations_Get := fun _ h => (Some unavailable, h);
  Users_Get := fun _ h => (Some unavailable, h);
  Repositories_Get := fun _ _ h => ((None, Some unavailable), h);
  Issues_ListByRepo := fun _ _ _ h => (([], Some unavailable), h);
  Repositories_CreateFork := fun _ _ _ h => (Some unavailable, h);
  Repositories_Delete := fun _ _ h => (Some unavailable, h);
  Repositories_Edit := fun _ _ _ h => (Some unavailable, h)
|}.

Definition script_list (target : string) (opts : ListOptions) (h : Script) : Page * Script :=
  match h with
  | pg :: rest => (pg, rest)
  | [] => (([], Some (mkResponse 0), None), [])
  end.

Definition Script_listing : GitHubListing Script := {|
  Repositories_List := script_list;
  Repositories_ListByOrg := script_list
|}.

(** The process at the start of a run. *)
Definition process0 {Host} (h : Host) (now : Time) : Process Host :=
  mkProcess (world0 false h [] now) [] 0.

(** The flags of a run on alice with the default threshold of two years. *)
Definition alice_flags (dry force : bool) : Flags :=
  mkFlags "secret" "alice" dry false 2 false false force.

(** An instant some three years after the first one. *)
Definition later : Time := 3 * 365 * 24 * Hour.

(** Two pages of a listing: the first has an entry without an owner and a
    nil entry. *)
Definition two_pages : Script :=
  [([Some old_proj; Some (mkGhRepository (Some "lost") None None None None); None],
    Some (mkResponse 2), None);
   ([Some (mkGhRepository (Some "new") (Some "alice") (Some 4000) None None)],
    Some (mkResponse 0), None)].

(** A first page, and then a request that fails without a response. *)
Definition broken_pages : Script :=
  [([Some old_proj], Some (mkResponse 2), None);
   ([], None, Some unavailable)].

(** ** what a run leaves behind *)

Section Runs.
Context {Host : Type} `{api : GitHubAPI Host} `{rt : GoRuntime}.

Lemma tracks_refl (w : World Host) : tracks w [] (remote w) [] w.
Proof.
  split; try reflexivity.
  - by rewrite app_nil_r.
  - exists []. by rewrite app_nil_r.
Qed.

Lemma tracks_trans (w : World Host) evs1 h1 L1 w1 evs2 h2 L2 w2 :
  tracks w evs1 h1 L1 w1 -> tracks w1 evs2 h2 L2 w2 ->
  tracks w (evs1 ++ evs2) h2 (L1 ++ L2) w2.
Proof.
  intros [F1 V1 P1 E1 R1 (l1 & S1 & I1)] [F2 V2 P2 E2 R2 (l2 & S2 & I2)].
  split; try congruence.
  - by rewrite E2, E1, app_assoc.
  - exists (l1 ++ l2)%list. split; [by rewrite S2, S1, app_assoc|]. set_solver.
Qed.

Lemma tracks_weaken (w : World Host) evs h L L' w' :
  L' ⊆ L -> tracks w evs h L w' -> tracks w evs h L' w'.
Proof.
  intros HL [F V P E R (l & S1 & I)]. split; try assumption.
  exists l. split; [assumption | set_solver].
Qed.

Lemma tracks_new_events (w : World Host) evs h L w' :
  tracks w evs h L w' -> new_events w w' = evs.
Proof.
  intros T. unfold new_events. rewrite (tr_events _ _ _ _ _ T).
  by rewrite drop_app_length.
Qed.

Lemma tracks_new_lines (w : World Host) evs h L w' :
  tracks w evs h L w' -> L ⊆ new_lines w w'.
Proof.
  intros [_ _ _ _ _ (l & S1 & I)]. unfold new_lines. rewrite S1.
  by rewrite drop_app_length.
Qed.

Ltac unfold_prims :=
  unfold logger_Debug, logger_Info, logger_Warn, logger_Error, logger_log, log_Printf,
    time_Sleep, time_Now, request, request_val, bind, ret, set_stdlog.

Ltac solve_tracks :=
  split; cbn;
  [ reflexivity | reflexivity | reflexivity
  | rewrite <- ?app_assoc; rewrite ?app_nil_r; reflexivity
  | reflexivity
  | rewrite <- ?app_assoc; eexists; split; [reflexivity | set_solver] ].

Ltac run := cbn -[Z.ltb level_int].

Lemma ForceProcessing_spec e (w : World Host) :
  fst (ForceProcessing e w) = fatal (FORCE_PROCESSING w) e /\
  tracks w [] (remote w)
    (if notnil e then [Printf "ERROR CONTINUANCE: %v" [AErr e]] else [])
    (snd (ForceProcessing e w)).
Proof.
  destruct w as [force lvl logs h evs hp clk].
  unfold ForceProcessing, fatal; unfold_prims; cbn.
  destruct e as [x|], force; cbn; (split; [reflexivity|]).
  all: split; cbn; try reflexivity; try (by rewrite app_nil_r).
  all: first [ eexists; split; [reflexivity|set_solver]
             | exists []; split; [by rewrite app_nil_r | set_solver] ].
Qed.

Lemma CreateArchiveNamespace_spec ns (w : World Host) :
  exists evs h',
    tracks w evs h' [] (snd (CreateArchiveNamespace ns w)) /\
    ns_outcome ns (remote w) (fst (CreateArchiveNamespace ns w)) evs h'.
Proof.
  destruct w as [force lvl logs h evs hp clk].
  unfold CreateArchiveNamespace, ns_outcome; unfold_prims; run.
  destruct (Organizations_Get ns h) as [[e1|] h1]; run;
    [destruct (Users_Get ns h1) as [[e2|] h2]; run|];
    (do 2 eexists; split; [|repeat split]; solve_tracks).
Qed.

Lemma ForkRepository_spec owner repo target (w : World Host) :
  exists evs h',
    tracks w evs h' [] (snd (ForkRepository owner repo target w)) /\
    fork_outcome (FORCE_PROCESSING w) owner repo target (remote w)
                 (fst (ForkRepository owner repo target w)) evs h'.
Proof.
  destruct w as [force lvl logs h evs hp clk].
  unfold ForkRepository, fork_outcome, ForceProcessing, fatal; unfold_prims; run.
  destruct (Repositories_Get target repo h) as [[g [ep|]] h1]; run;
    [destruct (Repositories_CreateFork owner repo (mkForkOpts target) h1) as [[ef|] h2];
     destruct force; run|];
    (do 2 eexists; split; [|repeat split]; solve_tracks).
Qed.

Lemma DeleteRepository_spec owner repo (w : World Host) :
  exists evs h' L,
    tracks w evs h' L (snd (DeleteRepository owner repo w)) /\
    delete_outcome (FORCE_PROCESSING w) owner repo (remote w)
                   (fst (DeleteRepository owner repo w)) evs h' L.
Proof.
  destruct w as [force lvl logs h evs hp clk].
  unfold DeleteRepository, delete_outcome, ForceProcessing, fatal; unfold_prims; run.
  destruct (Repositories_Delete owner repo h) as [[ed|] h1]; destruct force; run;
    (do 3 eexists; split; [|repeat split]; solve_tracks).
Qed.

Lemma SetArchiveStatus_spec owner repo archived (w : World Host) :
  exists evs h',
    tracks w evs h' [] (snd (SetArchiveStatus owner repo archived w)) /\
    status_outcome (FORCE_PROCESSING w) owner repo archived (remote w)
                   (fst (SetArchiveStatus owner repo archived w)) evs h'.
Proof.
  destruct w as [force lvl logs h evs hp clk].
  unfold SetArchiveStatus, status_outcome, ForceProcessing, fatal; unfold_prims; run.
  destruct (Repositories_Get owner repo h) as [[[g|] [eg|]] h1]; destruct force; run;
    try (destruct (Repositories_Edit owner repo (set_Archived archived g) h1) as [[ee|] h2];
         run);
    (do 2 eexists; split; [|repeat split]; solve_tracks).
Qed.

Lemma GetLastActivity_spec owner repo (w : World Host) :
  exists evs h',
    tracks w evs h' [] (snd (GetLastActivity owner repo w)) /\
    activity_outcome (FORCE_PROCESSING w) owner repo (remote w)
                     (fst (GetLastActivity owner repo w)) evs h'.
Proof.
  destruct w as [force lvl logs h evs hp clk].
  unfold GetLastActivity, activity_outcome, later_of, ForceProcessing, fatal, issueOpts;
    unfold_prims; run.
  destruct (Repositories_Get owner repo h) as [[g [eg|]] h1]; destruct force; run;
    try (destruct (Issues_ListByRepo owner repo (mkIssueOpts "updated" "desc" 1) h1)
           as [[[|i0 iss] [ei|]] h2]; run;
         try destruct (Time_After (Issue_GetUpdatedAt i0) (GetPushedAt g)); run);
    (do 2 eexists; split; [|repeat split]; solve_tracks).
Qed.

Lemma tracks_log (w0 : World Host) evs h L w level format args :
  tracks w0 evs h L w -> tracks w0 evs h L (snd (logger_log level format args w)).
Proof.
  intros [F V P E R (l & S1 & I)]. split; cbn; try assumption.
  eexists. split; [by rewrite S1, <- app_assoc | set_solver].
Qed.

Lemma tracks_force (w0 : World Host) evs h L w e :
  tracks w0 evs h L w ->
  fst (ForceProcessing e w) = fatal (FORCE_PROCESSING w0) e /\
  tracks w0 evs h L (snd (ForceProcessing e w)).
Proof.
  intros T. destruct (ForceProcessing_spec e w) as [-> T'].
  rewrite (tr_force _ _ _ _ _ T). split; [reflexivity|].
  pose proof (tracks_trans _ _ _ _ _ _ _ _ _ T T') as T2.
  rewrite app_nil_r, (tr_remote _ _ _ _ _ T) in T2.
  eapply tracks_weaken; [|exact T2]. set_solver.
Qed.

Lemma tracks_sleep (w0 : World Host) evs h L w d :
  tracks w0 evs h L w -> tracks w0 (evs ++ [Slept d]) h L (snd (time_Sleep d w)).
Proof.
  intros [F V P E R S1]. split; cbn; try assumption.
  by rewrite E, <- app_assoc.
Qed.

(** Steps of a run.  [T] records the way from the first world to the current
    one; a step names the pair the next call returns and moves [T] on. *)
Ltac name_result t :=
  let p := fresh "p" in
  set (p := t) in *; clearbody p;
  let a := fresh "a" in let w' := fresh "w" in
  destruct p as [a w']; cbn [fst snd] in *.

Ltac step T :=
  match goal with
  | |- context [logger_log ?l ?f ?a ?w] =>
      apply (tracks_log _ _ _ _ _ l f a) in T; name_result (logger_log l f a w)
  | |- context [time_Sleep ?d ?w] =>
      apply (tracks_sleep _ _ _ _ _ d) in T; name_result (time_Sleep d w)
  | |- context [ForceProcessing ?e ?w] =>
      let F := fresh "F" in
      apply (fun T0 => tracks_force _ _ _ _ _ e T0) in T; destruct T as [F T];
      name_result (ForceProcessing e w); rewrite F; clear F
  end.

Ltac step_call spec T O :=
  match type of T with
  | tracks _ _ _ _ ?wc =>
      let evs := fresh "evs" in
      let h := fresh "h" in
      let T1 := fresh "T" in
      destruct (spec wc) as (evs & h & T1 & O);
      rewrite ?(tr_remote _ _ _ _ _ T), ?(tr_force _ _ _ _ _ T) in O;
      apply (tracks_trans _ _ _ _ _ _ _ _ _ T) in T1; clear T; rename T1 into T;
      match type of O with context [fst ?t] => name_result t end
  end.

Ltac step_call_lines spec T O :=
  match type of T with
  | tracks _ _ _ _ ?wc =>
      let evs := fresh "evs" in
      let h := fresh "h" in
      let L := fresh "L" in
      let T1 := fresh "T" in
      destruct (spec wc) as (evs & h & L & T1 & O);
      rewrite ?(tr_remote _ _ _ _ _ T), ?(tr_force _ _ _ _ _ T) in O;
      apply (tracks_trans _ _ _ _ _ _ _ _ _ T) in T1; clear T; rename T1 into T;
      match type of O with context [fst ?t] => name_result t end
  end.

Ltac case_fatal F :=
  match goal with
  | |- context [if fatal ?f ?e then _ else _] => destruct (fatal f e) eqn:F
  end.

Lemma ArchiveRepository_spec owner ns repo (w : World Host) :
  exists evs h' L,
    tracks w evs h' L (snd (ArchiveRepository owner ns repo w)) /\
    archive_outcome (FORCE_PROCESSING w) owner ns repo (remote w)
                    (fst (ArchiveRepository owner ns repo w)) evs h' L.
Proof.
  pose proof (tracks_refl w) as T.
  unfold ArchiveRepository, archive_outcome, bind, ret,
    logger_Debug, logger_Info, logger_Error.
  do 2 step T.
  step_call (CreateArchiveNamespace_spec ns) T O1.
  step T. case_fatal F1.
  { step T. do 3 eexists. split; [exact T|]. do 3 eexists. split; [exact O1|].
    rewrite F1. repeat split. }
  do 2 step T.
  step_call (ForkRepository_spec owner repo ns) T O2.
  step T. case_fatal F2.
  { step T. do 3 eexists. split; [exact T|]. do 3 eexists. split; [exact O1|].
    rewrite F1. do 3 eexists. split; [exact O2|]. rewrite F2. repeat split. }
  do 4 step T.
  step_call_lines (DeleteRepository_spec owner repo) T O3.
  step T. case_fatal F3.
  { step T. do 3 eexists. split; [exact T|]. do 3 eexists. split; [exact O1|].
    rewrite F1. do 3 eexists. split; [exact O2|]. rewrite F2.
    do 4 eexists. split; [exact O3|]. rewrite F3. repeat split;
      cbn [app]; rewrite ?app_nil_r, <- ?app_assoc; reflexivity. }
  do 2 step T.
  step_call (SetArchiveStatus_spec ns repo true) T O4.
  step T.
  case_fatal F4; [step T | do 2 step T];
    (do 3 eexists; split; [exact T|]; do 3 eexists; split; [exact O1|];
     rewrite F1; do 3 eexists; split; [exact O2|]; rewrite F2;
     do 4 eexists; split; [exact O3|]; rewrite F3;
     do 3 eexists; split; [exact O4|]; rewrite F4; repeat split;
     cbn [app]; rewrite ?app_nil_r, <- ?app_assoc; reflexivity).
Qed.

(** *** two facts on lists of events *)

(** A list has one decomposition around its first element outside [P]. *)
Lemma first_outside {A : Type} (P : A -> Prop) (l1 l2 : list A) x y r1 r2 :
  Forall P l1 -> Forall P l2 -> ~ P x -> ~ P y ->
  (l1 ++ x :: r1 = l2 ++ y :: r2)%list -> l1 = l2 /\ x = y /\ r1 = r2.
Proof.
  revert l2. induction l1 as [|a l1 IH]; intros [|b l2] F1 F2 Nx Ny E; cbn in E.
  - by inversion E.
  - inversion E; subst. inversion F2; subst. contradiction.
  - inversion E; subst. inversion F1; subst. contradiction.
  - inversion E; subst. inversion F1; inversion F2; subst.
    destruct (IH l2) as (-> & -> & ->); auto.
Qed.

(** A list has one decomposition around its only element outside [P]. *)
Lemma only_outside {A : Type} (P : A -> Prop) (l1 l2 : list A) x y r1 r2 :
  Forall P l1 -> Forall P r1 -> ~ P y ->
  (l1 ++ x :: r1 = l2 ++ y :: r2)%list -> l1 = l2 /\ x = y /\ r1 = r2.
Proof.
  revert l2. induction l1 as [|a l1 IH]; intros [|b l2] F1 F2 Ny E; cbn in E.
  - by inversion E.
  - inversion E; subst. apply Forall_app in F2 as [_ F2].
    inversion F2; subst. contradiction.
  - inversion E; subst. inversion F1; subst. contradiction.
  - inversion E; subst. inversion F1; subst.
    destruct (IH l2) as (-> & -> & ->); auto.
Qed.

(** ** the continuation resolver *)

(** C2. [ForceProcessing], as a function of the error and the force flag,
    lets the caller continue (returns [false]) exactly when the error is nil
    or the flag is set: with a nil error always, with an error and the flag
    unset never, with an error and the flag set always. *)
Theorem ForceProcessing_continue_iff (e : option error) (w : World Host) :
  fst (ForceProcessing e w) = false <-> (e = None \/ FORCE_PROCESSING w = true).
Proof.
  destruct (ForceProcessing_spec e w) as [-> _]. unfold fatal.
  destruct e as [x|], (FORCE_PROCESSING w); cbn; intuition discriminate.
Qed.

Lemma fatal_None (force : bool) : fatal force None = false.
Proof. by destruct force. Qed.

(** ** the archive transaction *)

(** C1 (as amended). When the namespace verification finds the archive
    namespace neither as an organization nor as a user and the force flag is
    not set, [ArchiveRepository] returns the namespace-missing error, wrapped
    as a failure of the first step, and has sent nothing but the two
    verification requests.  With the force flag set the error does not stop
    the transaction: its next request is the existence check of the fork
    step. *)
Theorem ArchiveRepository_namespace_missing owner ns repo (w : World Host) e1 h1 e2 h2 :
  Organizations_Get ns (remote w) = (Some e1, h1) ->
  Users_Get ns h1 = (Some e2, h2) ->
  let r := ArchiveRepository owner ns repo w in
  (FORCE_PROCESSING w = false ->
     fst r = Some (Wrapf "failed to create archive namespace: %w" []
                         (Some (namespace_missing ns))) /\
     new_events w (snd r) =
       [Requested (OrganizationsGet ns) (Some e1); Requested (UsersGet ns) (Some e2)] /\
     remote (snd r) = h2) /\
  (FORCE_PROCESSING w = true ->
     fst r = None /\
     exists ep rest,
       new_events w (snd r) =
         [Requested (OrganizationsGet ns) (Some e1); Requested (UsersGet ns) (Some e2);
          Requested (RepositoriesGet ns repo) ep] ++ rest).
Proof.
  intros Horg Husr r. subst r.
  destruct (ArchiveRepository_spec owner ns repo w) as (evs & h' & L & T & O).
  rewrite (tracks_new_events _ _ _ _ _ T), (tr_remote _ _ _ _ _ T). clear T.
  name_result (ArchiveRepository owner ns repo w).
  destruct O as (x1 & evs1 & k1 & O1 & O). unfold ns_outcome in O1.
  rewrite Horg, Husr in O1. destruct O1 as (-> & -> & ->).
  split; intros F; rewrite F in O; cbn in O.
  - destruct O as (Ha & He & Hh & _). subst. auto.
  - destruct O as (x2 & evs2 & k2 & O2 & O).
    assert (exists ep rest, evs2 = Requested (RepositoriesGet ns repo) ep :: rest)
      as (ep & rest2 & ->).
    { unfold fork_outcome in O2.
      destruct (Repositories_Get ns repo h2) as [[g [ep|]] k].
      - destruct (Repositories_CreateFork owner repo (mkForkOpts ns) k) as [ef k'].
        destruct O2 as (_ & _ & ->). eauto.
      - destruct O2 as (_ & _ & ->). eauto. }
    destruct O as (x3 & evs3 & k3 & L3 & O3 & x4 & evs4 & k4 & O4 & -> & -> & _).
    split; [reflexivity|]. cbn. eauto.
Qed.

(** C5. The fork step is idempotent.  On [ForkRepository] alone: when the
    existence check finds [target/repo] (the read comes back without error),
    the function returns nil having sent that one request.  On the whole
    transaction: when the namespace verification is let pass and the service
    then answers the existence check of [ns/repo] without error, the events of
    [ArchiveRepository] are those of the verification, the existence check,
    and right after it the five-second wait; no fork request is sent
    anywhere in the run. *)
Theorem fork_step_idempotent owner ns repo (w : World Host) g h2 :
  fatal (FORCE_PROCESSING w) (fst (CreateArchiveNamespace ns w)) = false ->
  Repositories_Get ns repo (remote (snd (CreateArchiveNamespace ns w))) = ((g, None), h2) ->
  (forall (w1 : World Host),
     snd (fst (Repositories_Get ns repo (remote w1))) = None ->
     fst (ForkRepository owner repo ns w1) = None /\
     new_events w1 (snd (ForkRepository owner repo ns w1)) =
       [Requested (RepositoriesGet ns repo) None]) /\
  Forall (fun ev => ~ is_fork_request ev)
         (new_events w (snd (ArchiveRepository owner ns repo w))) /\
  exists rest,
    new_events w (snd (ArchiveRepository owner ns repo w)) =
      (new_events w (snd (CreateArchiveNamespace ns w)) ++
       Requested (RepositoriesGet ns repo) None :: Slept (5 * Second) :: rest)%list.
Proof.
  intros Hpass Hget. split.
  { intros w1 Hx.
    destruct (ForkRepository_spec owner repo ns w1) as (evs & h' & T & O).
    rewrite (tracks_new_events _ _ _ _ _ T). unfold fork_outcome in O.
    destruct (Repositories_Get ns repo (remote w1)) as [[g1 ep] k]. cbn in Hx. subst ep.
    destruct O as (-> & _ & ->). auto. }
  destruct (CreateArchiveNamespace_spec ns w) as (evs0 & h0 & T0 & O0).
  rewrite (tracks_new_events _ _ _ _ _ T0). rewrite (tr_remote _ _ _ _ _ T0) in Hget.
  destruct (ArchiveRepository_spec owner ns repo w) as (evs & h' & L & T & O).
  rewrite (tracks_new_events _ _ _ _ _ T). clear T T0.
  destruct O as (x1 & evs1 & k1 & O1 & O).
  assert (D : x1 = fst (CreateArchiveNamespace ns w) /\ evs1 = evs0 /\ k1 = h0).
  { unfold ns_outcome in O0, O1.
    destruct (Organizations_Get ns (remote w)) as [[e1|] k];
      [destruct (Users_Get ns k) as [[e2|] k']|];
      destruct O0 as (E0 & -> & ->), O1 as (-> & -> & ->); rewrite E0; auto. }
  destruct D as (-> & -> & ->). rewrite Hpass in O.
  assert (G0 : Forall (fun ev => ~ is_fork_request ev) evs0).
  { unfold ns_outcome in O0.
    destruct (Organizations_Get ns (remote w)) as [[e1|] k];
      [destruct (Users_Get ns k) as [[e2|] k']|];
      destruct O0 as (_ & _ & ->); repeat constructor;
      intros (? & ? & ? & ? & ?); discriminate. }
  destruct O as (x2 & evs2 & k2 & O2 & O). unfold fork_outcome in O2.
  rewrite Hget in O2. destruct O2 as (-> & -> & ->). rewrite fatal_None in O.
  destruct O as (x3 & evs3 & k3 & L3 & O3 & O). unfold delete_outcome in O3.
  destruct (Repositories_Delete owner repo h2) as [ed k'].
  destruct O3 as (_ & -> & -> & _).
  assert (exists tl, evs = (evs0 ++ Requested (RepositoriesGet ns repo) None ::
                              Slept (5 * Second) :: tl)%list /\
                     Forall (fun ev => ~ is_fork_request ev) tl) as (tl & -> & Gtl).
  { destruct (fatal (FORCE_PROCESSING w) x3).
    - destruct O as (_ & -> & _). eexists. split; [reflexivity|].
      repeat constructor. intros (? & ? & ? & ? & ?); discriminate.
    - destruct O as (x4 & evs4 & k4 & O4 & _ & -> & _). eexists.
      split; [reflexivity|]. unfold status_outcome in O4.
      destruct (Repositories_Get ns repo k') as [[[g0|] eg] k''];
        destruct (fatal (FORCE_PROCESSING w) eg);
        try destruct (Repositories_Edit ns repo (set_Archived true g0) k'') as [ee k3'];
        destruct O4 as (_ & _ & ->); repeat constructor;
        intros (? & ? & ? & ? & ?); discriminate. }
  split; [|eauto].
  apply Forall_app. split; [assumption|].
  repeat constructor; try assumption; intros (? & ? & ? & ? & ?); discriminate.
Qed.

(** C8. With the force flag set, a failure of the deletion does not stop the
    transaction: whenever the request to delete [owner/repo] comes back with
    an error, that error is written to the log, the next request is the read
    of [ns/repo] that opens the set-archived step, and [ArchiveRepository]
    returns nil. *)
Theorem force_continues_past_failed_delete owner ns repo (w : World Host) before e rest :
  FORCE_PROCESSING w = true ->
  new_events w (snd (ArchiveRepository owner ns repo w)) =
    before ++ Requested (RepositoriesDelete owner repo) (Some e) :: rest ->
  fst (ArchiveRepository owner ns repo w) = None /\
  Printf "ERROR CONTINUANCE: %v" [AErr (Some e)]
    ∈ new_lines w (snd (ArchiveRepository owner ns repo w)) /\
  exists eg rest', rest = Requested (RepositoriesGet ns repo) eg :: rest'.
Proof.
  intros F.
  destruct (ArchiveRepository_spec owner ns repo w) as (evs & h' & L & T & O).
  rewrite (tracks_new_events _ _ _ _ _ T).
  pose proof (tracks_new_lines _ _ _ _ _ T) as HL. clear T.
  name_result (ArchiveRepository owner ns repo w). intros E.
  rewrite F in O. unfold archive_outcome in O. cbn [fatal negb andb] in O.
  destruct O as (x1 & evs1 & k1 & O1 & x2 & evs2 & k2 & O2 & x3 & evs3 & k3 & L3 & O3
                & x4 & evs4 & k4 & O4 & -> & -> & _ & ->).
  assert (G1 : Forall (fun ev => ~ is_delete_request ev) evs1).
  { unfold ns_outcome in O1.
    destruct (Organizations_Get ns (remote w)) as [[e1|] k];
      [destruct (Users_Get ns k) as [[e2|] k']|];
      destruct O1 as (_ & _ & ->); repeat constructor;
      intros (? & ? & ? & ?); discriminate. }
  assert (G2 : Forall (fun ev => ~ is_delete_request ev) evs2).
  { unfold fork_outcome in O2.
    destruct (Repositories_Get ns repo k1) as [[g [ep|]] k];
      [destruct (Repositories_CreateFork owner repo (mkForkOpts ns) k) as [ef k']|];
      destruct O2 as (_ & _ & ->); repeat constructor;
      intros (? & ? & ? & ?); discriminate. }
  assert (G4 : Forall (fun ev => ~ is_delete_request ev) evs4 /\
               exists eg tl, evs4 = Requested (RepositoriesGet ns repo) eg :: tl).
  { unfold status_outcome in O4. cbn [fatal negb andb] in O4.
    destruct (Repositories_Get ns repo k3) as [[[g0|] eg] k];
      try destruct (Repositories_Edit ns repo (set_Archived true g0) k) as [ee k'];
      destruct O4 as (_ & _ & ->); (split; [|eauto]); repeat constructor;
      intros (? & ? & ? & ?); discriminate. }
  destruct G4 as (G4 & eg & tl & ->).
  unfold delete_outcome in O3.
  destruct (Repositories_Delete owner repo k2) as [ed k].
  destruct O3 as (_ & _ & -> & ->).
  replace (evs1 ++ evs2 ++ Slept (5 * Second) ::
             [Requested (RepositoriesDelete owner repo) ed] ++
             Requested (RepositoriesGet ns repo) eg :: tl)
    with ((evs1 ++ evs2 ++ [Slept (5 * Second)]) ++
            Requested (RepositoriesDelete owner repo) ed ::
            Requested (RepositoriesGet ns repo) eg :: tl) in E
    by (by rewrite <- !app_assoc).
  apply (only_outside (fun ev => ~ is_delete_request ev)) in E as (_ & Ed & <-).
  - injection Ed as ->. cbn in HL. split; [reflexivity|]. split; [set_solver|eauto].
  - rewrite !Forall_app. repeat split; auto. repeat constructor.
    intros (? & ? & ? & ?); discriminate.
  - assumption.
  - intros Hn. apply Hn. do 3 eexists. reflexivity.
Qed.

(** C6. A fully successful run of [ArchiveRepository owner ns repo] in which
    the fork does not exist yet: the namespace is found (as an organization,
    or else as a user), the existence check of [ns/repo] fails, and the fork,
    the deletion, the read of the fork and its edit all succeed.  Then the
    function returns nil; the events are, in this order and each once, the
    namespace verification, the existence check, the fork of [owner/repo]
    into [ns], the five-second wait, the deletion of [owner/repo], the read
    of [ns/repo] and its edit with the archived flag set; and on a hosting
    service that obeys [HostLaws], the final state has [owner/repo] deleted
    and [ns/repo] archived. *)
Theorem archive_successful_run owner ns repo (w : World Host)
    (present archived : Host -> string -> string -> bool)
    checks h1 g0 ep h2 h3 h4 g h5 h6 :
  HostLaws present archived ->
  (Organizations_Get ns (remote w) = (None, h1) /\
   checks = [Requested (OrganizationsGet ns) None]) \/
  (exists e0 h0,
     Organizations_Get ns (remote w) = (Some e0, h0) /\
     Users_Get ns h0 = (None, h1) /\
     checks = [Requested (OrganizationsGet ns) (Some e0); Requested (UsersGet ns) None]) ->
  Repositories_Get ns repo h1 = ((g0, Some ep), h2) ->
  Repositories_CreateFork owner repo (mkForkOpts ns) h2 = (None, h3) ->
  Repositories_Delete owner repo h3 = (None, h4) ->
  Repositories_Get ns repo h4 = ((Some g, None), h5) ->
  Repositories_Edit ns repo (set_Archived true g) h5 = (None, h6) ->
  let r := ArchiveRepository owner ns repo w in
  fst r = None /\
  new_events w (snd r) =
    checks ++
    [Requested (RepositoriesGet ns repo) (Some ep);
     Requested (RepositoriesCreateFork owner repo (mkForkOpts ns)) None;
     Slept (5 * Second);
     Requested (RepositoriesDelete owner repo) None;
     Requested (RepositoriesGet ns repo) None;
     Requested (RepositoriesEdit ns repo (set_Archived true g)) None] /\
  remote (snd r) = h6 /\
  present h6 owner repo = false /\
  archived h6 ns repo = true.
Proof.
  intros Laws Hns Hprobe Hfork Hdel Hget Hedit r. subst r.
  destruct (ArchiveRepository_spec owner ns repo w) as (evs & h' & L & T & O).
  rewrite (tracks_new_events _ _ _ _ _ T), (tr_remote _ _ _ _ _ T). clear T.
  name_result (ArchiveRepository owner ns repo w).
  destruct O as (x1 & evs1 & k1 & O1 & O).
  assert (x1 = None /\ evs1 = checks /\ k1 = h1) as (-> & -> & ->).
  { unfold ns_outcome in O1.
    destruct Hns as [(E1 & ->)|(e0 & h0 & E1 & E2 & ->)];
      rewrite E1 in O1; [|rewrite E2 in O1]; destruct O1 as (-> & -> & ->); auto. }
  rewrite fatal_None in O.
  destruct O as (x2 & evs2 & k2 & O2 & O).
  unfold fork_outcome in O2. rewrite Hprobe, Hfork, fatal_None in O2.
  destruct O2 as (-> & -> & ->). rewrite fatal_None in O.
  destruct O as (x3 & evs3 & k3 & L3 & O3 & O).
  unfold delete_outcome in O3. rewrite Hdel, fatal_None in O3.
  destruct O3 as (-> & -> & -> & _). rewrite fatal_None in O.
  destruct O as (x4 & evs4 & k4 & O4 & -> & -> & -> & _).
  unfold status_outcome in O4. rewrite Hget, fatal_None, Hedit, fatal_None in O4.
  destruct O4 as (-> & -> & ->). rewrite fatal_None.
  repeat split.
  - rewrite (law_edit_present _ _ Laws _ _ _ _ _ Hedit).
    rewrite (law_get _ _ Laws _ _ _ _ _ Hget).
    exact (law_delete _ _ Laws _ _ _ _ Hdel).
  - exact (law_edit_archived _ _ Laws _ _ _ true _ _ Hedit eq_refl).
Qed.

(** ** slices and the heap *)

Lemma slice_elems_length hp s :
  slice_wf hp s -> length (slice_elems hp s) = s_len s.
Proof.
  unfold slice_wf, slice_elems. destruct (s_arr s) as [a|].
  - intros (arr & -> & Hc & Hl). cbn. rewrite length_take, length_drop. lia.
  - by intros [-> _].
Qed.

Lemma slice_elems_lookup hp s (i : nat) (w : World Host) :
  heap w = hp -> slice_wf hp s -> (i < s_len s)%nat ->
  slice_elems hp s !! i = Some (fst (index s i w)).
Proof.
  intros Hh. unfold slice_wf, slice_elems, index. rewrite Hh.
  destruct (s_arr s) as [a|]; [|intros [-> _]; lia]. cbn.
  intros (arr & E & Hc & Hl) Hi. rewrite E. cbn.
  rewrite lookup_take_lt by lia. rewrite lookup_drop.
  destruct (arr !! (s_off s + i)%nat) eqn:E'; [reflexivity|].
  apply lookup_ge_None in E'. lia.
Qed.

(** Slices of [h0] read the same in every heap that extends it. *)
Lemma slice_elems_extend h0 ext s a :
  s_arr s = Some a -> (a < length h0)%nat ->
  slice_elems (h0 ++ ext) s = slice_elems h0 s.
Proof.
  intros Ha Hlt. unfold slice_elems. rewrite Ha.
  by rewrite lookup_app_l.
Qed.

Lemma slice_wf_extend h0 ext s : slice_wf h0 s -> slice_wf (h0 ++ ext) s.
Proof.
  unfold slice_wf. destruct (s_arr s) as [a|]; [|done].
  intros (arr & E & Hc). exists arr. split; [|assumption].
  rewrite lookup_app_l; [assumption|]. by apply lookup_lt_Some in E.
Qed.

Lemma slice_wf_elems_extend h0 ext s :
  slice_wf h0 s -> slice_elems (h0 ++ ext) s = slice_elems h0 s.
Proof.
  intros Hwf. destruct (s_arr s) as [a|] eqn:Ha.
  - apply (slice_elems_extend _ _ _ a Ha).
    unfold slice_wf in Hwf. rewrite Ha in Hwf.
    destruct Hwf as (arr & E & _). by apply lookup_lt_Some in E.
  - unfold slice_elems. by rewrite Ha.
Qed.

Lemma owned_nil h0 : owned h0 h0 nilSlice.
Proof.
  split; [exists []; by rewrite app_nil_r|]. split; [by split|]. intros a Ha. discriminate.
Qed.

(** [append] writes only through the slice it is given: it leaves every
    other component of the world alone, keeps an owned slice owned, and the
    slice it returns reads as the old one followed by the new element. *)
Lemma append_owned h0 (acc : Slice) (x : Repository) (w : World Host) :
  owned h0 (heap w) acc ->
  let r := append acc x w in
  owned h0 (heap (snd r)) (fst r) /\
  slice_elems (heap (snd r)) (fst r) = slice_elems (heap w) acc ++ [x] /\
  FORCE_PROCESSING (snd r) = FORCE_PROCESSING w /\
  logLevel (snd r) = logLevel w /\ stdlog (snd r) = stdlog w /\
  remote (snd r) = remote w /\ events (snd r) = events w /\ clock (snd r) = clock w.
Proof.
  intros ((ext & Hext) & Hwf & Hown).
  assert (Hre : let r := realloc acc x w in
    owned h0 (heap (snd r)) (fst r) /\
    slice_elems (heap (snd r)) (fst r) = slice_elems (heap w) acc ++ [x]).
  { cbn. split.
    - split; [exists (ext ++ [slice_elems (heap w) acc ++ x ::
          replicate (Nat.max (S (s_len acc)) (growslice (s_cap acc) (S (s_len acc)))
                     - S (s_len acc)) zeroRepository]);
               by rewrite Hext, app_assoc|].
      split.
      + unfold slice_wf. cbn. eexists. split; [apply list_lookup_middle; reflexivity|].
        rewrite length_app. cbn. rewrite length_replicate, (slice_elems_length _ _ Hwf). lia.
      + intros a [= <-]. rewrite Hext, length_app. lia.
    - unfold slice_elems at 1. cbn. rewrite list_lookup_middle by reflexivity. cbn.
      fold (slice_elems (heap w) acc). rewrite cons_middle, app_assoc.
      apply take_app_length'. rewrite length_app, (slice_elems_length _ _ Hwf). cbn. lia. }
  unfold append. destruct (s_arr acc) as [a|] eqn:Ha; [|cbn in *; tauto].
  destruct (s_len acc <? s_cap acc)%nat eqn:Hroom; [|cbn in *; tauto].
  apply Nat.ltb_lt in Hroom. cbn.
  unfold slice_wf in Hwf. rewrite Ha in Hwf. destruct Hwf as (arr & Harr & Hc & Hl).
  specialize (Hown a eq_refl).
  assert (Halt : alter (fun arr => <[(s_off acc + s_len acc)%nat:=x]> arr) a (heap w) !! a
                 = Some (<[(s_off acc + s_len acc)%nat:=x]> arr)).
  { rewrite list_lookup_alter, Harr. by rewrite decide_True. }
  repeat split; try reflexivity.
  - exists (alter (fun arr => <[(s_off acc + s_len acc)%nat:=x]> arr) (a - length h0)%nat ext).
    rewrite Hext. by apply alter_app_r_alt.
  - unfold slice_wf. cbn. eexists. split; [exact Halt|].
    rewrite length_insert. lia.
  - intros a' [= <-]. assumption.
  - unfold slice_elems. cbn. rewrite Ha, Halt, Harr. cbn.
    rewrite drop_insert_ge by lia.
    replace (s_off acc + s_len acc - s_off acc)%nat with (s_len acc) by lia.
    rewrite (take_S_r _ _ x).
    + by rewrite take_insert_ge.
    + apply list_lookup_insert_eq. rewrite length_drop. lia.
Qed.

(** ** lookups of the last activity *)

Lemma activity_outcome_det force owner repo (h : Host) r1 evs1 h1 r2 evs2 h2 :
  activity_outcome force owner repo h r1 evs1 h1 ->
  activity_outcome force owner repo h r2 evs2 h2 ->
  r1 = r2 /\ evs1 = evs2 /\ h1 = h2.
Proof.
  unfold activity_outcome.
  destruct (Repositories_Get owner repo h) as [[g eg] k].
  destruct (fatal force eg).
  - intros (-> & -> & ->) (-> & -> & ->). auto.
  - destruct (Issues_ListByRepo owner repo issueOpts k) as [[iss ei] k'].
    intros (-> & -> & ->) (-> & -> & ->). auto.
Qed.

Lemma GetLastActivity_run owner repo (w : World Host) :
  let r := GetLastActivity owner repo w in
  let la := lookup_activity (FORCE_PROCESSING w) (remote w) owner repo in
  fst r = fst la /\
  exists evs,
    tracks w evs (snd la) [] (snd r) /\
    if fatal (FORCE_PROCESSING w) (snd (fst r))
    then FORCE_PROCESSING w = false /\
         exists eg, evs = [Requested (RepositoriesGet owner repo) eg]
    else exists eg ei, evs = [Requested (RepositoriesGet owner repo) eg;
                              Requested (IssuesListByRepo owner repo issueOpts) ei].
Proof.
  cbn zeta. unfold lookup_activity. cbn [fst snd].
  destruct (GetLastActivity_spec owner repo w) as (evs & h' & T & O).
  destruct (GetLastActivity_spec owner repo
              (bare (FORCE_PROCESSING w) (remote w))) as (evs0 & h0' & T0 & O0).
  cbn [bare FORCE_PROCESSING remote] in O0.
  destruct (activity_outcome_det _ _ _ _ _ _ _ _ _ _ O O0) as (E1 & _ & E2).
  split; [assumption|]. exists evs.
  rewrite (tr_remote _ _ _ _ _ T0), <- E2. split; [assumption|].
  clear T T0 O0 E1 E2. unfold activity_outcome in O.
  destruct (Repositories_Get owner repo (remote w)) as [[g eg] k].
  destruct (fatal (FORCE_PROCESSING w) eg) eqn:F.
  - destruct O as (-> & _ & ->). cbn [fst snd].
    unfold fatal in *. destruct (FORCE_PROCESSING w); [discriminate|]. cbn. eauto.
  - destruct (Issues_ListByRepo owner repo issueOpts k) as [[iss ei] k'].
    destruct O as (-> & _ & ->). cbn [fst snd]. rewrite fatal_None. eauto.
Qed.

Lemma index_owned repos h0 i x acc (w : World Host) :
  slice_wf h0 repos -> slice_elems h0 repos !! i = Some x ->
  owned h0 (heap w) acc -> index repos i w = (x, w).
Proof.
  intros Hwf Hx ((ext & Hext) & _).
  assert (Hi : (i < s_len repos)%nat).
  { apply lookup_lt_Some in Hx. by rewrite slice_elems_length in Hx. }
  pose proof (slice_elems_lookup (heap w) repos i w eq_refl) as Hl.
  rewrite Hext in Hl at 1 2. rewrite slice_wf_elems_extend in Hl by assumption.
  specialize (Hl (slice_wf_extend _ _ _ Hwf) Hi). rewrite Hx in Hl.
  injection Hl as Hl. unfold index in *. cbn in *. by rewrite <- Hl.
Qed.

Lemma range_body_spec repos now cutoff h0 i x acc (w : World Host) :
  slice_wf h0 repos ->
  slice_elems h0 repos !! i = Some x ->
  owned h0 (heap w) acc ->
  let r := range_body repos now cutoff i acc w in
  let la := lookup_activity (FORCE_PROCESSING w) (remote w) (Owner x) (Name x) in
  FORCE_PROCESSING (snd r) = FORCE_PROCESSING w /\
  if IsArchived x then
    fst r = Next acc /\ events (snd r) = events w /\ remote (snd r) = remote w /\
    heap (snd r) = heap w
  else
    exists g, lookup_group x g /\ events (snd r) = events w ++ g /\
              remote (snd r) = snd la /\
    if fatal (FORCE_PROCESSING w) (snd (fst la)) then
      FORCE_PROCESSING w = false /\ heap (snd r) = heap w /\
      exists e, fst r = Return (nilSlice, Some e)
    else
      exists acc', fst r = Next acc' /\ owned h0 (heap (snd r)) acc' /\
        slice_elems (heap (snd r)) acc' =
          slice_elems (heap w) acc ++ inactive cutoff [set_LastActivity (fst (fst la)) x].
Proof.
  intros Hwf Hx Hown. cbn zeta.
  pose proof (tracks_refl w) as T.
  unfold range_body, bind, ret, logger_Debug, logger_Error.
  rewrite (index_owned repos h0 i x acc w Hwf Hx Hown).
  step T.
  destruct (IsArchived x) eqn:Harch.
  { step T. cbn [fst snd]. rewrite (tr_force _ _ _ _ _ T), (tr_heap _ _ _ _ _ T),
      (tr_remote _ _ _ _ _ T), (tr_events _ _ _ _ _ T), app_nil_r. auto. }
  step T.
  destruct (GetLastActivity_run (Owner x) (Name x) w1) as (Er & evs & Tg & Shape).
  rewrite (tr_force _ _ _ _ _ T) in Er, Tg, Shape.
  rewrite (tr_remote _ _ _ _ _ T) in Er, Tg.
  apply (tracks_trans _ _ _ _ _ _ _ _ _ T) in Tg. clear T. rename Tg into T.
  cbn [app] in T.
  set (la := lookup_activity (FORCE_PROCESSING w) (remote w) (Owner x) (Name x)) in *.
  clearbody la. destruct la as [[t e] h'].
  name_result (GetLastActivity (Owner x) (Name x) w1). subst a1.
  step T. case_fatal F.
  { step T. cbn [fst snd]. destruct Shape as (Ff & eg & ->).
    rewrite (tr_force _ _ _ _ _ T), (tr_heap _ _ _ _ _ T),
      (tr_remote _ _ _ _ _ T), (tr_events _ _ _ _ _ T).
    split; [reflexivity|]. eexists. split; [|split; [reflexivity|]].
    - exists eg. by left.
    - repeat split; eauto. }
  destruct Shape as (eg & ei & ->).
  assert (HI : inactive cutoff [set_LastActivity t x] =
               if Time_Before t cutoff then [set_LastActivity t x] else []).
  { unfold inactive. cbn. by destruct (Time_Before t cutoff). }
  rewrite HI. clear HI.
  destruct (Time_Before t cutoff).
  - step T.
    assert (Hown' : owned h0 (heap w4) acc) by (by rewrite (tr_heap _ _ _ _ _ T)).
    destruct (append_owned h0 acc (set_LastActivity t x) w4 Hown')
      as (Ho & Hel & Af & _ & _ & Ar & Ae & _).
    rewrite (tr_heap _ _ _ _ _ T) in Hel.
    name_result (append acc (set_LastActivity t x) w4).
    pose proof (tracks_refl w5) as T2. step T2. cbn [fst snd].
    rewrite (tr_force _ _ _ _ _ T2), (tr_heap _ _ _ _ _ T2),
      (tr_remote _ _ _ _ _ T2), (tr_events _ _ _ _ _ T2), Af, Ar, Ae.
    rewrite (tr_force _ _ _ _ _ T), (tr_remote _ _ _ _ _ T), (tr_events _ _ _ _ _ T).
    split; [reflexivity|]. eexists. split; [|split; [by rewrite <- app_assoc|]].
    + exists eg. right. exists ei. reflexivity.
    + split; [reflexivity|]. eauto.
  - do 2 step T. cbn [fst snd].
    rewrite (tr_force _ _ _ _ _ T), (tr_heap _ _ _ _ _ T),
      (tr_remote _ _ _ _ _ T), (tr_events _ _ _ _ _ T).
    split; [reflexivity|]. eexists. split; [|split; [reflexivity|]].
    + exists eg. right. exists ei. reflexivity.
    + split; [reflexivity|]. exists acc. rewrite app_nil_r.
      repeat split; try assumption; apply Hown.
Qed.

Lemma inactive_cons cutoff y l : inactive cutoff (y :: l) = inactive cutoff [y] ++ inactive cutoff l.
Proof. unfold inactive. cbn. by destruct (Time_Before (LastActivity y) cutoff). Qed.

Lemma live_cons x l : live (x :: l) = if IsArchived x then live l else x :: live l.
Proof. unfold live. cbn. by destruct (IsArchived x). Qed.

Lemma classified_cons force cutoff x l (h : Host) :
  classified force cutoff (x :: l) h =
  if IsArchived x then classified force cutoff l h
  else inactive cutoff
         [set_LastActivity (fst (fst (lookup_activity force h (Owner x) (Name x)))) x]
       ++ classified force cutoff l (snd (lookup_activity force h (Owner x) (Name x))).
Proof.
  unfold classified. rewrite live_cons. destruct (IsArchived x); [reflexivity|].
  cbn [lastActivities zip_with]. by rewrite inactive_cons.
Qed.

Lemma range_loop_S repos now cutoff n i acc (w : World Host) :
  range_loop repos now cutoff (S n) i acc w =
  let '(c, w1) := range_body repos now cutoff i acc w in
  match c with
  | Next acc' => range_loop repos now cutoff n (S i) acc' w1
  | Return r => (Return r, w1)
  end.
Proof.
  cbn [range_loop]. unfold bind, ret.
  by destruct (range_body repos now cutoff i acc w) as [[?|?] ?].
Qed.

Lemma range_loop_spec repos now cutoff h0 :
  slice_wf h0 repos ->
  forall n i acc (w : World Host),
    (i + n)%nat = s_len repos ->
    owned h0 (heap w) acc ->
    let r := range_loop repos now cutoff n i acc w in
    let rest := drop i (slice_elems h0 repos) in
    FORCE_PROCESSING (snd r) = FORCE_PROCESSING w /\
    (exists k groups,
       Forall2 lookup_group (take k (live rest)) groups /\
       events (snd r) = events w ++ concat groups) /\
    match fst r with
    | Next acc' =>
        owned h0 (heap (snd r)) acc' /\
        slice_elems (heap (snd r)) acc' =
          slice_elems (heap w) acc ++ classified (FORCE_PROCESSING w) cutoff rest (remote w)
    | Return (s, e) =>
        s = nilSlice /\ e <> None /\ FORCE_PROCESSING w = false /\
        exists ext, heap (snd r) = h0 ++ ext
    end.
Proof.
  intros Hwf. induction n as [|n IH]; intros i acc w Hn Hown; cbn zeta.
  - cbn. rewrite drop_ge by (rewrite slice_elems_length by assumption; lia).
    split; [reflexivity|]. split.
    + exists 0%nat, []. split; [constructor|]. by rewrite app_nil_r.
    + split; [assumption|]. by rewrite app_nil_r.
  - assert (Hi : (i < length (slice_elems h0 repos))%nat)
      by (rewrite slice_elems_length by assumption; lia).
    destruct (lookup_lt_is_Some_2 _ _ Hi) as [x Hx].
    rewrite (drop_S _ _ _ Hx), range_loop_S, live_cons, classified_cons.
    pose proof (range_body_spec repos now cutoff h0 i x acc w Hwf Hx Hown) as B.
    cbn zeta in B.
    name_result (range_body repos now cutoff i acc w).
    destruct B as (Bf & B).
    destruct (IsArchived x).
    + destruct B as (-> & Be & Br & Bh).
      assert (Hown' : owned h0 (heap w0) acc) by (by rewrite Bh).
      specialize (IH (S i) acc w0 ltac:(lia) Hown'). cbn zeta in IH.
      rewrite Bf, Be, Br, Bh in IH. exact IH.
    + destruct B as (g & Bg & Be & Br & B).
      set (la := lookup_activity (FORCE_PROCESSING w) (remote w) (Owner x) (Name x)) in *.
      destruct (fatal (FORCE_PROCESSING w) la.1.2).
      * destruct B as (Ff & Bh & e & ->). cbn [fst snd].
        split; [assumption|]. split.
        { exists 1%nat, [g]. cbn. rewrite take_0, app_nil_r. split; [|assumption].
          by repeat constructor. }
        split; [reflexivity|]. split; [discriminate|]. split; [assumption|].
        rewrite Bh. apply Hown.
      * destruct B as (acc' & -> & Bo & Bel).
        specialize (IH (S i) acc' w0 ltac:(lia) Bo). cbn zeta in IH.
        rewrite Bf, Be, Br in IH. destruct IH as (IHf & (k & groups & IHg & IHe) & IH).
        split; [assumption|]. split.
        { exists (S k), (g :: groups). cbn. split; [by constructor|].
          by rewrite IHe, <- app_assoc. }
        destruct (fst (range_loop repos now cutoff n (S i) acc' w0)) as [acc''|[s e]].
        -- destruct IH as (IHo & IHel). split; [assumption|].
           by rewrite IHel, Bel, <- app_assoc.
        -- assumption.
Qed.

Lemma FindInactiveRepositories_spec (a : Analyzer) repos (w : World Host) :
  slice_wf (heap w) repos ->
  let r := FindInactiveRepositories a repos w in
  let xs := slice_elems (heap w) repos in
  FORCE_PROCESSING (snd r) = FORCE_PROCESSING w /\
  (exists k groups,
     Forall2 lookup_group (take k (live xs)) groups /\
     new_events w (snd r) = concat groups) /\
  (exists ext, heap (snd r) = heap w ++ ext) /\
  match snd (fst r) with
  | None =>
      owned (heap w) (heap (snd r)) (fst (fst r)) /\
      slice_elems (heap (snd r)) (fst (fst r)) =
        classified (FORCE_PROCESSING w) (cutoffDate a (clock w)) xs (remote w)
  | Some _ => fst (fst r) = nilSlice /\ FORCE_PROCESSING w = false
  end.
Proof.
  intros Hwf. cbn zeta.
  pose proof (tracks_refl w) as T.
  unfold FindInactiveRepositories, bind, ret, time_Now, logger_Debug, logger_Info.
  do 2 step T.
  assert (Hown : owned (heap w) (heap w1) nilSlice).
  { rewrite (tr_heap _ _ _ _ _ T). apply owned_nil. }
  pose proof (range_loop_spec repos (clock w) (cutoffDate a (clock w)) (heap w) Hwf
                (s_len repos) 0%nat nilSlice w1 eq_refl Hown) as R.
  cbn zeta in R. rewrite drop_0 in R.
  rewrite (tr_force _ _ _ _ _ T), (tr_remote _ _ _ _ _ T), (tr_events _ _ _ _ _ T),
    app_nil_r in R.
  fold (cutoffDate a (clock w)).
  name_result (range_loop repos (clock w) (cutoffDate a (clock w)) (s_len repos) 0 nilSlice w1).
  destruct R as (Rf & (k & groups & Rg & Re) & R).
  destruct a2 as [acc|[s e]].
  - destruct R as (Ro & Rel).
    pose proof (tracks_refl w2) as T2. step T2. cbn [fst snd].
    rewrite (tr_force _ _ _ _ _ T2), (tr_heap _ _ _ _ _ T2). unfold new_events.
    rewrite (tr_events _ _ _ _ _ T2), app_nil_r, Re, drop_app_length.
    split; [assumption|]. split; [eauto|]. split; [apply Ro|]. split; [assumption|].
    rewrite Rel. unfold slice_elems at 1. reflexivity.
  - destruct R as (-> & Rn & Rff & Rh). cbn [fst snd]. unfold new_events.
    rewrite Re, drop_app_length.
    split; [assumption|]. split; [eauto|]. split; [assumption|].
    destruct e; [auto|contradiction].
Qed.

Lemma later_of_max g issues ei :
  later_of g issues ei =
  match ei, issues with
  | None, issue0 :: _ => Z.max (GetPushedAt g) (Issue_GetUpdatedAt issue0)
  | _, _ => GetPushedAt g
  end.
Proof.
  unfold later_of, Time_After. destruct ei, issues as [|i0 issues]; try reflexivity.
  destruct (Z.ltb_spec (GetPushedAt g) (Issue_GetUpdatedAt i0)); lia.
Qed.

Lemma neg64_opp (d : Duration) : int64_min < d <= int64_max -> neg64 d = - d.
Proof.
  unfold neg64, wrap64, int64_min, int64_max. intros Hd.
  rewrite Z.mod_small; lia.
Qed.

Lemma live_not_archived rs : Forall (fun x => IsArchived x = false) (live rs).
Proof.
  unfold live. apply Forall_forall. intros x Hx. apply list_elem_of_In in Hx.
  apply filter_In in Hx as [_ Hx]. by destruct (IsArchived x).
Qed.

Lemma live_sublist rs : live rs `sublist_of` rs.
Proof.
  induction rs as [|x rs IH]; [constructor|].
  rewrite live_cons. destruct (IsArchived x); by constructor.
Qed.

Lemma classified_not_archived force cutoff rs (h : Host) :
  Forall (fun x => IsArchived x = false) (classified force cutoff rs h).
Proof.
  unfold classified, inactive.
  pose proof (live_not_archived rs) as Hl.
  generalize (lastActivities force (live rs) h). revert Hl.
  generalize (live rs). intros l Hl. induction Hl as [|x l Hx Hl IH]; intros [|t ts]; cbn;
    try constructor.
  destruct (Time_Before t cutoff); [constructor; [assumption|]|]; apply IH.
Qed.

(** ** the inactivity classifier *)

(** C7. When the read of the repository succeeds, [GetLastActivity] returns,
    without error, the later of the push timestamp and the update timestamp
    of the first issue of the listing (asked for sorted by update, most
    recent first); when the listing fails, under either value of the force
    flag, or is empty, it returns the push timestamp alone. *)
Theorem GetLastActivity_later_of owner repo (w : World Host) g h1 issues ei h2 :
  Repositories_Get owner repo (remote w) = ((g, None), h1) ->
  Issues_ListByRepo owner repo (mkIssueOpts "updated" "desc" 1) h1 = ((issues, ei), h2) ->
  fst (GetLastActivity owner repo w) =
    (match ei, issues with
     | None, issue0 :: _ => Z.max (GetPushedAt g) (Issue_GetUpdatedAt issue0)
     | _, _ => GetPushedAt g
     end, None).
Proof.
  intros Hget Hiss.
  destruct (GetLastActivity_spec owner repo w) as (evs & h' & _ & O).
  unfold activity_outcome in O. rewrite Hget, fatal_None in O.
  unfold issueOpts in O. rewrite Hiss in O. destruct O as (-> & _).
  by rewrite later_of_max.
Qed.

(** C3. No archived repository is in the output of
    [FindInactiveRepositories], whatever its last activity, and no lookup is
    made for one: the events of the call are groups of requests, one group
    for each of the repositories [looked], which are input repositories in
    input order, none of them archived. *)
Theorem archived_never_reported (a : Analyzer) repos (w : World Host) :
  slice_wf (heap w) repos ->
  let r := FindInactiveRepositories a repos w in
  Forall (fun x => IsArchived x = false) (slice_elems (heap (snd r)) (fst (fst r))) /\
  exists looked groups,
    looked `sublist_of` slice_elems (heap w) repos /\
    Forall (fun x => IsArchived x = false) looked /\
    Forall2 lookup_group looked groups /\
    new_events w (snd r) = concat groups.
Proof.
  intros Hwf. cbn zeta.
  destruct (FindInactiveRepositories_spec a repos w Hwf)
    as (_ & (k & groups & Hg & He) & _ & R).
  split.
  - destruct (snd (fst (FindInactiveRepositories a repos w))).
    + destruct R as (-> & _). constructor.
    + destruct R as (_ & ->). apply classified_not_archived.
  - exists (take k (live (slice_elems (heap w) repos))), groups.
    split; [|split; [|split]]; try assumption.
    + etrans; [apply sublist_take|apply live_sublist].
    + apply Forall_take, live_not_archived.
Qed.

(** C9. [FindInactiveRepositories] does not write to its input: the heap
    after the call is the heap before, with new arrays behind it; the input
    slice reads as before; and the array of the output slice is one of the
    new ones. *)
Theorem FindInactiveRepositories_leaves_input (a : Analyzer) repos (w : World Host) :
  slice_wf (heap w) repos ->
  let r := FindInactiveRepositories a repos w in
  (exists ext, heap (snd r) = heap w ++ ext) /\
  slice_elems (heap (snd r)) repos = slice_elems (heap w) repos /\
  forall arr, s_arr (fst (fst r)) = Some arr -> (length (heap w) <= arr)%nat.
Proof.
  intros Hwf. cbn zeta.
  destruct (FindInactiveRepositories_spec a repos w Hwf) as (_ & _ & (ext & Hx) & R).
  split; [eauto|]. split.
  - rewrite Hx. by apply slice_wf_elems_extend.
  - destruct (snd (fst (FindInactiveRepositories a repos w))).
    + destruct R as (-> & _). discriminate.
    + destruct R as ((_ & _ & Ho) & _). exact Ho.
Qed.

(** C10 (as amended). With the force flag set, [FindInactiveRepositories]
    never returns an error, and its output is the classification by the
    timestamps [GetLastActivity] returns.  For a repository whose read
    failed (a nil repository with the error), that timestamp is the zero
    time when the listing of the issues fails or is empty, and otherwise the
    later of the zero time and the update timestamp of the first issue. *)
Theorem force_never_fails (a : Analyzer) repos (w : World Host) :
  FORCE_PROCESSING w = true ->
  slice_wf (heap w) repos ->
  let r := FindInactiveRepositories a repos w in
  snd (fst r) = None /\
  slice_elems (heap (snd r)) (fst (fst r)) =
    inactive (cutoffDate a (clock w))
      (zip_with set_LastActivity
         (lastActivities true (live (slice_elems (heap w) repos)) (remote w))
         (live (slice_elems (heap w) repos))) /\
  forall owner repo h eg h1 issues ei h2,
    Repositories_Get owner repo h = ((None, Some eg), h1) ->
    Issues_ListByRepo owner repo (mkIssueOpts "updated" "desc" 1) h1 = ((issues, ei), h2) ->
    fst (lookup_activity true h owner repo) =
      (match ei, issues with
       | None, issue0 :: _ => Z.max zeroTime (Issue_GetUpdatedAt issue0)
       | _, _ => zeroTime
       end, None).
Proof.
  intros F Hwf. cbn zeta.
  destruct (FindInactiveRepositories_spec a repos w Hwf) as (_ & _ & _ & R).
  rewrite F in R.
  destruct (snd (fst (FindInactiveRepositories a repos w))).
  { destruct R as (_ & R). discriminate. }
  destruct R as (_ & ->). split; [reflexivity|]. split; [reflexivity|].
  intros owner repo h eg h1 issues ei h2 Hget Hiss. unfold lookup_activity. cbn [fst].
  destruct (GetLastActivity_spec owner repo (bare true h)) as (evs & h' & _ & O).
  cbn [bare FORCE_PROCESSING remote] in O.
  unfold activity_outcome in O. rewrite Hget in O. cbn [fatal negb andb] in O.
  unfold issueOpts in O. rewrite Hiss in O. destruct O as (-> & _).
  by rewrite later_of_max.
Qed.

(** ** more on the archive transaction *)

(** The shapes the outcomes of the four steps can take. *)
Lemma ns_outcome_shape ns (h : Host) e evs h' :
  ns_outcome ns h e evs h' ->
  (e = None /\
   (evs = [Requested (OrganizationsGet ns) None] \/
    exists e0, evs = [Requested (OrganizationsGet ns) (Some e0);
                      Requested (UsersGet ns) None])) \/
  (e = Some (namespace_missing ns) /\
   exists e0 e1, evs = [Requested (OrganizationsGet ns) (Some e0);
                        Requested (UsersGet ns) (Some e1)]).
Proof.
  unfold ns_outcome.
  destruct (Organizations_Get ns h) as [[e0|] k];
    [destruct (Users_Get ns k) as [[e1|] k']|];
    intros (-> & _ & ->); eauto 8.
Qed.

Lemma fork_outcome_shape force owner repo ns (h : Host) e evs h' :
  fork_outcome force owner repo ns h e evs h' ->
  (e = None /\ evs = [Requested (RepositoriesGet ns repo) None]) \/
  exists ep ef,
    e = (if fatal force ef then Some (Wrapf "failed to fork repository: %w" [] ef)
         else None) /\
    evs = [Requested (RepositoriesGet ns repo) (Some ep);
           Requested (RepositoriesCreateFork owner repo (mkForkOpts ns)) ef].
Proof.
  unfold fork_outcome.
  destruct (Repositories_Get ns repo h) as [[g [ep|]] k].
  - destruct (Repositories_CreateFork owner repo (mkForkOpts ns) k) as [ef k'].
    intros (-> & _ & ->). eauto 8.
  - intros (-> & _ & ->). auto.
Qed.

Lemma delete_outcome_shape force owner repo (h : Host) e evs h' L :
  delete_outcome force owner repo h e evs h' L ->
  exists ed,
    e = (if fatal force ed then Some (Wrapf "failed to delete repository: %w" [] ed)
         else None) /\
    evs = [Requested (RepositoriesDelete owner repo) ed].
Proof.
  unfold delete_outcome. destruct (Repositories_Delete owner repo h) as [ed k].
  intros (-> & _ & -> & _). eauto.
Qed.

Lemma status_outcome_shape force owner repo archived (h : Host) e evs h' :
  status_outcome force owner repo archived h e evs h' ->
  exists eg,
    (fatal force eg = true /\
     e = Some (Wrapf "failed to get repository info: %w" [] eg) /\
     evs = [Requested (RepositoriesGet owner repo) eg]) \/
    (fatal force eg = false /\
     e = Some (Errorf "repository object is nil" []) /\
     fst (fst (Repositories_Get owner repo h)) = None /\
     evs = [Requested (RepositoriesGet owner repo) eg]) \/
    (fatal force eg = false /\
     exists g ee,
       fst (fst (Repositories_Get owner repo h)) = Some g /\
       e = (if fatal force ee then Some (Wrapf "failed to update archive status: %w" [] ee)
            else None) /\
       evs = [Requested (RepositoriesGet owner repo) eg;
              Requested (RepositoriesEdit owner repo (set_Archived archived g)) ee]).
Proof.
  unfold status_outcome.
  destruct (Repositories_Get owner repo h) as [[g eg] k]. cbn [fst].
  destruct (fatal force eg) eqn:F.
  - intros (-> & _ & ->). exists eg. left. auto.
  - destruct g as [g|].
    + destruct (Repositories_Edit owner repo (set_Archived archived g) k) as [ee k'].
      intros (-> & _ & ->). exists eg. right. right. split; [assumption|]. eauto.
    + intros (-> & _ & ->). exists eg. right. left. auto.
Qed.

(** X1. With the force flag set, [ArchiveRepository] returns nil whatever
    the hosting service answers, and it always gets to the deletion: after
    the five-second wait the request to delete [owner/repo] is sent, once,
    even when the namespace verification or the fork has failed. *)
Theorem force_always_deletes owner ns repo (w : World Host) :
  FORCE_PROCESSING w = true ->
  let r := ArchiveRepository owner ns repo w in
  fst r = None /\
  exists before ed rest,
    new_events w (snd r) =
      before ++ Slept (5 * Second) :: Requested (RepositoriesDelete owner repo) ed :: rest /\
    Forall (fun ev => ~ is_delete_request ev) before /\
    Forall (fun ev => ~ is_delete_request ev) rest.
Proof.
  intros F. cbn zeta.
  destruct (ArchiveRepository_spec owner ns repo w) as (evs & h' & L & T & O).
  rewrite (tracks_new_events _ _ _ _ _ T). clear T.
  name_result (ArchiveRepository owner ns repo w).
  rewrite F in O. unfold archive_outcome in O. cbn [fatal negb andb] in O.
  destruct O as (x1 & evs1 & k1 & O1 & x2 & evs2 & k2 & O2 & x3 & evs3 & k3 & L3 & O3
                & x4 & evs4 & k4 & O4 & -> & -> & _).
  split; [reflexivity|].
  apply delete_outcome_shape in O3 as (ed & _ & ->).
  exists (evs1 ++ evs2), ed, evs4.
  split; [by rewrite <- !app_assoc|]. split.
  - apply Forall_app. split.
    + apply ns_outcome_shape in O1
        as [(_ & [->|(e0 & ->)])|(_ & e0 & e1 & ->)];
        repeat constructor; intros (? & ? & ? & ?); discriminate.
    + apply fork_outcome_shape in O2 as [(_ & ->)|(ep & ef & _ & ->)];
        repeat constructor; intros (? & ? & ? & ?); discriminate.
  - apply status_outcome_shape in O4
      as (eg & [(_ & _ & ->)|[(_ & _ & _ & ->)|(_ & g & ee & _ & _ & ->)]]);
      repeat constructor; intros (? & ? & ? & ?); discriminate.
Qed.

(** X2. Without the force flag, the original is deleted only behind a fork:
    when the request to delete [owner/repo] is sent, the events before it
    are a namespace verification that succeeded, then either an existence
    check that found [ns/repo] or a fork request that succeeded, then the
    five-second wait. *)
Theorem delete_only_behind_fork owner ns repo (w : World Host) before ed rest :
  FORCE_PROCESSING w = false ->
  new_events w (snd (ArchiveRepository owner ns repo w)) =
    before ++ Requested (RepositoriesDelete owner repo) ed :: rest ->
  exists checks forked,
    before = checks ++ forked ++ [Slept (5 * Second)] /\
    (checks = [Requested (OrganizationsGet ns) None] \/
     exists e0, checks = [Requested (OrganizationsGet ns) (Some e0);
                         Requested (UsersGet ns) None]) /\
    (forked = [Requested (RepositoriesGet ns repo) None] \/
     exists ep, forked = [Requested (RepositoriesGet ns repo) (Some ep);
                         Requested (RepositoriesCreateFork owner repo (mkForkOpts ns)) None]).
Proof.
  intros F.
  destruct (ArchiveRepository_spec owner ns repo w) as (evs & h' & L & T & O).
  rewrite (tracks_new_events _ _ _ _ _ T). clear T.
  name_result (ArchiveRepository owner ns repo w). intros E.
  rewrite F in O. destruct O as (x1 & evs1 & k1 & O1 & O).
  assert (Hin : Requested (RepositoriesDelete owner repo) ed ∈ evs).
  { rewrite E. apply list_elem_of_In, in_or_app. right. by left. }
  assert (Nd : forall l, Forall (fun ev => ~ is_delete_request ev) l ->
                         Requested (RepositoriesDelete owner repo) ed ∈ l -> False).
  { intros l Hl Hd. rewrite Forall_forall in Hl. apply (Hl _ Hd). do 3 eexists.
    reflexivity. }
  apply ns_outcome_shape in O1 as [(-> & Hc)|(-> & e0 & e1 & ->)].
  2:{ cbn in O. destruct O as (_ & -> & _). exfalso. eapply Nd; [|exact Hin].
      repeat constructor; intros (? & ? & ? & ?); discriminate. }
  assert (G1 : Forall (fun ev => ~ is_delete_request ev) evs1).
  { destruct Hc as [->|(e0 & ->)]; repeat constructor;
      intros (? & ? & ? & ?); discriminate. }
  cbn [fatal negb andb notnil] in O.
  destruct O as (x2 & evs2 & k2 & O2 & O).
  apply fork_outcome_shape in O2 as [(-> & ->)|(ep & ef & -> & ->)].
  - cbn [fatal negb andb notnil] in O.
    destruct O as (x3 & evs3 & k3 & L3 & O3 & O).
    apply delete_outcome_shape in O3 as (ed' & -> & ->).
    assert (exists tl, evs = (evs1 ++ [Requested (RepositoriesGet ns repo) None]
                                ++ [Slept (5 * Second)])
                             ++ Requested (RepositoriesDelete owner repo) ed' :: tl /\
                       Forall (fun ev => ~ is_delete_request ev) tl) as (tl & -> & Gt).
    { destruct (fatal false ed').
      - destruct O as (_ & -> & _). exists []. split; [by rewrite <- !app_assoc|constructor].
      - destruct O as (x4 & evs4 & k4 & O4 & _ & -> & _). exists evs4.
        split; [by rewrite <- !app_assoc|].
        apply status_outcome_shape in O4
          as (eg & [(_ & _ & ->)|[(_ & _ & _ & ->)|(_ & g & ee & _ & _ & ->)]]);
          repeat constructor; intros (? & ? & ? & ?); discriminate. }
    apply (only_outside (fun ev => ~ is_delete_request ev)) in E as (<- & _ & _).
    + exists evs1, [Requested (RepositoriesGet ns repo) None]. auto.
    + rewrite !Forall_app. repeat split; auto; repeat constructor;
        intros (? & ? & ? & ?); discriminate.
    + assumption.
    + intros Hn. apply Hn. do 3 eexists. reflexivity.
  - destruct ef as [ef|]; cbn [fatal negb andb notnil] in O.
    { destruct O as (_ & -> & _). exfalso. eapply Nd; [|exact Hin].
      apply Forall_app; split; [exact G1|];
        repeat constructor; intros (? & ? & ? & ?); discriminate. }
    destruct O as (x3 & evs3 & k3 & L3 & O3 & O).
    apply delete_outcome_shape in O3 as (ed' & -> & ->).
    assert (exists tl, evs = (evs1 ++ [Requested (RepositoriesGet ns repo) (Some ep);
                                       Requested (RepositoriesCreateFork owner repo
                                                    (mkForkOpts ns)) None]
                                ++ [Slept (5 * Second)])
                             ++ Requested (RepositoriesDelete owner repo) ed' :: tl /\
                       Forall (fun ev => ~ is_delete_request ev) tl) as (tl & -> & Gt).
    { destruct (fatal false ed').
      - destruct O as (_ & -> & _). exists []. split; [by rewrite <- !app_assoc|constructor].
      - destruct O as (x4 & evs4 & k4 & O4 & _ & -> & _). exists evs4.
        split; [by rewrite <- !app_assoc|].
        apply status_outcome_shape in O4
          as (eg & [(_ & _ & ->)|[(_ & _ & _ & ->)|(_ & g & ee & _ & _ & ->)]]);
          repeat constructor; intros (? & ? & ? & ?); discriminate. }
    apply (only_outside (fun ev => ~ is_delete_request ev)) in E as (<- & _ & _).
    + exists evs1, [Requested (RepositoriesGet ns repo) (Some ep);
                    Requested (RepositoriesCreateFork owner repo (mkForkOpts ns)) None].
      split; [reflexivity|]. split; [assumption|]. right. eauto.
    + rewrite !Forall_app. repeat split; auto; repeat constructor;
        intros (? & ? & ? & ?); discriminate.
    + assumption.
    + intros Hn. apply Hn. do 3 eexists. reflexivity.
Qed.

(** X3. Without the force flag a nil result can be trusted: when
    [ArchiveRepository] returns nil, its last three requests are the deletion
    of [owner/repo], the read of [ns/repo] and its edit with the archived
    flag set, and all three succeeded. *)
Theorem nil_means_archived owner ns repo (w : World Host) :
  FORCE_PROCESSING w = false ->
  fst (ArchiveRepository owner ns repo w) = None ->
  exists before g,
    new_events w (snd (ArchiveRepository owner ns repo w)) =
      before ++ [Requested (RepositoriesDelete owner repo) None;
                 Requested (RepositoriesGet ns repo) None;
                 Requested (RepositoriesEdit ns repo (set_Archived true g)) None].
Proof.
  intros F.
  destruct (ArchiveRepository_spec owner ns repo w) as (evs & h' & L & T & O).
  rewrite (tracks_new_events _ _ _ _ _ T). clear T.
  name_result (ArchiveRepository owner ns repo w). intros ->.
  rewrite F in O. destruct O as (x1 & evs1 & k1 & O1 & O).
  destruct (fatal false x1); [destruct O as (? & _); discriminate|].
  destruct O as (x2 & evs2 & k2 & O2 & O).
  destruct (fatal false x2); [destruct O as (? & _); discriminate|].
  destruct O as (x3 & evs3 & k3 & L3 & O3 & O).
  destruct (fatal false x3) eqn:F3; [destruct O as (? & _); discriminate|].
  destruct O as (x4 & evs4 & k4 & O4 & E4 & -> & _).
  apply delete_outcome_shape in O3 as (ed & -> & ->).
  destruct ed as [ed|]; [discriminate|].
  apply status_outcome_shape in O4
    as (eg & [(_ & -> & _)|[(_ & -> & _)|(Fg & g & ee & _ & -> & ->)]]);
    try discriminate.
  destruct eg as [eg|]; [discriminate|].
  destruct ee as [ee|]; [discriminate|].
  exists (evs1 ++ evs2 ++ [Slept (5 * Second)]), g.
  by rewrite <- !app_assoc.
Qed.

(** X4. Without the force flag [ArchiveRepository] stops at the step that
    fails: when it returns an error, that error wraps the error of the
    failing step under the name of the step, and the last event is the
    request that failed (or, for a read that brought no repository, that
    read): nothing is sent after it. *)
Theorem error_stops_at_step owner ns repo (w : World Host) e :
  FORCE_PROCESSING w = false ->
  fst (ArchiveRepository owner ns repo w) = Some e ->
  exists before last,
    new_events w (snd (ArchiveRepository owner ns repo w)) = before ++ [last] /\
    halted owner ns repo e last.
Proof.
  intros F.
  destruct (ArchiveRepository_spec owner ns repo w) as (evs & h' & L & T & O).
  rewrite (tracks_new_events _ _ _ _ _ T). clear T.
  name_result (ArchiveRepository owner ns repo w). intros ->.
  rewrite F in O. destruct O as (x1 & evs1 & k1 & O1 & O).
  apply ns_outcome_shape in O1 as [(-> & Hc)|(-> & e0 & e1 & ->)].
  2:{ cbn in O. destruct O as ([= ->] & -> & _).
      exists [Requested (OrganizationsGet ns) (Some e0)], (Requested (UsersGet ns) (Some e1)).
      split; [reflexivity|constructor]. }
  cbn [fatal negb andb notnil] in O.
  destruct O as (x2 & evs2 & k2 & O2 & O).
  assert (Hf : (x2 = None) \/
               exists ep ef, x2 = Some (Wrapf "failed to fork repository: %w" [] (Some ef)) /\
                 evs2 = [Requested (RepositoriesGet ns repo) (Some ep);
                         Requested (RepositoriesCreateFork owner repo (mkForkOpts ns))
                                   (Some ef)]).
  { apply fork_outcome_shape in O2 as [(-> & _)|(ep & [ef|] & -> & ->)]; cbn; eauto. }
  destruct Hf as [->|(ep & ef & -> & ->)].
  2:{ cbn in O. destruct O as ([= ->] & -> & _).
      exists (evs1 ++ [Requested (RepositoriesGet ns repo) (Some ep)]), 
             (Requested (RepositoriesCreateFork owner repo (mkForkOpts ns)) (Some ef)).
      split; [by rewrite <- app_assoc|constructor]. }
  cbn [fatal negb andb notnil] in O.
  destruct O as (x3 & evs3 & k3 & L3 & O3 & O).
  apply delete_outcome_shape in O3 as ([ed|] & -> & ->); cbn in O.
  { destruct O as ([= ->] & -> & _).
    exists (evs1 ++ evs2 ++ [Slept (5 * Second)]),
           (Requested (RepositoriesDelete owner repo) (Some ed)).
    split; [by rewrite <- !app_assoc|constructor]. }
  destruct O as (x4 & evs4 & k4 & O4 & E4 & -> & _).
  apply status_outcome_shape in O4
    as ([eg|] & [(Fg & -> & ->)|[(Fg & -> & _ & ->)|(Fg & g & [ee|] & _ & -> & ->)]]);
    try discriminate; cbn in E4; injection E4 as ->.
  - exists (evs1 ++ evs2 ++ [Slept (5 * Second); Requested (RepositoriesDelete owner repo) None]),
           (Requested (RepositoriesGet ns repo) (Some eg)).
    split; [by rewrite <- !app_assoc|constructor].
  - exists (evs1 ++ evs2 ++ [Slept (5 * Second); Requested (RepositoriesDelete owner repo) None]),
           (Requested (RepositoriesGet ns repo) None).
    split; [by rewrite <- !app_assoc|constructor].
  - exists (evs1 ++ evs2 ++ [Slept (5 * Second); Requested (RepositoriesDelete owner repo) None;
                             Requested (RepositoriesGet ns repo) None]),
           (Requested (RepositoriesEdit ns repo (set_Archived true g)) (Some ee)).
    split; [by rewrite <- !app_assoc|constructor].
Qed.

(** ** more on the client *)

(** X5. [CreateArchiveNamespace] only reads, and does so whatever the force
    flag: it asks for the organization, asks for the user only when that
    failed, returns nil as soon as one of them is found and the
    namespace-missing error when both reads failed.  It never creates
    anything. *)
Theorem CreateArchiveNamespace_reads_only ns (w : World Host) :
  let r := CreateArchiveNamespace ns w in
  (fst r = None /\
   (new_events w (snd r) = [Requested (OrganizationsGet ns) None] \/
    exists e0, new_events w (snd r) =
                 [Requested (OrganizationsGet ns) (Some e0);
                  Requested (UsersGet ns) None])) \/
  (fst r = Some (namespace_missing ns) /\
   exists e0 e1, new_events w (snd r) =
                   [Requested (OrganizationsGet ns) (Some e0);
                    Requested (UsersGet ns) (Some e1)]).
Proof.
  cbn zeta. destruct (CreateArchiveNamespace_spec ns w) as (evs & h' & T & O).
  rewrite (tracks_new_events _ _ _ _ _ T). by apply ns_outcome_shape in O.
Qed.

(** X6. With the force flag set the client hides failures from its callers:
    [ForkRepository], [DeleteRepository] and [GetLastActivity] return a nil
    error whatever the service answers, and [SetArchiveStatus] returns an
    error only when the read brought no repository. *)
Theorem force_silences_client owner repo target archived (w : World Host) :
  FORCE_PROCESSING w = true ->
  fst (ForkRepository owner repo target w) = None /\
  fst (DeleteRepository owner repo w) = None /\
  snd (fst (GetLastActivity owner repo w)) = None /\
  (fst (SetArchiveStatus owner repo archived w) = None \/
   fst (SetArchiveStatus owner repo archived w) = Some (Errorf "repository object is nil" [])).
Proof.
  intros F. repeat split.
  - destruct (ForkRepository_spec owner repo target w) as (evs & h' & _ & O).
    rewrite F in O. by apply fork_outcome_shape in O as [(-> & _)|(ep & ef & -> & _)].
  - destruct (DeleteRepository_spec owner repo w) as (evs & h' & L & _ & O).
    rewrite F in O. by apply delete_outcome_shape in O as (ed & -> & _).
  - destruct (GetLastActivity_spec owner repo w) as (evs & h' & _ & O).
    rewrite F in O. unfold activity_outcome in O. cbn [fatal negb andb] in O.
    destruct (Repositories_Get owner repo (remote w)) as [[g eg] k].
    destruct (Issues_ListByRepo owner repo issueOpts k) as [[iss ei] k'].
    by destruct O as (-> & _).
  - destruct (SetArchiveStatus_spec owner repo archived w) as (evs & h' & _ & O).
    rewrite F in O.
    apply status_outcome_shape in O
      as (eg & [(Fg & _)|[(_ & -> & _)|(_ & g & ee & _ & -> & _)]]); auto.
    discriminate.
Qed.

(** X7. Without the force flag a failed read of the repository ends
    [GetLastActivity] at once: it returns the zero time with the error
    wrapped, and the issues are not listed. *)
Theorem GetLastActivity_failed_read owner repo (w : World Host) g eg h1 :
  FORCE_PROCESSING w = false ->
  Repositories_Get owner repo (remote w) = ((g, Some eg), h1) ->
  let r := GetLastActivity owner repo w in
  fst r = (zeroTime, Some (Wrapf "failed to get repository info: %w" [] (Some eg))) /\
  new_events w (snd r) = [Requested (RepositoriesGet owner repo) (Some eg)] /\
  remote (snd r) = h1.
Proof.
  intros F Hget r. subst r.
  destruct (GetLastActivity_spec owner repo w) as (evs & h' & T & O).
  rewrite (tracks_new_events _ _ _ _ _ T), (tr_remote _ _ _ _ _ T).
  unfold activity_outcome in O. rewrite F, Hget in O.
  cbn [fatal negb andb notnil] in O. by destruct O as (-> & -> & ->).
Qed.

(** X8. [SetArchiveStatus] edits only what it has read: every edit request
    it sends carries the repository the read returned, with the [Archived]
    field set to the flag asked for; when the read returns no repository no
    edit is sent. *)
Theorem SetArchiveStatus_edits_what_it_read owner repo archived (w : World Host) c e :
  Requested c e ∈ new_events w (snd (SetArchiveStatus owner repo archived w)) ->
  c = RepositoriesGet owner repo \/
  exists g,
    fst (fst (Repositories_Get owner repo (remote w))) = Some g /\
    c = RepositoriesEdit owner repo (set_Archived archived g).
Proof.
  destruct (SetArchiveStatus_spec owner repo archived w) as (evs & h' & T & O).
  rewrite (tracks_new_events _ _ _ _ _ T).
  apply status_outcome_shape in O
    as (eg & [(_ & _ & ->)|[(_ & _ & _ & ->)|(_ & g & ee & Hg & _ & ->)]]);
    intros Hin; repeat (apply elem_of_cons in Hin as [Hin|Hin]);
    try (by apply elem_of_nil in Hin); injection Hin as -> _; eauto.
Qed.

(** ** more on the classifier *)

Lemma range_body_trace repos now cutoff h0 i x acc (w : World Host) :
  slice_wf h0 repos ->
  slice_elems h0 repos !! i = Some x ->
  owned h0 (heap w) acc ->
  IsArchived x = false ->
  let r := range_body repos now cutoff i acc w in
  (exists eg,
     FORCE_PROCESSING w = false /\
     fst r = Return (nilSlice, Some (activity_failure x eg)) /\
     events (snd r) = events w ++ [Requested (RepositoriesGet (Owner x) (Name x)) (Some eg)]) \/
  (exists acc' g,
     fst r = Next acc' /\ full_group (FORCE_PROCESSING w) x g /\
     events (snd r) = events w ++ g).
Proof.
  intros Hwf Hx Hown Harch. cbn zeta.
  pose proof (tracks_refl w) as T.
  unfold range_body, bind, ret, logger_Debug, logger_Error.
  rewrite (index_owned repos h0 i x acc w Hwf Hx Hown), Harch.
  do 2 step T.
  step_call (GetLastActivity_spec (Owner x) (Name x)) T Oa.
  cbn [app] in T. unfold activity_outcome in Oa.
  destruct (Repositories_Get (Owner x) (Name x) (remote w)) as [[g eg] k].
  destruct (fatal (FORCE_PROCESSING w) eg) eqn:Fg.
  - destruct Oa as (-> & -> & ->). step T.
    assert (Hf : FORCE_PROCESSING w = false /\ exists e, eg = Some e).
    { unfold fatal in Fg. destruct (FORCE_PROCESSING w), eg; try discriminate. eauto. }
    destruct Hf as (Ff & e & ->). rewrite Ff. cbn [fatal negb andb notnil].
    step T. cbn [fst snd]. left. exists e.
    rewrite (tr_events _ _ _ _ _ T). auto.
  - destruct (Issues_ListByRepo (Owner x) (Name x) issueOpts k) as [[iss ei] k'].
    destruct Oa as (-> & -> & ->). step T. rewrite fatal_None. right.
    destruct (Time_Before (later_of g iss ei) cutoff).
    + step T.
      assert (Hown' : owned h0 (heap w4) acc) by (by rewrite (tr_heap _ _ _ _ _ T)).
      destruct (append_owned h0 acc (set_LastActivity (later_of g iss ei) x) w4 Hown')
        as (_ & _ & _ & _ & _ & _ & Ae & _).
      name_result (append acc (set_LastActivity (later_of g iss ei) x) w4).
      pose proof (tracks_refl w5) as T2. step T2. cbn [fst snd].
      rewrite (tr_events _ _ _ _ _ T2), Ae, (tr_events _ _ _ _ _ T), <- app_assoc.
      eexists _, _. split; [reflexivity|]. split; [|reflexivity].
      exists eg, ei. split; [assumption|reflexivity].
    + do 2 step T. cbn [fst snd]. rewrite (tr_events _ _ _ _ _ T).
      eexists _, _. split; [reflexivity|]. split; [|reflexivity].
      exists eg, ei. split; [assumption|reflexivity].
Qed.

Lemma range_loop_trace repos now cutoff h0 :
  slice_wf h0 repos ->
  forall n i acc (w : World Host),
    (i + n)%nat = s_len repos ->
    owned h0 (heap w) acc ->
    let r := range_loop repos now cutoff n i acc w in
    let rest := live (drop i (slice_elems h0 repos)) in
    match fst r with
    | Next _ =>
        exists groups,
          Forall2 (full_group (FORCE_PROCESSING w)) rest groups /\
          events (snd r) = events w ++ concat groups
    | Return (_, e) =>
        FORCE_PROCESSING w = false /\
        exists done x todo eg groups,
          rest = done ++ x :: todo /\
          Forall2 (full_group false) done groups /\
          events (snd r) =
            events w ++ concat groups
            ++ [Requested (RepositoriesGet (Owner x) (Name x)) (Some eg)] /\
          e = Some (activity_failure x eg)
    end.
Proof.
  intros Hwf. induction n as [|n IH]; intros i acc w Hn Hown; cbn zeta.
  - cbn. rewrite drop_ge by (rewrite slice_elems_length by assumption; lia).
    exists []. split; [constructor|]. by rewrite app_nil_r.
  - assert (Hi : (i < length (slice_elems h0 repos))%nat)
      by (rewrite slice_elems_length by assumption; lia).
    destruct (lookup_lt_is_Some_2 _ _ Hi) as [x Hx].
    rewrite (drop_S _ _ _ Hx), range_loop_S, live_cons.
    pose proof (range_body_spec repos now cutoff h0 i x acc w Hwf Hx Hown) as B.
    pose proof (range_body_trace repos now cutoff h0 i x acc w Hwf Hx Hown) as Tr.
    cbn zeta in B, Tr.
    name_result (range_body repos now cutoff i acc w).
    destruct B as (Bf & B).
    destruct (IsArchived x).
    + destruct B as (-> & Be & Br & Bh).
      assert (Hown' : owned h0 (heap w0) acc) by (by rewrite Bh).
      specialize (IH (S i) acc w0 ltac:(lia) Hown'). cbn zeta in IH.
      rewrite Bf, Be in IH. exact IH.
    + destruct (Tr eq_refl) as [(eg & Ff & -> & Te)|(acc' & g & -> & Tg & Te)]; clear Tr.
      * cbn [fst snd]. split; [assumption|].
        exists [], x, (live (drop (S i) (slice_elems h0 repos))), eg, [].
        repeat split; [constructor|assumption].
      * destruct B as (g' & _ & _ & _ & B).
        assert (Bo : owned h0 (heap w0) acc').
        { destruct (fatal _ _).
          - destruct B as (_ & _ & e & [=]).
          - destruct B as (acc'' & [= <-] & Bo & _). exact Bo. }
        specialize (IH (S i) acc' w0 ltac:(lia) Bo). cbn zeta in IH.
        rewrite Bf, Te in IH.
        destruct (fst (range_loop repos now cutoff n (S i) acc' w0)) as [acc''|[s e]].
        -- destruct IH as (groups & IHg & IHe). exists (g :: groups).
           split; [by constructor|]. cbn. by rewrite IHe, <- app_assoc.
        -- destruct IH as (Ff & done & y & todo & eg & groups & E & IHg & IHe & ->).
           split; [assumption|].
           exists (x :: done), y, todo, eg, (g :: groups).
           rewrite Ff in Tg. repeat split.
           ++ by rewrite E.
           ++ by constructor.
           ++ cbn. by rewrite IHe, <- !app_assoc.
Qed.

Lemma range_loop_idle repos now cutoff h0 :
  slice_wf h0 repos ->
  forall n i acc (w : World Host),
    (i + n)%nat = s_len repos ->
    owned h0 (heap w) acc ->
    live (drop i (slice_elems h0 repos)) = [] ->
    let r := range_loop repos now cutoff n i acc w in
    fst r = Next acc /\ events (snd r) = events w /\ heap (snd r) = heap w.
Proof.
  intros Hwf. induction n as [|n IH]; intros i acc w Hn Hown Hl; cbn zeta.
  - auto.
  - assert (Hi : (i < length (slice_elems h0 repos))%nat)
      by (rewrite slice_elems_length by assumption; lia).
    destruct (lookup_lt_is_Some_2 _ _ Hi) as [x Hx].
    rewrite (drop_S _ _ _ Hx), live_cons in Hl. rewrite range_loop_S.
    pose proof (range_body_spec repos now cutoff h0 i x acc w Hwf Hx Hown) as B.
    cbn zeta in B. name_result (range_body repos now cutoff i acc w).
    destruct B as (_ & B). destruct (IsArchived x); [|discriminate].
    destruct B as (-> & Be & _ & Bh).
    assert (Hown' : owned h0 (heap w0) acc) by (by rewrite Bh).
    destruct (IH (S i) acc w0 ltac:(lia) Hown' Hl) as (-> & -> & ->). auto.
Qed.

Lemma FindInactiveRepositories_trace (a : Analyzer) repos (w : World Host) :
  slice_wf (heap w) repos ->
  let r := FindInactiveRepositories a repos w in
  let todo := live (slice_elems (heap w) repos) in
  match snd (fst r) with
  | None =>
      exists groups,
        Forall2 (full_group (FORCE_PROCESSING w)) todo groups /\
        new_events w (snd r) = concat groups
  | Some e =>
      exists done x rest eg groups,
        todo = done ++ x :: rest /\
        Forall2 (full_group false) done groups /\
        new_events w (snd r) =
          concat groups ++ [Requested (RepositoriesGet (Owner x) (Name x)) (Some eg)] /\
        e = activity_failure x eg
  end /\
  (todo = [] ->
   fst r = (nilSlice, None) /\ new_events w (snd r) = [] /\ heap (snd r) = heap w).
Proof.
  intros Hwf. cbn zeta.
  pose proof (tracks_refl w) as T.
  unfold FindInactiveRepositories, bind, ret, time_Now, logger_Debug, logger_Info.
  do 2 step T.
  assert (Hown : owned (heap w) (heap w1) nilSlice).
  { rewrite (tr_heap _ _ _ _ _ T). apply owned_nil. }
  pose proof (range_loop_trace repos (clock w) (cutoffDate a (clock w)) (heap w) Hwf
                (s_len repos) 0%nat nilSlice w1 eq_refl Hown) as R.
  pose proof (range_loop_idle repos (clock w) (cutoffDate a (clock w)) (heap w) Hwf
                (s_len repos) 0%nat nilSlice w1 eq_refl Hown) as I.
  cbn zeta in R, I. rewrite drop_0 in R, I.
  rewrite (tr_force _ _ _ _ _ T), (tr_events _ _ _ _ _ T), app_nil_r in R.
  rewrite (tr_events _ _ _ _ _ T), (tr_heap _ _ _ _ _ T), app_nil_r in I.
  fold (cutoffDate a (clock w)).
  name_result (range_loop repos (clock w) (cutoffDate a (clock w)) (s_len repos) 0 nilSlice w1).
  destruct a2 as [acc|[s e]].
  - pose proof (tracks_refl w2) as T2. step T2. cbn [fst snd].
    unfold new_events. rewrite (tr_events _ _ _ _ _ T2), (tr_heap _ _ _ _ _ T2), app_nil_r.
    split.
    + destruct R as (groups & Rg & ->). rewrite drop_app_length. eauto.
    + intros Hl. destruct (I Hl) as ([= ->] & -> & ->).
      by rewrite drop_all.
  - cbn [fst snd]. destruct R as (_ & done & x & rest & eg & groups & E & Rg & Re & ->).
    split.
    + exists done, x, rest, eg, groups. unfold new_events.
      rewrite Re, drop_app_length. auto.
    + intros Hl. destruct (I Hl) as ([=] & _).
Qed.

(** C4 (as amended). When [FindInactiveRepositories] succeeds, its output
    is, in input order, the input repositories that are not archived, each
    with the timestamp [GetLastActivity] returned for it as its
    [LastActivity], of which that timestamp is strictly before the cutoff.
    The cutoff is [now] plus the opposite of the threshold, taken in [int64]:
    it is [now - threshold] for every threshold but the least [int64], whose
    opposite is itself.  The timestamp is the authoritative one, the later of
    the last push and of the latest issue update, when the read of the
    repository succeeded.  Without the force flag every read of a call that
    succeeds has succeeded; the force flag lets a failed read pass, and the
    timestamp is then not the authoritative one. *)
Theorem FindInactiveRepositories_exact (a : Analyzer) repos (w : World Host) out w' :
  slice_wf (heap w) repos ->
  FindInactiveRepositories a repos w = ((out, None), w') ->
  let todo := List.filter (fun r => negb (IsArchived r)) (slice_elems (heap w) repos) in
  let cutoff := clock w + neg64 (inactivityPeriod a) in
  slice_elems (heap w') out =
    List.filter (fun r => LastActivity r <? cutoff)
      (zip_with set_LastActivity
         (lastActivities (FORCE_PROCESSING w) todo (remote w)) todo) /\
  (int64_min < inactivityPeriod a <= int64_max -> cutoff = clock w - inactivityPeriod a) /\
  (inactivityPeriod a = int64_min -> cutoff = clock w - 2 ^ 63) /\
  (forall force owner repo h g h1 issues ei h2,
     Repositories_Get owner repo h = ((g, None), h1) ->
     Issues_ListByRepo owner repo (mkIssueOpts "updated" "desc" 1) h1 = ((issues, ei), h2) ->
     lookup_activity force h owner repo =
       ((match ei, issues with
         | None, issue0 :: _ => Z.max (GetPushedAt g) (Issue_GetUpdatedAt issue0)
         | _, _ => GetPushedAt g
         end, None), h2)) /\
  (FORCE_PROCESSING w = false ->
   Forall (fun ev => forall owner repo e,
             ev = Requested (RepositoriesGet owner repo) e -> e = None)
          (new_events w w')).
Proof.
  intros Hwf E. cbn zeta. split; [|split; [|split; [|split]]].
  - destruct (FindInactiveRepositories_spec a repos w Hwf) as (_ & _ & _ & R).
    rewrite E in R. cbn [fst snd] in R. destruct R as (_ & ->). reflexivity.
  - intros Hd. rewrite (neg64_opp _ Hd). lia.
  - intros ->. reflexivity.
  - intros force owner repo h g h1 issues ei h2 Hget Hiss. unfold lookup_activity.
    destruct (GetLastActivity_spec owner repo (bare force h)) as (evs & h' & T & O).
    rewrite (tr_remote _ _ _ _ _ T). unfold activity_outcome in O. cbn [bare remote
      FORCE_PROCESSING] in O. rewrite Hget, fatal_None in O.
    unfold issueOpts in O. rewrite Hiss in O. destruct O as (-> & -> & _).
    by rewrite later_of_max.
  - intros HF. destruct (FindInactiveRepositories_trace a repos w Hwf) as (R & _).
    rewrite E in R. cbn [fst snd] in R. destruct R as (groups & Hgroups & ->).
    rewrite HF in Hgroups. clear E.
    induction Hgroups as [|x g xs gs Hg _ IH]; cbn [concat]; [constructor|].
    apply Forall_app. split; [|exact IH].
    destruct Hg as (eg & ei & Hfat & ->).
    repeat constructor; intros owner repo e He; try discriminate.
    injection He as _ _ <-. by destruct eg.
Qed.

(** X9. A call of [FindInactiveRepositories] that succeeds has sent, for
    each input repository that is not archived and in input order, the read
    of the repository, the listing of its issues and a pause of 100 ms, and
    nothing else: two requests and one pause for each. *)
Theorem FindInactiveRepositories_requests (a : Analyzer) repos (w : World Host) :
  slice_wf (heap w) repos ->
  snd (fst (FindInactiveRepositories a repos w)) = None ->
  exists groups,
    Forall2 (full_group (FORCE_PROCESSING w))
            (live (slice_elems (heap w) repos)) groups /\
    new_events w (snd (FindInactiveRepositories a repos w)) = concat groups.
Proof.
  intros Hwf E. destruct (FindInactiveRepositories_trace a repos w Hwf) as (R & _).
  by rewrite E in R.
Qed.

(** X10. A call of [FindInactiveRepositories] that fails returns the nil
    slice, and its error names the repository at which it stopped: the
    first input repository, archived ones apart, whose read failed.  The
    repositories before it were looked up in full, the failed read is the
    last event, and the repositories behind it were not looked up.  This
    happens only without the force flag. *)
Theorem FindInactiveRepositories_failure (a : Analyzer) repos (w : World Host) e :
  slice_wf (heap w) repos ->
  snd (fst (FindInactiveRepositories a repos w)) = Some e ->
  FORCE_PROCESSING w = false /\
  fst (fst (FindInactiveRepositories a repos w)) = nilSlice /\
  exists done x rest eg groups,
    live (slice_elems (heap w) repos) = done ++ x :: rest /\
    Forall2 (full_group false) done groups /\
    new_events w (snd (FindInactiveRepositories a repos w)) =
      concat groups ++ [Requested (RepositoriesGet (Owner x) (Name x)) (Some eg)] /\
    e = activity_failure x eg.
Proof.
  intros Hwf E. destruct (FindInactiveRepositories_trace a repos w Hwf) as (R & _).
  destruct (FindInactiveRepositories_spec a repos w Hwf) as (_ & _ & _ & S).
  rewrite E in R, S. destruct S as (-> & ->). auto.
Qed.

(** X11. With nothing to look up, an empty input or one whose repositories
    are all archived, [FindInactiveRepositories] returns the nil slice and
    no error, sends no request, does not pause and allocates nothing. *)
Theorem FindInactiveRepositories_idle (a : Analyzer) repos (w : World Host) :
  slice_wf (heap w) repos ->
  Forall (fun x => IsArchived x = true) (slice_elems (heap w) repos) ->
  let r := FindInactiveRepositories a repos w in
  fst r = (nilSlice, None) /\ new_events w (snd r) = [] /\ heap (snd r) = heap w.
Proof.
  intros Hwf Hall. destruct (FindInactiveRepositories_trace a repos w Hwf) as (_ & I).
  apply I. clear I. induction Hall as [|x l Hx _ IH]; [reflexivity|].
  by rewrite live_cons, Hx.
Qed.

(** ** the listing and the driver *)

Context `{lst : GitHubListing Host}.

(** *** confined computations *)

Lemma confined_ret {A} Q (a : A) : confined Q (ret a : M Host A).
Proof.
  intros w. cbn. repeat split; [exists [] | exists []]; by rewrite app_nil_r.
Qed.

Lemma confined_bind {A B} Q (m : M Host A) (k : A -> M Host B) :
  confined Q m -> (forall a, confined Q (k a)) -> confined Q (bind m k).
Proof.
  intros Hm Hk w. unfold bind. specialize (Hm w).
  destruct (m w) as [a w1]. cbn [fst snd] in Hm.
  destruct Hm as (F1 & L1 & (evs1 & E1 & Q1) & (ls1 & S1 & A1)).
  destruct (Hk a w1) as (F2 & L2 & (evs2 & E2 & Q2) & (ls2 & S2 & A2)).
  rewrite F2, L2, E2, S2, F1, L1, E1, S1. rewrite L1 in A2.
  repeat split.
  - exists (evs1 ++ evs2). by rewrite app_assoc, Forall_app.
  - exists (ls1 ++ ls2). by rewrite app_assoc, Forall_app.
Qed.

Lemma confined_weaken {A} (Q Q' : Event -> Prop) (m : M Host A) :
  (forall ev, Q ev -> Q' ev) -> confined Q m -> confined Q' m.
Proof.
  intros HQ Hm w. destruct (Hm w) as (F & L & (evs & E & Qe) & S).
  repeat split; try assumption. exists evs. split; [assumption|].
  eapply Forall_impl; eauto.
Qed.

Lemma confined_log Q level format args : confined (Host := Host) Q (logger_log level format args).
Proof.
  intros w. unfold logger_log, set_stdlog. cbn. repeat split.
  - exists []. by rewrite app_nil_r.
  - eexists. split; [reflexivity|].
    destruct (level_int level <? level_int (logLevel w)) eqn:E; [constructor|].
    repeat constructor. cbn. lia.
Qed.

Lemma confined_Printf Q format args : confined (Host := Host) Q (log_Printf format args).
Proof.
  intros w. unfold log_Printf, set_stdlog. cbn. repeat split.
  - exists []. by rewrite app_nil_r.
  - eexists. split; [reflexivity|]. by repeat constructor.
Qed.

Lemma confined_pure {A} Q (f : World Host -> A) : confined Q (fun w => (f w, w)).
Proof.
  intros w. cbn. repeat split; [exists [] | exists []]; by rewrite app_nil_r.
Qed.

Lemma confined_heap {A} Q (f : World Host -> A) (g : World Host -> list (list Repository)) :
  confined Q (fun w => (f w, set_heap (g w) w)).
Proof.
  intros w. cbn. repeat split; [exists [] | exists []]; by rewrite app_nil_r.
Qed.

Lemma confined_Sleep (Q : Event -> Prop) d : Q (Slept d) -> confined (Host := Host) Q (time_Sleep d).
Proof.
  intros HQ w. unfold time_Sleep. cbn. repeat split.
  - eexists. split; [reflexivity|]. by repeat constructor.
  - exists []. by rewrite app_nil_r.
Qed.

Lemma confined_request (Q : Event -> Prop) c (f : Host -> option error * Host) :
  (forall e, Q (Requested c e)) -> confined Q (request c f).
Proof.
  intros HQ w. unfold request. destruct (f (remote w)) as [e h]. cbn. repeat split.
  - eexists. split; [reflexivity|]. by repeat constructor.
  - exists []. by rewrite app_nil_r.
Qed.

Lemma confined_request_val {A} (Q : Event -> Prop) c (f : Host -> (A * option error) * Host) :
  (forall e, Q (Requested c e)) -> confined Q (request_val c f).
Proof.
  intros HQ w. unfold request_val. destruct (f (remote w)) as [[a e] h]. cbn. repeat split.
  - eexists. split; [reflexivity|]. by repeat constructor.
  - exists []. by rewrite app_nil_r.
Qed.

Lemma confined_index Q s i : confined (Host := Host) Q (index s i).
Proof. apply confined_pure. Qed.

Lemma confined_Now Q : confined (Host := Host) Q time_Now.
Proof. apply confined_pure. Qed.

Lemma confined_realloc Q s x : confined (Host := Host) Q (realloc s x).
Proof. apply confined_heap. Qed.

Lemma confined_append Q s x : confined (Host := Host) Q (append s x).
Proof.
  unfold append. destruct (s_arr s); [|apply confined_realloc].
  destruct (s_len s <? s_cap s)%nat; [|apply confined_realloc].
  apply (confined_heap Q (fun _ => _) (fun w => _)).
Qed.

Lemma confined_make Q n : confined (Host := Host) Q (make n).
Proof. apply (confined_heap Q (fun _ => _) (fun w => _)). Qed.

Lemma confined_ForceProcessing Q e : confined (Host := Host) Q (ForceProcessing e).
Proof.
  unfold ForceProcessing. apply confined_bind.
  - destruct (notnil e); [apply confined_Printf | apply confined_ret].
  - intros _ w.
    destruct (FORCE_PROCESSING w) eqn:F; cbn; rewrite ?F;
      (repeat split; [exists [] | exists []]; by rewrite app_nil_r).
Qed.

(** One step of a proof that a computation is confined. *)
Ltac confine_step :=
  first
    [ apply confined_ret | apply confined_log | apply confined_Printf
    | apply confined_index | apply confined_Now | apply confined_append
    | apply confined_make | apply confined_ForceProcessing
    | apply confined_Sleep; cbn; auto; fail
    | apply confined_request; intros; cbn; auto; fail
    | apply confined_request_val; intros; cbn; auto; fail
    | apply confined_bind; [|intros ?]
    | match goal with
      | |- confined _ (if ?b then _ else _) => destruct b
      | |- confined _ (match ?x with _ => _ end) => destruct x
      end ].

Ltac confine :=
  unfold logger_Debug, logger_Info, logger_Warn, logger_Error; cbv zeta;
  repeat confine_step.

Lemma confined_GetLastActivity owner repo :
  confined lookup_event (GetLastActivity owner repo).
Proof. unfold GetLastActivity. confine. Qed.

Lemma confined_CreateArchiveNamespace owner ns :
  confined (transaction_event owner ns) (CreateArchiveNamespace ns).
Proof. unfold CreateArchiveNamespace. confine. Qed.

Lemma confined_ForkRepository owner repo ns :
  confined (transaction_event owner ns) (ForkRepository owner repo ns).
Proof. unfold ForkRepository. confine. Qed.

Lemma confined_DeleteRepository owner repo ns :
  confined (transaction_event owner ns) (DeleteRepository owner repo).
Proof. unfold DeleteRepository. confine. Qed.

Lemma confined_SetArchiveStatus owner ns repo :
  confined (transaction_event owner ns) (SetArchiveStatus ns repo true).
Proof. unfold SetArchiveStatus. confine. Qed.

Lemma confined_ArchiveRepository owner ns repo :
  confined (transaction_event owner ns) (ArchiveRepository owner ns repo).
Proof.
  unfold ArchiveRepository.
  pose proof (confined_CreateArchiveNamespace owner ns).
  pose proof (confined_ForkRepository owner repo ns).
  pose proof (confined_DeleteRepository owner repo ns).
  pose proof (confined_SetArchiveStatus owner ns repo).
  unfold logger_Debug, logger_Info, logger_Warn, logger_Error; cbv zeta.
  repeat first [assumption | confine_step].
Qed.

Lemma confined_range_loop repos now cutoff n :
  forall i acc, confined lookup_event (range_loop repos now cutoff n i acc).
Proof.
  induction n as [|n IH]; intros i acc; cbn [range_loop]; [apply confined_ret|].
  apply confined_bind.
  - unfold range_body.
    pose proof (confined_GetLastActivity) as HG.
    unfold logger_Debug, logger_Info, logger_Warn, logger_Error; cbv zeta.
    repeat first [apply HG | confine_step].
  - intros [acc'|r]; [apply IH | apply confined_ret].
Qed.

Lemma confined_FindInactiveRepositories a repos :
  confined lookup_event (FindInactiveRepositories a repos).
Proof.
  unfold FindInactiveRepositories.
  pose proof (confined_range_loop repos) as HR.
  unfold logger_Debug, logger_Info, logger_Warn, logger_Error; cbv zeta.
  repeat first [apply HR | confine_step].
Qed.

(** *** confined computations of the process *)

Lemma pbind_pret {A B} (a : A) (k : A -> P Host B) (p : Process Host) :
  pbind (pret a) k p = k a p.
Proof. reflexivity. Qed.

Lemma pbind_lift {A B} (m : M Host A) (k : A -> P Host B) (p : Process Host) :
  pbind (lift m) k p =
    k (fst (m (world p))) (mkProcess (snd (m (world p))) (listings p) (usages p)).
Proof. unfold pbind, lift. by destruct (m (world p)). Qed.

Lemma pbind_exited {A B} (m : P Host A) (k : A -> P Host B) (p : Process Host) code :
  fst (m p) = Exited code -> pbind m k p = (Exited code, snd (m p)).
Proof. unfold pbind. destruct (m p) as [o p1]. cbn. by intros ->. Qed.

Lemma pbind_done {A B} (m : P Host A) (k : A -> P Host B) (p : Process Host) a :
  fst (m p) = Done a -> pbind m k p = k a (snd (m p)).
Proof. unfold pbind. destruct (m p) as [o p1]. cbn. by intros ->. Qed.

Lemma pconfined_stuck {A} Q (o : outcome A) :
  (forall code, o <> Exited code) -> pconfined Q (fun p : Process Host => (o, p)).
Proof.
  intros Ho p. cbn. split; [reflexivity|]. split; [reflexivity|].
  split; [exists []; by rewrite app_nil_r|]. split; [exists []; by rewrite app_nil_r|].
  intros code E. by apply Ho in E.
Qed.

Lemma pconfined_pret {A} Q (a : A) : pconfined Q (pret a : P Host A).
Proof.
  apply (pconfined_stuck Q (Done a)). discriminate.
Qed.

Lemma pconfined_lift {A} Q (m : M Host A) : confined Q m -> pconfined Q (lift m).
Proof.
  intros Hm p. unfold lift. specialize (Hm (world p)).
  destruct (m (world p)) as [a w1]. cbn in *.
  destruct Hm as (F & L & E & S). do 4 (split; [assumption|]). discriminate.
Qed.

Lemma pconfined_pbind {A B} Q (m : P Host A) (k : A -> P Host B) :
  pconfined Q m -> (forall a, pconfined Q (k a)) -> pconfined Q (pbind m k).
Proof.
  intros Hm Hk p. unfold pbind. specialize (Hm p).
  destruct (m p) as [o p1]. cbn [fst snd] in Hm.
  destruct Hm as (F1 & L1 & (evs1 & E1 & Q1) & (ls1 & S1 & A1) & X1).
  destruct o as [a|code| |]; cbn [fst snd].
  2: { split; [assumption|]; split; [assumption|].
       split; [by exists evs1|]; split; [by exists ls1|].
       intros c [= <-]. by apply X1. }
  2-3: split; [assumption|]; split; [assumption|];
    split; [by exists evs1|]; split; [by exists ls1|]; discriminate.
  destruct (Hk a p1) as (F2 & L2 & (evs2 & E2 & Q2) & (ls2 & S2 & A2) & X2).
  rewrite F2, L2, E2, S2, F1, L1, E1, S1. rewrite L1 in A2. rewrite F1 in X2.
  split; [reflexivity|]. split; [reflexivity|]. split; [|split; [|exact X2]].
  - exists (evs1 ++ evs2). by rewrite app_assoc, Forall_app.
  - exists (ls1 ++ ls2). by rewrite app_assoc, Forall_app.
Qed.

Lemma pconfined_list_request Q c (f : Host -> Page * Host) : pconfined Q (list_request c f).
Proof.
  intros p. unfold list_request. destruct (f (remote (world p))) as [[[repos resp] err] h].
  cbn. split; [reflexivity|]. split; [reflexivity|].
  split; [exists []; by rewrite app_nil_r|]. split; [exists []; by rewrite app_nil_r|].
  discriminate.
Qed.

Lemma pconfined_Fatal Q format args : pconfined (Host := Host) Q (logger_Fatal format args).
Proof.
  intros p. unfold logger_Fatal. rewrite pbind_lift. cbn [fst snd].
  destruct (FORCE_PROCESSING (world p)) eqn:F.
  - destruct (pconfined_lift Q _ (confined_log Q ErrorLevel format args)
                (mkProcess (world p) (listings p) (usages p))) as (F1 & L1 & E1 & S1 & X1).
    cbn [world] in *. rewrite F in *. auto.
  - rewrite pbind_lift. unfold os_Exit. cbn [fst snd world].
    destruct (confined_log Q FatalLevel format args (world p)) as (F1 & L1 & E1 & S1).
    rewrite F in F1. repeat split; try assumption. congruence.
Qed.

Ltac pconfine_step :=
  first
    [ apply pconfined_pret | apply pconfined_Fatal | apply pconfined_list_request
    | apply pconfined_stuck; discriminate
    | apply pconfined_lift;
      unfold logger_Debug, logger_Info, logger_Warn, logger_Error; cbv zeta;
      repeat first [assumption | confine_step]; fail
    | assumption
    | apply pconfined_pbind; [|intros ?]
    | match goal with
      | |- pconfined _ (if ?b then _ else _) => destruct b
      | |- pconfined _ (match ?x with _ => _ end) => destruct x
      end ].

Lemma confined_convert_loop Q allRepos :
  forall result, confined (Host := Host) Q (convert_loop allRepos result).
Proof.
  induction allRepos as [|repo rest IH]; intros result; cbn [convert_loop];
    [apply confined_ret|].
  destruct (repo ≫= gh_Name), (repo ≫= gh_OwnerLogin);
    unfold logger_Warn; repeat first [apply IH | confine_step].
Qed.

Lemma pconfined_page_loop Q fetching failed c (f : ListOptions -> Host -> Page * Host)
    target fuel :
  forall opts allRepos, pconfined Q (page_loop fetching failed c f target fuel opts allRepos).
Proof.
  induction fuel as [|fuel IH]; intros opts allRepos; cbn [page_loop].
  - apply pconfined_stuck. discriminate.
  - apply pconfined_pbind.
    + unfold page_body, nil_dereference. repeat pconfine_step.
    + intros [[o a]|s|x]; [apply IH | apply pconfined_pret | apply pconfined_pret].
Qed.

Lemma pconfined_ListRepositories Q fuel target org :
  pconfined Q (ListRepositories fuel target org).
Proof.
  unfold ListRepositories. cbv zeta.
  pose proof (confined_convert_loop Q) as HC.
  pose proof (pconfined_page_loop Q) as HP.
  apply pconfined_pbind; [repeat pconfine_step|]. intros _.
  apply pconfined_pbind; [destruct (negb org); apply HP|].
  intros [[o a]|[o a]|x]; [| |apply pconfined_pret].
  all: apply pconfined_lift; unfold logger_Debug, logger_Info;
    repeat first [apply HC | confine_step].
Qed.

Lemma confined_report_loop Q s n : forall i, confined (Host := Host) Q (report_loop s n i).
Proof.
  induction n as [|n IH]; intros i; cbn [report_loop]; [apply confined_ret|].
  unfold logger_Info. repeat first [apply IH | confine_step].
Qed.

Lemma confined_archive_loop target ns s n :
  forall i, confined (transaction_event target ns) (archive_loop target ns s n i).
Proof.
  induction n as [|n IH]; intros i; cbn [archive_loop]; [apply confined_ret|].
  apply confined_bind; [|intros _; apply IH].
  unfold archive_body. pose proof (confined_ArchiveRepository target ns) as HA.
  unfold logger_Info, logger_Error. repeat first [apply HA | confine_step].
Qed.

(** *** [main] *)

Lemma main_confined fuel (fl : Flags) (p : Process Host) :
  let r := main fuel (Parsed fl) p in
  (exists evs, events (world (snd r)) = events (world p) ++ evs /\
               Forall (run_event fl) evs) /\
  (exists ls, stdlog (world (snd r)) = stdlog (world p) ++ ls /\
              Forall (audible (main_level fl (logLevel (world p)))) ls) /\
  (forall code, fst r = Exited code ->
     code = 1 /\
     (flag_force fl = true -> flag_token fl = "" \/ flag_target fl = "")).
Proof.
  cbn zeta. unfold main. cbn [flag_Parse]. rewrite pbind_pret. cbn beta.
  match goal with
  | |- context [pbind (lift (logger_Debug "Initializing GitHub client" [])) ?k] =>
      set (rest := pbind (lift (logger_Debug "Initializing GitHub client" [])) k)
  end.
  assert (HR : pconfined (run_event fl) rest).
  { subst rest.
    pose proof (pconfined_ListRepositories (run_event fl) fuel (flag_target fl) (flag_org fl))
      as HL.
    assert (HF : forall a s, confined (run_event fl) (FindInactiveRepositories a s)).
    { intros a s. eapply confined_weaken; [|apply confined_FindInactiveRepositories].
      intros ev Hev. unfold run_event, main_event. destruct (flag_dryRun fl); auto. }
    pose proof (confined_report_loop (run_event fl)) as HRp.
    assert (HA : flag_dryRun fl = false ->
                 forall s n i, confined (run_event fl)
                   (archive_loop (flag_target fl) (String.append (flag_target fl) "-archive")
                                 s n i)).
    { intros Hd s n i. eapply confined_weaken; [|apply confined_archive_loop].
      intros ev Hev. unfold run_event, main_event. rewrite Hd. auto. }
    unfold NewClient. cbv zeta.
    repeat first
      [ apply HL
      | apply pconfined_lift; first [apply HF | apply HRp | apply HA; reflexivity]
      | match goal with
        | |- pconfined _ (if flag_dryRun fl then _ else _) =>
            destruct (flag_dryRun fl) eqn:Hd
        end
      | pconfine_step ]. }
  clearbody rest.
  rewrite pbind_lift. cbn [set_FORCE_PROCESSING fst snd]. rewrite pbind_lift.
  cbn [world listings usages fst].
  match goal with
  | |- context [mkProcess (snd ?t) _ _] => set (w1 := snd t)
  end.
  assert (H1 : FORCE_PROCESSING w1 = flag_force fl /\
               logLevel w1 = main_level fl (logLevel (world p)) /\
               events w1 = events (world p) /\
               exists ls, stdlog w1 = stdlog (world p) ++ ls /\
                          Forall (audible (main_level fl (logLevel (world p)))) ls).
  { subst w1. unfold main_level.
    destruct (flag_verbose fl); [|destruct (flag_quiet fl)]; cbn.
    - repeat split. eexists. split; [reflexivity|]. repeat constructor. cbn. lia.
    - repeat split. exists []. by rewrite app_nil_r.
    - repeat split. exists []. by rewrite app_nil_r. }
  clearbody w1. destruct H1 as (F1 & L1 & E1 & (ls1 & S1 & A1)).
  unfold pbind.
  destruct ((flag_token fl =? "")%string || (flag_target fl =? "")%string) eqn:Hc.
  - cbn. rewrite E1, S1. split; [|split].
    + exists []. by rewrite app_nil_r.
    + by exists ls1.
    + intros code [= <-]. split; [reflexivity|]. intros _.
      apply orb_true_iff in Hc as [Hc|Hc]; apply String.eqb_eq in Hc; auto.
  - cbn [pret]. set (p1 := mkProcess w1 (listings p) (usages p)).
    destruct (HR p1) as (F2 & L2 & (evs2 & E2 & Q2) & (ls2 & S2 & A2) & X2).
    cbn [world p1] in *. rewrite E2, S2, E1, S1. rewrite L1 in A2. split; [|split].
    + by exists evs2.
    + exists (ls1 ++ ls2). by rewrite app_assoc, Forall_app.
    + intros code Hx. apply X2 in Hx as [Hf ->]. split; [reflexivity|]. congruence.
Qed.

(** X12. In a dry run [main] changes nothing on the hosting service and
    does not even look for the archive namespace: whatever the service
    answers, the events it adds are reads of repositories, listings of their
    issues and pauses of 100 ms. *)
Theorem dry_run_only_looks_up fuel (fl : Flags) (p : Process Host) :
  flag_dryRun fl = true ->
  Forall lookup_event (new_events (world p) (world (snd (main fuel (Parsed fl) p)))).
Proof.
  intros Hd. destruct (main_confined fuel fl p) as ((evs & E & Q) & _).
  unfold new_events. rewrite E, drop_app_length.
  unfold run_event in Q. by rewrite Hd in Q.
Qed.

(** X13. [main] changes nothing outside the target and its archive
    namespace: every deletion it asks for is in the namespace [target], every
    fork is of a repository of [target] into [target-archive], every edit is
    in [target-archive] and sets the archived flag, and the only namespace it
    looks for is [target-archive]. *)
Theorem main_changes_only_target fuel (fl : Flags) (p : Process Host) c e :
  Requested c e ∈ new_events (world p) (world (snd (main fuel (Parsed fl) p))) ->
  let archive := String.append (flag_target fl) "-archive" in
  match c with
  | RepositoriesDelete o _ => o = flag_target fl
  | RepositoriesCreateFork o _ opts => o = flag_target fl /\ Organization opts = archive
  | RepositoriesEdit o _ body => o = archive /\ gh_Archived body = Some true
  | OrganizationsGet n => n = archive
  | UsersGet n => n = archive
  | RepositoriesGet _ _ => True
  | IssuesListByRepo _ _ _ => True
  end.
Proof.
  destruct (main_confined fuel fl p) as ((evs & E & Q) & _).
  unfold new_events. rewrite E, drop_app_length. intros Hin.
  rewrite Forall_forall in Q. apply Q in Hin.
  unfold run_event, main_event in Hin.
  destruct (flag_dryRun fl), c; cbn in *; intuition.
Qed.

(** X14. The exit codes of [main].  When [flag.Parse] ends the process
    the code is 0 for a help request and 2 for a command line it refuses.
    Once the flags are parsed [main] leaves through [os.Exit] with code 1
    only, and with the force flag it does so only to refuse the flags: with
    the token and the target given, a run with [-force] never exits on a
    failure. *)
Theorem main_exit_code fuel (cl : CommandLine) (p : Process Host) code :
  fst (main fuel cl p) = Exited code ->
  match cl with
  | ErrHelp => code = 0
  | ErrFlag => code = 2
  | Parsed fl =>
      code = 1 /\ (flag_force fl = true -> flag_token fl = "" \/ flag_target fl = "")
  end.
Proof.
  destruct cl as [fl| |].
  - intros Hx. by apply (main_confined fuel fl p).
  - cbn. by intros [= <-].
  - cbn. by intros [= <-].
Qed.

(** X15. With [-quiet] and without [-verbose], [main] writes no DEBUG and
    no INFO line, whatever happens: every line of the levelled logger is a
    warning or above. *)
Theorem quiet_main fuel (fl : Flags) (p : Process Host) level format args :
  flag_verbose fl = false -> flag_quiet fl = true ->
  Leveled level format args ∈ new_lines (world p) (world (snd (main fuel (Parsed fl) p))) ->
  level = WarnLevel \/ level = ErrorLevel \/ level = FatalLevel \/ level = SilentLevel.
Proof.
  intros Hv Hq. destruct (main_confined fuel fl p) as (_ & (ls & S & A) & _).
  unfold new_lines. rewrite S, drop_app_length. intros Hin.
  rewrite Forall_forall in A. apply A in Hin.
  unfold main_level in Hin. rewrite Hv, Hq in Hin. cbn in Hin.
  destruct level; cbn in Hin; auto; lia.
Qed.

(** X16. Without a token or without a target [main] prints the usage and
    exits with code 1 before it does anything else: no request is sent, for
    a listing or otherwise, and the remote state is as it was. *)
Theorem main_usage fuel (fl : Flags) (p : Process Host) :
  flag_token fl = "" \/ flag_target fl = "" ->
  let r := main fuel (Parsed fl) p in
  fst r = Exited 1 /\
  usages (snd r) = S (usages p) /\
  listings (snd r) = listings p /\
  events (world (snd r)) = events (world p) /\
  remote (world (snd r)) = remote (world p).
Proof.
  intros Hc. cbn zeta. unfold main. cbn [flag_Parse]. rewrite pbind_pret. cbn beta.
  match goal with
  | |- context [pbind (lift (logger_Debug "Initializing GitHub client" [])) ?k] =>
      generalize (pbind (lift (logger_Debug "Initializing GitHub client" [])) k)
  end.
  intros rest.
  rewrite pbind_lift. cbn [set_FORCE_PROCESSING fst snd]. rewrite pbind_lift.
  cbn [world listings usages fst]. unfold pbind.
  assert (Hb : (flag_token fl =? "")%string || (flag_target fl =? "")%string = true).
  { apply orb_true_iff. destruct Hc as [Hc|Hc]; [left|right]; by apply String.eqb_eq. }
  rewrite Hb.
  destruct (flag_verbose fl); [|destruct (flag_quiet fl)]; cbn; auto.
Qed.

(** *** the archiving loop *)

Lemma archive_body_spec target ns s i x (w : World Host) :
  slice_wf (heap w) s -> slice_elems (heap w) s !! i = Some x ->
  exists e evs h' L,
    tracks w evs h' L (snd (archive_body target ns s i w)) /\
    archive_outcome (FORCE_PROCESSING w) target ns (Name x) (remote w) e evs h' L.
Proof.
  intros Hwf Hx.
  pose proof (index_owned s (heap w) i x nilSlice w Hwf Hx (owned_nil _)) as Hi.
  pose proof (tracks_refl w) as T.
  unfold archive_body, bind, logger_Info, logger_Error. rewrite Hi.
  step T.
  step_call_lines (ArchiveRepository_spec target ns (Name x)) T Oa.
  step T. case_fatal Fa; step T; eauto 10.
Qed.

Lemma archive_loop_spec target ns s :
  forall n i (w : World Host),
    slice_wf (heap w) s -> (i + n)%nat = s_len s ->
    exists evs h',
      tracks w evs h' [] (snd (archive_loop target ns s n i w)) /\
      transactions (FORCE_PROCESSING w) target ns (drop i (slice_elems (heap w) s))
                   (remote w) evs h'.
Proof.
  induction n as [|n IH]; intros i w Hwf Hn.
  - cbn. rewrite drop_ge by (rewrite slice_elems_length by assumption; lia).
    exists [], (remote w). split; [apply tracks_refl | constructor].
  - assert (Hi : (i < length (slice_elems (heap w) s))%nat)
      by (rewrite slice_elems_length by assumption; lia).
    destruct (lookup_lt_is_Some_2 _ _ Hi) as [x Hx].
    rewrite (drop_S _ _ _ Hx). cbn [archive_loop]. unfold bind.
    destruct (archive_body_spec target ns s i x w Hwf Hx) as (e & evs & h1 & L & T & Oa).
    destruct (archive_body target ns s i w) as [[] w1]. cbn [snd] in T.
    assert (Hwf1 : slice_wf (heap w1) s) by (by rewrite (tr_heap _ _ _ _ _ T)).
    destruct (IH (S i) w1 Hwf1 ltac:(lia)) as (evs' & h2 & T' & Tr).
    rewrite (tr_heap _ _ _ _ _ T), (tr_force _ _ _ _ _ T), (tr_remote _ _ _ _ _ T) in Tr.
    exists (evs ++ evs'), h2. split.
    + pose proof (tracks_trans _ _ _ _ _ _ _ _ _ T T') as T2.
      eapply tracks_weaken; [|exact T2]. set_solver.
    + econstructor; eassumption.
Qed.

(** X17. The archiving loop of [main] runs the transaction for every
    repository of the slice, in order, each from the remote state the one
    before has left: a transaction that fails, at whatever step, does not
    keep the loop from going on to the next repository. *)
Theorem archive_loop_transactions target ns s (w : World Host) :
  slice_wf (heap w) s ->
  let r := archive_loop target ns s (s_len s) 0 w in
  transactions (FORCE_PROCESSING w) target ns (slice_elems (heap w) s)
               (remote w) (new_events w (snd r)) (remote (snd r)) /\
  heap (snd r) = heap w.
Proof.
  intros Hwf. cbn zeta.
  destruct (archive_loop_spec target ns s (s_len s) 0 w Hwf eq_refl) as (evs & h' & T & Tr).
  rewrite drop_0 in Tr.
  rewrite (tracks_new_events _ _ _ _ _ T), (tr_remote _ _ _ _ _ T), (tr_heap _ _ _ _ _ T).
  auto.
Qed.

(** *** the listing *)

Lemma listing_only_refl (p : Process Host) : listing_only p [] (remote (world p)) p.
Proof. split; try reflexivity. by rewrite app_nil_r. Qed.

Lemma listing_only_trans (p : Process Host) ls1 h1 p1 ls2 h2 p2 :
  listing_only p ls1 h1 p1 -> listing_only p1 ls2 h2 p2 ->
  listing_only p (ls1 ++ ls2) h2 p2.
Proof.
  intros [F1 V1 P1 E1 C1 U1 R1 G1] [F2 V2 P2 E2 C2 U2 R2 G2].
  split; try congruence. by rewrite G2, G1, app_assoc.
Qed.

(** One round of the paging loop, by the answer of the service. *)
Lemma page_body_spec fetching failed c (f : ListOptions -> Host -> Page * Host) target
    opts allRepos (p : Process Host) repos resp err h1 :
  f opts (remote (world p)) = ((repos, resp, err), h1) ->
  exists p1,
    listing_only p [Listed (c opts) err] h1 p1 /\
    page_body fetching failed c f target opts allRepos p =
      (if fatal (FORCE_PROCESSING (world p)) err then
         Done (Leave (nilSlice, Some (Wrapf "failed to list repositories: %w" [] err)))
       else
         match resp with
         | None => Panicked
         | Some resp =>
             if NextPage resp =? 0 then Done (Break (opts, allRepos ++ repos))
             else Done (Again (mkListOptions (NextPage resp) (lo_PerPage opts),
                               allRepos ++ repos))
         end, p1).
Proof.
  intros Hf. destruct p as [[force lvl logs h evs hp clk] ls us]. cbn in Hf.
  unfold page_body, pbind, lift, list_request, nil_dereference, pret, ForceProcessing, fatal;
    unfold_prims; cbn. rewrite Hf.
  destruct err as [e|], force; cbn;
    try (destruct resp as [resp|]; [destruct (NextPage resp =? 0)|]);
    (eexists; split; [|reflexivity]; split; reflexivity).
Qed.

Lemma page_loop_paged fetching failed c (f : ListOptions -> Host -> Page * Host) target
    force pgs opts h opts1 h1 :
  paged force f opts h pgs opts1 h1 ->
  forall fuel allRepos (p : Process Host),
    FORCE_PROCESSING (world p) = force -> remote (world p) = h ->
    exists p1,
      listing_only p (recorded c pgs) h1 p1 /\
      page_loop fetching failed c f target (length pgs + fuel) opts allRepos p =
        page_loop fetching failed c f target fuel opts1 (allRepos ++ entries pgs) p1.
Proof.
  induction 1 as [opts h|opts h repos resp err h1 pgs opts' h' Hf Hfat Hnext _ IH];
    intros fuel allRepos p HF HR.
  - exists p. split; [rewrite <- HR; apply listing_only_refl|].
    unfold entries. cbn. by rewrite app_nil_r.
  - rewrite <- HR in Hf.
    destruct (page_body_spec fetching failed c f target opts allRepos p _ _ _ _ Hf)
      as (p1 & L1 & E1).
    rewrite HF, Hfat in E1. apply Z.eqb_neq in Hnext. rewrite Hnext in E1.
    destruct (IH fuel (allRepos ++ repos) p1) as (p2 & L2 & E2).
    { by rewrite (lg_force _ _ _ _ L1). }
    { apply (lg_remote _ _ _ _ L1). }
    exists p2. split; [apply (listing_only_trans _ _ _ _ _ _ _ L1 L2)|].
    cbn [length Nat.add page_loop]. unfold pbind at 1. rewrite E1, E2.
    unfold entries. cbn. by rewrite <- app_assoc.
Qed.

Lemma make_owned n (w : World Host) :
  owned (heap w) (heap (snd (make n w))) (fst (make n w)) /\
  slice_elems (heap (snd (make n w))) (fst (make n w)) = [] /\
  FORCE_PROCESSING (snd (make n w)) = FORCE_PROCESSING w /\
  logLevel (snd (make n w)) = logLevel w /\
  remote (snd (make n w)) = remote w /\ events (snd (make n w)) = events w /\
  clock (snd (make n w)) = clock w.
Proof.
  unfold make, owned, slice_wf, slice_elems. cbn. split; [|by rewrite take_0].
  split; [by eexists|]. split.
  - exists (replicate n zeroRepository). rewrite lookup_app_r, Nat.sub_diag by lia.
    split; [reflexivity|]. rewrite length_replicate. lia.
  - intros a [= <-]. lia.
Qed.

Lemma convert_loop_spec h0 allRepos :
  forall result (w : World Host),
    owned h0 (heap w) result ->
    let r := convert_loop allRepos result w in
    owned h0 (heap (snd r)) (fst r) /\
    slice_elems (heap (snd r)) (fst r) = slice_elems (heap w) result ++ omap listed allRepos /\
    FORCE_PROCESSING (snd r) = FORCE_PROCESSING w /\ logLevel (snd r) = logLevel w /\
    remote (snd r) = remote w /\ events (snd r) = events w /\ clock (snd r) = clock w.
Proof.
  induction allRepos as [|repo rest IH]; intros result w Hown; cbn zeta.
  - cbn. by rewrite app_nil_r.
  - assert (Hl : listed repo =
                 match repo ≫= gh_Name, repo ≫= gh_OwnerLogin with
                 | Some name, Some login =>
                     Some (mkRepository login name (GetUpdatedAt repo) (GetArchived repo))
                 | _, _ => None
                 end).
    { unfold listed. by destruct (repo ≫= gh_Name), (repo ≫= gh_OwnerLogin). }
    cbn [convert_loop omap list_omap]. rewrite Hl. clear Hl.
    destruct (repo ≫= gh_Name) as [name|]; [destruct (repo ≫= gh_OwnerLogin) as [login|]|].
    + unfold bind.
      pose proof (append_owned h0 result
                    (mkRepository login name (GetUpdatedAt repo) (GetArchived repo)) w Hown)
        as A. cbn zeta in A.
      destruct (append result _ w) as [result' w1]. cbn [fst snd] in A.
      destruct A as (Ho & Hel & F & V & _ & R & E & C).
      specialize (IH result' w1 Ho). cbn zeta in IH.
      rewrite Hel, F, V, R, E, C, <- app_assoc in IH. exact IH.
    + unfold bind, logger_Warn, logger_log. cbn [snd].
      match goal with
      | |- context [convert_loop rest result ?w1] => exact (IH result w1 Hown)
      end.
    + unfold bind, logger_Warn, logger_log. cbn [snd].
      match goal with
      | |- context [convert_loop rest result ?w1] => exact (IH result w1 Hown)
      end.
Qed.

Lemma ListRepositories_run fuel target org (p : Process Host)
    pgs opts1 h1 repos resp err h2 :
  paged (FORCE_PROCESSING (world p)) (list_entry org target) first_page (remote (world p))
        pgs opts1 h1 ->
  list_entry org target opts1 h1 = ((repos, resp, err), h2) ->
  (length pgs < fuel)%nat ->
  let r := ListRepositories fuel target org p in
  let ls := recorded (list_call org target) (pgs ++ [(opts1, (repos, resp, err))]) in
  if fatal (FORCE_PROCESSING (world p)) err then
    fst r = Done (nilSlice, Some (Wrapf "failed to list repositories: %w" [] err)) /\
    listing_only p ls h2 (snd r)
  else
    match resp with
    | None => fst r = Panicked /\ listing_only p ls h2 (snd r)
    | Some resp =>
        NextPage resp = 0 ->
        exists s,
          fst r = Done (s, None) /\
          owned (heap (world p)) (heap (world (snd r))) s /\
          slice_elems (heap (world (snd r))) s = omap listed (entries pgs ++ repos) /\
          FORCE_PROCESSING (world (snd r)) = FORCE_PROCESSING (world p) /\
          logLevel (world (snd r)) = logLevel (world p) /\
          events (world (snd r)) = events (world p) /\
          remote (world (snd r)) = h2 /\
          listings (snd r) = listings p ++ ls /\
          clock (world (snd r)) = clock (world p)
    end.
Proof.
  intros Hp Hf Hfuel. cbn zeta.
  replace fuel with (length pgs + S (fuel - S (length pgs)))%nat by lia.
  generalize (fuel - S (length pgs))%nat. clear Hfuel. intros k.
  unfold ListRepositories. rewrite pbind_lift. unfold logger_Info at 1, logger_log at 1.
  cbn [fst snd].
  match goal with
  | |- context [pbind _ _ ?q] => set (p0 := q)
  end.
  assert (L0 : listing_only p [] (remote (world p)) p0).
  { subst p0. split; try reflexivity. by rewrite app_nil_r. }
  clearbody p0.
  assert (HP : exists p1,
             listing_only p0 (recorded (list_call org target) pgs) h1 p1 /\
             (if negb org
              then page_loop "Fetching page %d of user repositories"
                     "Failed to list repositories for user %s: %v"
                     (RepositoriesList target) (Repositories_List target) target
                     (length pgs + S k) (mkListOptions 0 100) []
              else page_loop "Fetching page %d of organization repositories"
                     "Failed to list repositories for organization %s: %v"
                     (RepositoriesListByOrg target) (Repositories_ListByOrg target) target
                     (length pgs + S k) (mkListOptions 0 100) []) p0 =
             pbind (page_body (if org then "Fetching page %d of organization repositories"
                               else "Fetching page %d of user repositories")
                              (if org
                               then "Failed to list repositories for organization %s: %v"
                               else "Failed to list repositories for user %s: %v")
                              (list_call org target) (list_entry org target) target
                              opts1 (entries pgs))
                   (fun r =>
                      match r with
                      | Again (opts, allRepos) =>
                          page_loop (if org
                                     then "Fetching page %d of organization repositories"
                                     else "Fetching page %d of user repositories")
                                    (if org
                                     then "Failed to list repositories for organization %s: %v"
                                     else "Failed to list repositories for user %s: %v")
                                    (list_call org target) (list_entry org target) target
                                    k opts allRepos
                      | Break s => pret (Break s)
                      | Leave x => pret (Leave x)
                      end) p1).
  { rewrite <- (lg_force _ _ _ _ L0) in Hp.
    destruct org; cbn [negb]; unfold list_entry, list_call in *.
    - destruct (page_loop_paged "Fetching page %d of organization repositories"
                  "Failed to list repositories for organization %s: %v"
                  (RepositoriesListByOrg target) _ target _ _ _ _ _ _ Hp (S k) [] p0
                  eq_refl (lg_remote _ _ _ _ L0)) as (p1 & L1 & E1).
      exists p1. split; [exact L1|]. exact E1.
    - destruct (page_loop_paged "Fetching page %d of user repositories"
                  "Failed to list repositories for user %s: %v"
                  (RepositoriesList target) _ target _ _ _ _ _ _ Hp (S k) [] p0
                  eq_refl (lg_remote _ _ _ _ L0)) as (p1 & L1 & E1).
      exists p1. split; [exact L1|]. exact E1. }
  destruct HP as (p1 & L1 & E1).
  pose proof (listing_only_trans _ _ _ _ _ _ _ L0 L1) as L01. cbn [app] in L01.
  rewrite <- (lg_remote _ _ _ _ L1) in Hf.
  destruct (page_body_spec
              (if org then "Fetching page %d of organization repositories"
               else "Fetching page %d of user repositories")
              (if org then "Failed to list repositories for organization %s: %v"
               else "Failed to list repositories for user %s: %v")
              (list_call org target) (list_entry org target) target
              opts1 (entries pgs) p1 _ _ _ _ Hf) as (p2 & L2 & E2).
  pose proof (listing_only_trans _ _ _ _ _ _ _ L01 L2) as L02.
  rewrite (lg_force _ _ _ _ L01) in E2.
  assert (Hrec : recorded (list_call org target) pgs ++
                   [Listed (list_call org target opts1) err] =
                 recorded (list_call org target) (pgs ++ [(opts1, (repos, resp, err))])).
  { unfold recorded. by rewrite map_app. }
  rewrite Hrec in L02. clear Hrec.
  unfold pbind. rewrite E1. unfold pbind. rewrite E2.
  destruct (fatal (FORCE_PROCESSING (world p)) err).
  { cbn [fst snd pret]. split; [reflexivity | exact L02]. }
  destruct resp as [resp|]; [|cbn [fst snd]; split; [reflexivity | exact L02]].
  intros Hnext. rewrite Hnext. cbn [Z.eqb pret].
  unfold lift, bind, logger_Debug, logger_Info, logger_log, ret. cbn [fst snd].
  match goal with
  | |- context [make ?n ?w] =>
      pose proof (make_owned n w) as (Mo & Me & MF & MV & MR & ME & MC);
      destruct (make n w) as [s0 w3]
  end.
  cbn [fst snd heap set_stdlog FORCE_PROCESSING logLevel remote events clock]
    in Mo, Me, MF, MV, MR, ME, MC.
  pose proof (convert_loop_spec _ (entries pgs ++ repos) s0 w3 Mo) as C. cbn zeta in C.
  destruct (convert_loop (entries pgs ++ repos) s0 w3) as [s w4]. cbn [fst snd] in C.
  destruct C as (Co & Cel & CF & CV & CR & CE & CC).
  exists s.
  cbn [fst snd world listings heap set_stdlog FORCE_PROCESSING logLevel events remote clock].
  split; [reflexivity|].
  rewrite (lg_heap _ _ _ _ L02) in Co. rewrite Me in Cel.
  split; [exact Co|]. split; [exact Cel|].
  rewrite CF, CV, CE, CR, CC, MF, MV, ME, MR, MC.
  destruct L02 as [F V _ E C _ R G]. auto 10.
Qed.

(** X18. When the service answers page after page, each answer announcing
    the next one until the last, [ListRepositories] returns a nil error and a
    new slice that holds, in the order of the pages, a [Repository] for every
    entry with a name and an owner; the other entries are left out.  One
    listing request per page was sent, and no other request; a round of fuel
    per page is enough. *)
Theorem ListRepositories_all_pages fuel target org (p : Process Host)
    pgs opts1 h1 repos resp err h2 :
  paged (FORCE_PROCESSING (world p)) (list_entry org target) first_page (remote (world p))
        pgs opts1 h1 ->
  list_entry org target opts1 h1 = ((repos, Some resp, err), h2) ->
  fatal (FORCE_PROCESSING (world p)) err = false ->
  NextPage resp = 0 ->
  (length pgs < fuel)%nat ->
  let r := ListRepositories fuel target org p in
  exists s,
    fst r = Done (s, None) /\
    owned (heap (world p)) (heap (world (snd r))) s /\
    slice_elems (heap (world (snd r))) s = omap listed (entries pgs ++ repos) /\
    events (world (snd r)) = events (world p) /\
    remote (world (snd r)) = h2 /\
    listings (snd r) =
      listings p ++ recorded (list_call org target) (pgs ++ [(opts1, (repos, Some resp, err))]).
Proof.
  intros Hp Hf Hfat Hnext Hfuel.
  pose proof (ListRepositories_run fuel target org p _ _ _ _ _ _ _ Hp Hf Hfuel) as R.
  cbn zeta in *. rewrite Hfat in R.
  destruct (R Hnext) as (s & E & Ho & Hel & _ & _ & Hev & Hr & Hl & _). eauto 10.
Qed.

(** X19. Without the force flag [ListRepositories] stops at the first page
    that fails: it returns the nil slice and the error of the service wrapped
    as a failure to list, the failed request is the last one it has sent, and
    nothing is allocated; the entries of the pages before are dropped. *)
Theorem ListRepositories_failure fuel target org (p : Process Host)
    pgs opts1 h1 repos resp e h2 :
  FORCE_PROCESSING (world p) = false ->
  paged false (list_entry org target) first_page (remote (world p)) pgs opts1 h1 ->
  list_entry org target opts1 h1 = ((repos, resp, Some e), h2) ->
  (length pgs < fuel)%nat ->
  let r := ListRepositories fuel target org p in
  fst r = Done (nilSlice, Some (Wrapf "failed to list repositories: %w" [] (Some e))) /\
  listing_only p (recorded (list_call org target) (pgs ++ [(opts1, (repos, resp, Some e))]))
               h2 (snd r).
Proof.
  intros HF Hp Hf Hfuel. rewrite <- HF in Hp.
  pose proof (ListRepositories_run fuel target org p _ _ _ _ _ _ _ Hp Hf Hfuel) as R.
  cbn zeta in *. by rewrite HF in R.
Qed.

(** X20. A request that comes back without a response, and without an error
    that ends the listing, makes [ListRepositories] panic: the next page is
    read through the nil response.  With the force flag set this is what a
    failed request without a response leads to. *)
Theorem ListRepositories_nil_response fuel target org (p : Process Host)
    pgs opts1 h1 repos err h2 :
  paged (FORCE_PROCESSING (world p)) (list_entry org target) first_page (remote (world p))
        pgs opts1 h1 ->
  list_entry org target opts1 h1 = ((repos, None, err), h2) ->
  fatal (FORCE_PROCESSING (world p)) err = false ->
  (length pgs < fuel)%nat ->
  fst (ListRepositories fuel target org p) = Panicked.
Proof.
  intros Hp Hf Hfat Hfuel.
  pose proof (ListRepositories_run fuel target org p _ _ _ _ _ _ _ Hp Hf Hfuel) as R.
  cbn zeta in *. rewrite Hfat in R. apply R.
Qed.

Lemma NewClient_run token (w : World Host) :
  NewClient token w = (None, snd (logger_Debug "Creating new GitHub client" [] w)).
Proof. reflexivity. Qed.

Lemma ForceProcessing_None (w : World Host) : ForceProcessing None w = (false, w).
Proof. unfold ForceProcessing, bind, ret. cbn. by destruct (FORCE_PROCESSING w). Qed.

Lemma ForceProcessing_Some e (w : World Host) :
  FORCE_PROCESSING w = false ->
  ForceProcessing (Some e) w =
    (true, set_stdlog (stdlog w ++ [Printf "ERROR CONTINUANCE: %v" [AErr (Some e)]]) w).
Proof. intros HF. unfold ForceProcessing, bind, log_Printf. cbn. by rewrite HF. Qed.

Lemma logger_Fatal_exits format args (q : Process Host) :
  FORCE_PROCESSING (world q) = false ->
  fst (logger_Fatal format args q) = Exited 1 /\
  listing_only q [] (remote (world q)) (snd (logger_Fatal format args q)).
Proof.
  intros HF. unfold logger_Fatal. rewrite pbind_lift. cbn [fst snd]. rewrite HF.
  rewrite pbind_lift. unfold os_Exit, logger_log. cbn.
  split; [reflexivity|]. split; try reflexivity. by rewrite app_nil_r.
Qed.

(** [main] up to the listing: the process in which [ListRepositories] is
    called, and what the rest of [main] does with an error. *)
Lemma main_to_listing fuel (fl : Flags) (p : Process Host) :
  flag_token fl <> "" -> flag_target fl <> "" ->
  exists p0 K,
    main fuel (Parsed fl) p = pbind (ListRepositories fuel (flag_target fl) (flag_org fl)) K p0 /\
    FORCE_PROCESSING (world p0) = flag_force fl /\
    remote (world p0) = remote (world p) /\
    events (world p0) = events (world p) /\
    heap (world p0) = heap (world p) /\
    listings p0 = listings p /\
    (forall s e q,
       FORCE_PROCESSING (world q) = false ->
       fst (K (s, Some e) q) = Exited 1 /\
       listing_only q [] (remote (world q)) (snd (K (s, Some e) q))).
Proof.
  intros Ht Hg. unfold main. cbn [flag_Parse]. rewrite pbind_pret. cbn beta.
  rewrite pbind_lift. cbn [set_FORCE_PROCESSING fst snd]. rewrite pbind_lift.
  cbn [world listings usages fst].
  match goal with
  | |- context [mkProcess (snd ?t) _ _] => set (w1 := snd t)
  end.
  assert (H1 : FORCE_PROCESSING w1 = flag_force fl /\ remote w1 = remote (world p) /\
               events w1 = events (world p) /\ heap w1 = heap (world p)).
  { subst w1. destruct (flag_verbose fl); [|destruct (flag_quiet fl)]; cbn; auto. }
  clearbody w1. destruct H1 as (F1 & R1 & E1 & P1).
  assert (Hc : (flag_token fl =? "")%string || (flag_target fl =? "")%string = false).
  { apply orb_false_iff. split; by apply String.eqb_neq. }
  unfold pbind at 1. rewrite Hc. cbn [pret].
  rewrite pbind_lift. cbn beta. rewrite pbind_lift. cbn beta.
  rewrite NewClient_run. cbn [fst snd]. rewrite pbind_lift. cbn beta.
  rewrite ForceProcessing_None. cbn [fst snd world listings usages].
  unfold pbind at 1. cbn [pret].
  do 3 (rewrite pbind_lift; cbn beta; cbn [fst snd world listings usages]).
  eexists _, _. split; [reflexivity|].
  cbn. do 5 (split; [assumption || reflexivity|]).
  intros s e q HF.
  rewrite pbind_lift, (ForceProcessing_Some e _ HF). cbn [fst snd].
  set (q1 := mkProcess _ _ _).
  assert (L1 : listing_only q [] (remote (world q)) q1).
  { subst q1. split; try reflexivity. by rewrite app_nil_r. }
  assert (HF1 : FORCE_PROCESSING (world q1) = false) by (by rewrite (lg_force _ _ _ _ L1)).
  clearbody q1.
  match goal with
  | |- context [pbind (logger_Fatal ?f ?a) _ q1] =>
      destruct (logger_Fatal_exits f a q1 HF1) as [Ex L2]
  end.
  rewrite (pbind_exited _ _ _ _ Ex). cbn [fst snd]. split; [reflexivity|].
  rewrite (lg_remote _ _ _ _ L1) in L2.
  apply (listing_only_trans _ _ _ _ _ _ _ L1 L2).
Qed.

(** X21. Without the force flag a listing that fails ends the run: [main]
    exits with code 1 after the failed listing request, and has sent no
    other request, to look a repository up or to archive it. *)
Theorem main_stops_at_failed_listing fuel (fl : Flags) (p : Process Host)
    pgs opts1 h1 repos resp e h2 :
  flag_token fl <> "" -> flag_target fl <> "" -> flag_force fl = false ->
  paged false (list_entry (flag_org fl) (flag_target fl)) first_page (remote (world p))
        pgs opts1 h1 ->
  list_entry (flag_org fl) (flag_target fl) opts1 h1 = ((repos, resp, Some e), h2) ->
  (length pgs < fuel)%nat ->
  let r := main fuel (Parsed fl) p in
  fst r = Exited 1 /\
  events (world (snd r)) = events (world p) /\
  remote (world (snd r)) = h2 /\
  heap (world (snd r)) = heap (world p) /\
  listings (snd r) =
    listings p ++ recorded (list_call (flag_org fl) (flag_target fl))
                           (pgs ++ [(opts1, (repos, resp, Some e))]).
Proof.
  intros Ht Hg Hforce Hp Hf Hfuel. cbn zeta.
  destruct (main_to_listing fuel fl p Ht Hg) as (p0 & K & Em & F0 & R0 & E0 & P0 & G0 & HK).
  rewrite Hforce in F0. rewrite <- R0, <- F0 in Hp.
  pose proof (ListRepositories_run fuel _ _ p0 _ _ _ _ _ _ _ Hp Hf Hfuel) as LR.
  cbn zeta in LR. rewrite F0 in LR. destruct LR as [Er L].
  rewrite Em, (pbind_done _ _ _ _ Er).
  destruct (HK nilSlice (Wrapf "failed to list repositories: %w" [] (Some e))
              (snd (ListRepositories fuel (flag_target fl) (flag_org fl) p0)))
    as [Ex L2].
  { by rewrite (lg_force _ _ _ _ L). }
  pose proof (listing_only_trans _ _ _ _ _ _ _ L L2) as L3. rewrite app_nil_r in L3.
  split; [exact Ex|]. destruct L3 as [_ _ P3 E3 _ _ R3 G3].
  rewrite E3, P3, G3, E0, P0, G0, R3, (lg_remote _ _ _ _ L). auto.
Qed.

(** *** runs that do not return *)

Lemma settles_pbind {A B} Q (m : P Host A) (k : A -> P Host B) :
  pconfined Q m -> (forall a, settles Q (k a)) -> settles Q (pbind m k).
Proof.
  intros Hm Hk p. unfold pbind. destruct (Hm p) as (_ & _ & (evs1 & E1 & Q1) & _).
  destruct (m p) as [[a|code| |] p1]; cbn [fst snd] in *; intros Hn.
  2-4: by exists evs1.
  destruct (Hk a p1 Hn) as (evs2 & E2 & Q2).
  exists (evs1 ++ evs2). by rewrite E2, E1, app_assoc, Forall_app.
Qed.

Lemma settles_returns {A} Q (m : P Host A) : returns m -> settles Q m.
Proof. intros Hr p Hn. destruct (Hr p) as [a Ha]. by apply Hn in Ha. Qed.

Lemma returns_lift {A} (m : M Host A) : returns (lift m).
Proof. intros p. unfold lift. destruct (m (world p)) as [a w]. by exists a. Qed.

Lemma returns_pbind {A B} (m : P Host A) (k : A -> P Host B) :
  returns m -> (forall a, returns (k a)) -> returns (pbind m k).
Proof.
  intros Hm Hk p. unfold pbind. destruct (Hm p) as [a Ha].
  destruct (m p) as [o p1]. cbn in Ha. subst o. apply Hk.
Qed.

(** X22. A run of [main] that does not return, because it exits, in
    [flag.Parse] or later, panics or is cut short, has changed nothing on the
    hosting service: the events it has added are those of lookups, and no
    transaction was begun. *)
Theorem unfinished_run_changed_nothing fuel (cl : CommandLine) (p : Process Host) :
  fst (main fuel cl p) <> Done tt ->
  Forall lookup_event (new_events (world p) (world (snd (main fuel cl p)))).
Proof.
  destruct cl as [fl| |];
    [|intros _; unfold new_events; cbn; rewrite drop_all; constructor..].
  unfold main. cbn [flag_Parse]. rewrite pbind_pret. cbn beta.
  match goal with
  | |- context [pbind (lift (logger_Debug "Initializing GitHub client" [])) ?k] =>
      set (rest := pbind (lift (logger_Debug "Initializing GitHub client" [])) k)
  end.
  assert (HR : settles lookup_event rest).
  { subst rest.
    pose proof (pconfined_ListRepositories lookup_event fuel (flag_target fl) (flag_org fl))
      as HL.
    pose proof (fun a s => pconfined_lift _ _ (confined_FindInactiveRepositories a s)) as HF.
    unfold NewClient. cbv zeta.
    repeat first
      [ apply settles_pbind;
        [repeat first [apply HL | apply HF | pconfine_step]; fail | intros ?]
      | match goal with
        | |- settles _ (match ?x with _ => _ end) => destruct x
        end ].
    all: apply settles_returns;
      repeat first
        [ apply returns_lift
        | apply returns_pbind; [|intros ?]
        | match goal with
          | |- returns (if ?b then _ else _) => destruct b
          end ]. }
  clearbody rest.
  rewrite pbind_lift. cbn [set_FORCE_PROCESSING fst snd]. rewrite pbind_lift.
  cbn [world listings usages fst].
  match goal with
  | |- context [mkProcess (snd ?t) _ _] => set (w1 := snd t)
  end.
  assert (E1 : events w1 = events (world p)).
  { subst w1. destruct (flag_verbose fl); [|destruct (flag_quiet fl)]; reflexivity. }
  clearbody w1. unfold pbind, new_events.
  destruct ((flag_token fl =? "")%string || (flag_target fl =? "")%string).
  - intros _. cbn. rewrite E1, drop_all. constructor.
  - cbn [pret]. set (p1 := mkProcess w1 (listings p) (usages p)). intros Hn.
    destruct (HR p1) as (evs & E & Q).
    { intros []. exact Hn. }
    rewrite E. cbn [p1 world]. by rewrite E1, drop_app_length.
Qed.

Lemma report_loop_spec s n :
  forall i (w : World Host),
    exists ls, snd (report_loop s n i w) = set_stdlog (stdlog w ++ ls) w.
Proof.
  induction n as [|n IH]; intros i w; cbn [report_loop].
  - exists []. unfold ret, set_stdlog. cbn. rewrite app_nil_r. by destruct w.
  - unfold bind, index, logger_Info, logger_log. cbn [fst snd].
    match goal with
    | |- context [report_loop s n (S i) ?w1] => destruct (IH (S i) w1) as [ls ->]
    end.
    unfold set_stdlog. cbn. eexists. by rewrite <- app_assoc.
Qed.

(** [main] from the flags to its end, after a listing that went through:
    either the analysis fails, without the force flag, and the run exits, or
    the run returns after the lookups and the transactions. *)
Lemma main_run fuel (fl : Flags) (p : Process Host)
    pgs opts1 h1 repos resp err h2 :
  flag_token fl <> "" -> flag_target fl <> "" -> flag_dryRun fl = false ->
  paged (flag_force fl) (list_entry (flag_org fl) (flag_target fl)) first_page
        (remote (world p)) pgs opts1 h1 ->
  list_entry (flag_org fl) (flag_target fl) opts1 h1 = ((repos, Some resp, err), h2) ->
  fatal (flag_force fl) err = false ->
  NextPage resp = 0 ->
  (length pgs < fuel)%nat ->
  let r := main fuel (Parsed fl) p in
  let a := NewAnalyzer (mul64 (mul64 (mul64 (flag_threshold fl) 365) 24) Hour) in
  let xs := omap listed (entries pgs ++ repos) in
  (fst r = Exited 1 /\ flag_force fl = false) \/
  (fst r = Done tt /\
   exists groups h3 txs,
     new_events (world p) (world (snd r)) = concat groups ++ txs /\
     Forall2 (full_group (flag_force fl)) (live xs) groups /\
     transactions (flag_force fl) (flag_target fl) (String.append (flag_target fl) "-archive")
                  (classified (flag_force fl) (cutoffDate a (clock (world p))) xs h2)
                  h3 txs (remote (world (snd r)))).
Proof.
  intros Ht Hg Hdry Hp Hf Hfat Hnext Hfuel. cbn zeta.
  remember (main fuel (Parsed fl) p) as r eqn:Er. unfold main in Er.
  cbn [flag_Parse] in Er. rewrite pbind_pret in Er. cbn beta in Er.
  rewrite pbind_lift in Er. cbn [set_FORCE_PROCESSING fst snd] in Er.
  rewrite pbind_lift in Er. cbn [world listings usages fst] in Er.
  match type of Er with
  | context [mkProcess (snd ?t) _ _] => set (w1 := snd t) in Er
  end.
  assert (H1 : FORCE_PROCESSING w1 = flag_force fl /\ remote w1 = remote (world p) /\
               events w1 = events (world p) /\ heap w1 = heap (world p) /\
               clock w1 = clock (world p)).
  { subst w1. destruct (flag_verbose fl); [|destruct (flag_quiet fl)]; cbn; auto. }
  clearbody w1. destruct H1 as (F1 & R1 & E1 & P1 & C1).
  assert (Hc : (flag_token fl =? "")%string || (flag_target fl =? "")%string = false).
  { apply orb_false_iff. split; by apply String.eqb_neq. }
  unfold pbind at 1 in Er. rewrite Hc in Er. cbn [pret] in Er.
  rewrite pbind_lift in Er. cbn beta in Er. rewrite pbind_lift in Er. cbn beta in Er.
  rewrite NewClient_run in Er. cbn [fst snd] in Er. rewrite pbind_lift in Er. cbn beta in Er.
  rewrite ForceProcessing_None in Er. cbn [fst snd world listings usages] in Er.
  unfold pbind at 1 in Er. cbn [pret] in Er.
  do 3 (rewrite pbind_lift in Er; cbn beta in Er; cbn [fst snd world listings usages] in Er).
  match type of Er with
  | _ = pbind _ _ ?q => set (p0 := q) in Er
  end.
  assert (H0 : FORCE_PROCESSING (world p0) = flag_force fl /\
               remote (world p0) = remote (world p) /\
               events (world p0) = events (world p) /\
               heap (world p0) = heap (world p) /\
               clock (world p0) = clock (world p)).
  { subst p0. cbn. auto. }
  clearbody p0. destruct H0 as (F0 & R0 & E0 & P0 & C0).
  rewrite <- F0, <- R0 in Hp. rewrite <- F0 in Hfat.
  pose proof (ListRepositories_run fuel _ _ p0 _ _ _ _ _ _ _ Hp Hf Hfuel) as LR.
  cbn zeta in LR. rewrite Hfat in LR.
  destruct (LR Hnext) as (s & Es & Ho & Hel & Fq & _ & Eq & Rq & _ & Cq). clear LR.
  rewrite (pbind_done _ _ _ _ Es) in Er.
  set (q := snd (ListRepositories fuel (flag_target fl) (flag_org fl) p0)) in *.
  clearbody q.
  rewrite pbind_lift in Er. cbn beta in Er.
  rewrite ForceProcessing_None in Er. cbn [fst snd world listings usages] in Er.
  unfold pbind at 1 in Er. cbn [pret] in Er.
  do 3 (rewrite pbind_lift in Er; cbn beta in Er; cbn [fst snd world listings usages] in Er).
  match type of Er with
  | context [FindInactiveRepositories ?a0 s ?w] => set (a := a0) in *; set (wa := w) in Er
  end.
  assert (Ha : FORCE_PROCESSING wa = flag_force fl /\ remote wa = h2 /\
               events wa = events (world p) /\ heap wa = heap (world q) /\
               clock wa = clock (world p)).
  { subst wa. cbn. rewrite Fq, Eq, Cq. auto. }
  clearbody wa. destruct Ha as (Fa & Ra & Ea & Pa & Ca).
  assert (Hwf : slice_wf (heap wa) s) by (rewrite Pa; apply Ho).
  pose proof (FindInactiveRepositories_spec a s wa Hwf) as S.
  pose proof (FindInactiveRepositories_trace a s wa Hwf) as [T _].
  destruct (confined_FindInactiveRepositories a s wa) as (_ & _ & (evs & Ee & _) & _).
  cbn zeta in S, T. unfold new_events in T. rewrite Ee, drop_app_length in T.
  destruct (FindInactiveRepositories a s wa) as [[inactive e2] wb].
  cbn [fst snd] in *. destruct S as (Fb & _ & _ & S).
  rewrite Fa, Pa, Hel in T. rewrite Fa, Ca, Ra, Pa, Hel in S.
  destruct e2 as [e2|].
  { (* the analysis fails: the run exits *)
    destruct S as [_ Hforce]. rewrite Fa in Fb.
    assert (Fb' : FORCE_PROCESSING wb = false) by congruence.
    rewrite pbind_lift in Er. cbn [world] in Er.
    rewrite (ForceProcessing_Some e2 _ Fb') in Er. cbn [fst snd] in Er. cbn beta iota in Er.
    match type of Er with
    | _ = pbind (logger_Fatal ?f ?args) ?k ?q1 =>
        destruct (logger_Fatal_exits f args q1 Fb') as [Ex _];
        rewrite (pbind_exited _ k q1 1 Ex) in Er
    end.
    subst r. left. split; [reflexivity | assumption]. }
  right.
  destruct S as [Hown Hfound]. destruct T as (groups & Hgroups & ->).
  rewrite Ea in Ee.
  rewrite pbind_lift in Er. cbn [world] in Er.
  rewrite ForceProcessing_None in Er. cbn [fst snd] in Er. cbn beta iota in Er.
  unfold pbind at 1 in Er. cbn [pret] in Er.
  assert (Hwfb : slice_wf (heap wb) inactive) by apply Hown.
  destruct (s_len inactive =? 0)%nat eqn:Hlen.
  - (* nothing is inactive *)
    apply Nat.eqb_eq in Hlen.
    assert (Hnil : slice_elems (heap wb) inactive = []).
    { apply length_zero_iff_nil. by rewrite slice_elems_length. }
    rewrite <- Hfound, Hnil. subst r. split; [reflexivity|].
    exists groups, (remote wb), [].
    unfold lift, logger_Info, logger_log, new_events. cbn.
    rewrite Ee, drop_app_length, app_nil_r. repeat split; [assumption | constructor].
  - rewrite Hdry in Er.
    rewrite pbind_lift in Er. cbn beta in Er. cbn [fst snd world listings usages] in Er.
    rewrite pbind_lift in Er. cbn beta in Er. cbn [fst snd world listings usages] in Er.
    match type of Er with
    | context [report_loop inactive ?n ?i ?w] =>
        destruct (report_loop_spec inactive n i w) as [ls Hrep]; rewrite Hrep in Er
    end.
    rewrite pbind_lift in Er. cbn beta in Er. cbn [fst snd world listings usages] in Er.
    rewrite pbind_lift in Er. cbn beta in Er. cbn [fst snd world listings usages] in Er.
    match type of Er with
    | context [archive_loop ?t ?ns inactive ?n ?i ?w] => set (wc := w) in Er
    end.
    assert (Hc' : FORCE_PROCESSING wc = flag_force fl /\ remote wc = remote wb /\
                  events wc = events wb /\ heap wc = heap wb).
    { subst wc. cbn. rewrite Fb, Fa. auto. }
    clearbody wc. destruct Hc' as (Fc & Rc & Ec & Pc).
    rewrite <- Pc in Hwfb.
    destruct (archive_loop_spec (flag_target fl) (String.append (flag_target fl) "-archive")
                inactive (s_len inactive) 0 wc Hwfb eq_refl) as (txs & h' & Tt & Tr).
    rewrite drop_0, Fc, Rc, Pc, Hfound in Tr.
    subst r. split; [reflexivity|]. exists groups, (remote wb), txs.
    unfold lift, logger_Info, logger_log, new_events.
    cbn [fst snd world events remote set_stdlog].
    rewrite (tr_events _ _ _ _ _ Tt), (tr_remote _ _ _ _ _ Tt), Ec, Ee.
    rewrite <- app_assoc, drop_app_length. auto.
Qed.

(** X23. A run of [main] that returns, outside a dry run and after a
    listing that went through, has done this and nothing else on the hosting
    service: the lookups of the repositories listed and not yet archived, in
    the order of the listing, and then one transaction for each repository
    that the classifier finds inactive among them, in the same order, into
    the namespace [target-archive]. *)
Theorem main_archives_inactive fuel (fl : Flags) (p : Process Host)
    pgs opts1 h1 repos resp err h2 :
  flag_token fl <> "" -> flag_target fl <> "" -> flag_dryRun fl = false ->
  paged (flag_force fl) (list_entry (flag_org fl) (flag_target fl)) first_page
        (remote (world p)) pgs opts1 h1 ->
  list_entry (flag_org fl) (flag_target fl) opts1 h1 = ((repos, Some resp, err), h2) ->
  fatal (flag_force fl) err = false ->
  NextPage resp = 0 ->
  (length pgs < fuel)%nat ->
  let r := main fuel (Parsed fl) p in
  let a := NewAnalyzer (mul64 (mul64 (mul64 (flag_threshold fl) 365) 24) Hour) in
  let xs := omap listed (entries pgs ++ repos) in
  fst r = Done tt ->
  exists groups h3 txs,
    new_events (world p) (world (snd r)) = concat groups ++ txs /\
    Forall2 (full_group (flag_force fl)) (live xs) groups /\
    transactions (flag_force fl) (flag_target fl) (String.append (flag_target fl) "-archive")
                 (classified (flag_force fl) (cutoffDate a (clock (world p))) xs h2)
                 h3 txs (remote (world (snd r))).
Proof.
  intros Ht Hg Hdry Hp Hf Hfat Hnext Hfuel. cbn zeta. intros Hdone.
  destruct (main_run fuel fl p _ _ _ _ _ _ _ Ht Hg Hdry Hp Hf Hfat Hnext Hfuel)
    as [[Hx _]|[_ H]]; [congruence | exact H].
Qed.

(** X24. With the force flag set, a run of [main] outside a dry run gets to
    its end once the listing went through: it returns, and neither exits nor
    panics, whatever the hosting service answers to the lookups and to the
    transactions. *)
Theorem forced_run_returns fuel (fl : Flags) (p : Process Host)
    pgs opts1 h1 repos resp err h2 :
  flag_token fl <> "" -> flag_target fl <> "" -> flag_dryRun fl = false ->
  flag_force fl = true ->
  paged true (list_entry (flag_org fl) (flag_target fl)) first_page
        (remote (world p)) pgs opts1 h1 ->
  list_entry (flag_org fl) (flag_target fl) opts1 h1 = ((repos, Some resp, err), h2) ->
  NextPage resp = 0 ->
  (length pgs < fuel)%nat ->
  fst (main fuel (Parsed fl) p) = Done tt.
Proof.
  intros Ht Hg Hdry Hforce Hp Hf Hnext Hfuel. rewrite <- Hforce in Hp.
  assert (Hfat : fatal (flag_force fl) err = false) by (by rewrite Hforce).
  destruct (main_run fuel fl p _ _ _ _ _ _ _ Ht Hg Hdry Hp Hf Hfat Hnext Hfuel)
    as [[_ Hx]|[H _]]; [congruence | exact H].
Qed.
End Runs.

(** ** the reference hosting service obeys the laws *)

Lemma SimHost_laws : HostLaws sim_present sim_archived.
Proof.
  split.
  - intros o r h h'. cbn. unfold sim_delete, sim_present.
    destruct (sim_down h _); [discriminate|].
    destruct (sim_repos h !! (o, r)); [|discriminate].
    intros [= <-]. cbn. rewrite lookup_delete_eq. reflexivity.
  - intros o r h x h'. cbn. unfold sim_repo_get.
    destruct (sim_down h _); [by intros [= _ <-]|].
    destruct (sim_repos h !! (o, r)); by intros [= _ <-].
  - intros o r b h h'. cbn. unfold sim_edit, sim_present.
    destruct (sim_down h _); [discriminate|].
    destruct (sim_repos h !! (o, r)) as [g|] eqn:E; [|discriminate].
    intros [= <-] o' r'. cbn.
    destruct (decide ((o, r) = (o', r'))) as [<-|Hne].
    + by rewrite lookup_insert_eq, E.
    + by rewrite lookup_insert_ne.
  - intros o r b v h h'. cbn. unfold sim_edit, sim_archived.
    destruct (sim_down h _); [discriminate|].
    destruct (sim_repos h !! (o, r)) as [g|]; [|discriminate].
    intros [= <-] Hb. cbn. rewrite lookup_insert_eq, Hb. reflexivity.
Qed.

(** ** runs on concrete worlds *)

(** With the force flag set and no archive namespace, the transaction goes
    through all its steps: the fork is asked for and refused, the original is
    deleted all the same, and the function returns nil.  This is the run that
    C1, as first stated, rules out. *)
Lemma force_overrides_missing_namespace :
  let w := world0 true lonely_host [] 5000 in
  let r := ArchiveRepository "alice" "alice-archive" "old-proj" w in
  FORCE_PROCESSING w = true /\
  fst (CreateArchiveNamespace "alice-archive" w) = Some (namespace_missing "alice-archive") /\
  fst r = None /\
  new_events w (snd r) =
    [Requested (OrganizationsGet "alice-archive") (Some not_found);
     Requested (UsersGet "alice-archive") (Some not_found);
     Requested (RepositoriesGet "alice-archive" "old-proj") (Some not_found);
     Requested (RepositoriesCreateFork "alice" "old-proj" (mkForkOpts "alice-archive"))
               (Some not_found);
     Slept (5 * Second);
     Requested (RepositoriesDelete "alice" "old-proj") None;
     Requested (RepositoriesGet "alice-archive" "old-proj") (Some not_found)] /\
  sim_present (remote (snd r)) "alice" "old-proj" = false.
Proof. vm_compute. repeat split. Qed.

Lemma ArchiveRepository_namespace_missing_witness :
  let w := world0 false lonely_host [] 5000 in
  let r := ArchiveRepository "alice" "alice-archive" "old-proj" w in
  (FORCE_PROCESSING w = false ->
     fst r = Some (Wrapf "failed to create archive namespace: %w" []
                         (Some (namespace_missing "alice-archive"))) /\
     new_events w (snd r) =
       [Requested (OrganizationsGet "alice-archive") (Some not_found);
        Requested (UsersGet "alice-archive") (Some not_found)] /\
     remote (snd r) = lonely_host) /\
  (FORCE_PROCESSING w = true ->
     fst r = None /\
     exists ep rest,
       new_events w (snd r) =
         [Requested (OrganizationsGet "alice-archive") (Some not_found);
          Requested (UsersGet "alice-archive") (Some not_found);
          Requested (RepositoriesGet "alice-archive" "old-proj") ep] ++ rest).
Proof.
  apply (ArchiveRepository_namespace_missing "alice" "alice-archive" "old-proj"
           (world0 false lonely_host [] 5000) not_found lonely_host not_found lonely_host);
    reflexivity.
Defined.

Lemma fork_step_idempotent_witness :
  let h := mkSimHost ∅ {["alice"; "alice-archive"]}
             {[("alice", "old-proj") := old_proj;
               ("alice-archive", "old-proj") := old_proj]} ∅ up in
  let w := world0 false h [] 5000 in
  let r := ArchiveRepository "alice" "alice-archive" "old-proj" w in
  (forall (w1 : World SimHost),
     snd (fst (Repositories_Get "alice-archive" "old-proj" (remote w1))) = None ->
     fst (ForkRepository "alice" "old-proj" "alice-archive" w1) = None /\
     new_events w1 (snd (ForkRepository "alice" "old-proj" "alice-archive" w1)) =
       [Requested (RepositoriesGet "alice-archive" "old-proj") None]) /\
  Forall (fun ev => ~ is_fork_request ev) (new_events w (snd r)) /\
  exists rest,
    new_events w (snd r) =
      [Requested (OrganizationsGet "alice-archive") (Some not_found);
       Requested (UsersGet "alice-archive") None] ++
      Requested (RepositoriesGet "alice-archive" "old-proj") None ::
      Slept (5 * Second) :: rest.
Proof.
  cbn zeta.
  destruct (fork_step_idempotent "alice" "alice-archive" "old-proj"
              (world0 false
                 (mkSimHost ∅ {["alice"; "alice-archive"]}
                    {[("alice", "old-proj") := old_proj;
                      ("alice-archive", "old-proj") := old_proj]} ∅ up) [] 5000)
              (Some old_proj)
              (mkSimHost ∅ {["alice"; "alice-archive"]}
                 {[("alice", "old-proj") := old_proj;
                   ("alice-archive", "old-proj") := old_proj]} ∅ up))
    as (P1 & P2 & rest & P3).
  - reflexivity.
  - vm_compute. reflexivity.
  - split; [exact P1|]. split; [exact P2|]. exists rest.
    etrans; [exact P3|].
    apply (f_equal (fun l => (l ++ _)%list)). vm_compute. reflexivity.
Defined.

Lemma archive_successful_run_witness :
  let w := world0 false (alice_host up) [] 5000 in
  let r := ArchiveRepository "alice" "alice-archive" "old-proj" w in
  let fork := mkGhRepository (Some "old-proj") (Some "alice-archive") (Some 1000)
                             (Some 1500) (Some false) in
  fst r = None /\
  new_events w (snd r) =
    [Requested (OrganizationsGet "alice-archive") (Some not_found);
     Requested (UsersGet "alice-archive") None] ++
    [Requested (RepositoriesGet "alice-archive" "old-proj") (Some not_found);
     Requested (RepositoriesCreateFork "alice" "old-proj" (mkForkOpts "alice-archive")) None;
     Slept (5 * Second);
     Requested (RepositoriesDelete "alice" "old-proj") None;
     Requested (RepositoriesGet "alice-archive" "old-proj") None;
     Requested (RepositoriesEdit "alice-archive" "old-proj" (set_Archived true fork)) None] /\
  remote (snd r) =
    mkSimHost ∅ {["alice"; "alice-archive"]}
      {[("alice-archive", "old-proj") := set_Archived true fork]} ∅ up /\
  sim_present
    (mkSimHost ∅ {["alice"; "alice-archive"]}
       {[("alice-archive", "old-proj") := set_Archived true fork]} ∅ up)
    "alice" "old-proj" = false /\
  sim_archived
    (mkSimHost ∅ {["alice"; "alice-archive"]}
       {[("alice-archive", "old-proj") := set_Archived true fork]} ∅ up)
    "alice-archive" "old-proj" = true.
Proof.
  cbn zeta.
  apply (archive_successful_run "alice" "alice-archive" "old-proj"
           (world0 false (alice_host up) [] 5000) sim_present sim_archived
           [Requested (OrganizationsGet "alice-archive") (Some not_found);
            Requested (UsersGet "alice-archive") None]
           (alice_host up) None not_found (alice_host up)
           (mkSimHost ∅ {["alice"; "alice-archive"]}
              {[("alice", "old-proj") := old_proj;
                ("alice-archive", "old-proj") :=
                  mkGhRepository (Some "old-proj") (Some "alice-archive") (Some 1000)
                                 (Some 1500) (Some false)]} ∅ up)
           (mkSimHost ∅ {["alice"; "alice-archive"]}
              {[("alice-archive", "old-proj") :=
                  mkGhRepository (Some "old-proj") (Some "alice-archive") (Some 1000)
                                 (Some 1500) (Some false)]} ∅ up)
           (mkGhRepository (Some "old-proj") (Some "alice-archive") (Some 1000)
                           (Some 1500) (Some false))
           (mkSimHost ∅ {["alice"; "alice-archive"]}
              {[("alice-archive", "old-proj") :=
                  mkGhRepository (Some "old-proj") (Some "alice-archive") (Some 1000)
                                 (Some 1500) (Some false)]} ∅ up)).
  - exact SimHost_laws.
  - right. exists not_found, (alice_host up). repeat split; reflexivity.
  - reflexivity.
  - vm_compute. reflexivity.
  - vm_compute. reflexivity.
  - vm_compute. reflexivity.
  - vm_compute. reflexivity.
Defined.

Lemma force_continues_past_failed_delete_witness :
  let w := world0 true (alice_host no_delete) [] 5000 in
  let r := ArchiveRepository "alice" "alice-archive" "old-proj" w in
  fst r = None /\
  Printf "ERROR CONTINUANCE: %v" [AErr (Some unavailable)] ∈ new_lines w (snd r) /\
  exists eg rest',
    [Requested (RepositoriesGet "alice-archive" "old-proj") None;
     Requested (RepositoriesEdit "alice-archive" "old-proj"
        (set_Archived true
           (mkGhRepository (Some "old-proj") (Some "alice-archive") (Some 1000)
                           (Some 1500) (Some false)))) None]
    = Requested (RepositoriesGet "alice-archive" "old-proj") eg :: rest'.
Proof.
  cbn zeta.
  apply (force_continues_past_failed_delete "alice" "alice-archive" "old-proj"
           (world0 true (alice_host no_delete) [] 5000)
           [Requested (OrganizationsGet "alice-archive") (Some not_found);
            Requested (UsersGet "alice-archive") None;
            Requested (RepositoriesGet "alice-archive" "old-proj") (Some not_found);
            Requested (RepositoriesCreateFork "alice" "old-proj" (mkForkOpts "alice-archive"))
                      None;
            Slept (5 * Second)]
           unavailable).
  - reflexivity.
  - vm_compute. reflexivity.
Defined.

Lemma GetLastActivity_later_of_witness :
  fst (GetLastActivity "alice" "old-proj" (world0 false (issue_host up) [] 5000)) =
    (Z.max 1000 1200, None).
Proof.
  apply (GetLastActivity_later_of "alice" "old-proj" (world0 false (issue_host up) [] 5000)
           (Some old_proj) (issue_host up) [Some (mkIssue (Some 1200))] None (issue_host up));
    reflexivity.
Defined.

Lemma archived_never_reported_witness :
  let w := world0 false (listing_host up) listing 5000 in
  let r := @FindInactiveRepositories _ _ doubling (NewAnalyzer 2000) listing_slice w in
  Forall (fun x => IsArchived x = false) (slice_elems (heap (snd r)) (fst (fst r))) /\
  exists looked groups,
    looked `sublist_of` slice_elems (heap w) listing_slice /\
    Forall (fun x => IsArchived x = false) looked /\
    Forall2 lookup_group looked groups /\
    new_events w (snd r) = concat groups.
Proof.
  apply (@archived_never_reported _ _ doubling (NewAnalyzer 2000) listing_slice
           (world0 false (listing_host up) listing 5000)).
  cbn. eexists. split; [reflexivity|]. cbn. lia.
Defined.

(** With the force flag set and the reads failing, alice/new is reported
    as inactive, with the zero time as its last activity, although its last
    push, at instant 4000, is after the cutoff, at instant 1000: the service,
    when it answers, gives 4000 as its last activity.  This is a run that C4,
    as first stated, rules out. *)
Lemma unread_repository_reported :
  let a := NewAnalyzer 4000 in
  let w := world0 true (listing_host no_read) listing 5000 in
  let r := @FindInactiveRepositories _ _ doubling a listing_slice w in
  snd (fst r) = None /\
  sim_repos (remote w) !! ("alice", "new") =
    Some (mkGhRepository (Some "new") (Some "alice") (Some 4000) None None) /\
  fst (GetLastActivity "alice" "new" (world0 true (listing_host up) listing 5000)) =
    (4000, None) /\
  clock w - inactivityPeriod a = 1000 /\
  (4000 <? clock w - inactivityPeriod a) = false /\
  slice_elems (heap (snd r)) (fst (fst r)) = [mkRepository "alice" "new" 0 false].
Proof. vm_compute. repeat split. Qed.

(** With the least [int64] as threshold the cutoff is not [now - threshold]:
    alice/old-proj and alice/new, last active at instants 1200 and 4000, are
    before [now - threshold], and none of them is reported. *)
Example least_threshold_reports_nothing :
  let a := NewAnalyzer int64_min in
  let w := world0 false (listing_host up) listing 5000 in
  let r := @FindInactiveRepositories _ _ doubling a listing_slice w in
  snd (fst r) = None /\
  clock w - inactivityPeriod a = 5000 + 2 ^ 63 /\
  (1200 <? clock w - inactivityPeriod a) = true /\
  (4000 <? clock w - inactivityPeriod a) = true /\
  slice_elems (heap (snd r)) (fst (fst r)) = [].
Proof. vm_compute. repeat split. Qed.

Lemma FindInactiveRepositories_exact_witness :
  let a := NewAnalyzer 2000 in
  let w := world0 false (listing_host up) listing 5000 in
  let r := @FindInactiveRepositories _ _ doubling a listing_slice w in
  slice_elems (heap (snd r)) (fst (fst r)) = [mkRepository "alice" "old-proj" 1200 false] /\
  clock w + neg64 (inactivityPeriod a) = clock w - inactivityPeriod a /\
  lookup_activity false (listing_host up) "alice" "old-proj" =
    ((Z.max 1000 1200, None), listing_host up).
Proof.
  cbn zeta.
  destruct (@FindInactiveRepositories_exact _ _ doubling (NewAnalyzer 2000) listing_slice
              (world0 false (listing_host up) listing 5000)
              (fst (fst (@FindInactiveRepositories _ _ doubling (NewAnalyzer 2000)
                           listing_slice (world0 false (listing_host up) listing 5000))))
              (snd (@FindInactiveRepositories _ _ doubling (NewAnalyzer 2000) listing_slice
                      (world0 false (listing_host up) listing 5000))))
    as (H1 & H2 & _ & H4 & _).
  - cbn. eexists. split; [reflexivity|]. cbn. lia.
  - vm_compute. reflexivity.
  - split; [|split].
    + rewrite H1. vm_compute. reflexivity.
    + apply H2. vm_compute. split; [reflexivity | discriminate].
    + apply (H4 false "alice" "old-proj" (listing_host up) (Some old_proj) (listing_host up)
                [Some (mkIssue (Some 1200))] None (listing_host up)); reflexivity.
Defined.

Lemma FindInactiveRepositories_leaves_input_witness :
  let w := world0 false (listing_host up) listing 5000 in
  let r := @FindInactiveRepositories _ _ doubling (NewAnalyzer 2000) listing_slice w in
  (exists ext, heap (snd r) = heap w ++ ext) /\
  slice_elems (heap (snd r)) listing_slice = slice_elems (heap w) listing_slice /\
  forall arr, s_arr (fst (fst r)) = Some arr -> (length (heap w) <= arr)%nat.
Proof.
  apply (@FindInactiveRepositories_leaves_input _ _ doubling (NewAnalyzer 2000) listing_slice
           (world0 false (listing_host up) listing 5000)).
  cbn. eexists. split; [reflexivity|]. cbn. lia.
Defined.

(** With the force flag set, a repository whose read failed is not
    classified by the zero time when its issues can be listed: here the zero
    time is before the cutoff, and alice/old-proj, with an issue updated
    after the cutoff, is left out of the output.  This is the run that C10,
    as first stated, rules out. *)
Lemma failed_read_not_zero_time :
  let a := NewAnalyzer 4000 in
  let w := world0 true (listing_host no_read) listing 5000 in
  let r := @FindInactiveRepositories _ _ doubling a listing_slice w in
  FORCE_PROCESSING w = true /\
  snd (fst (Repositories_Get "alice" "old-proj" (remote w))) = Some unavailable /\
  Time_Before zeroTime (cutoffDate a (clock w)) = true /\
  snd (fst r) = None /\
  slice_elems (heap (snd r)) (fst (fst r)) = [mkRepository "alice" "new" 0 false].
Proof. vm_compute. repeat split. Qed.

Lemma force_never_fails_witness :
  let a := NewAnalyzer 4000 in
  let w := world0 true (listing_host no_read) listing 5000 in
  let r := @FindInactiveRepositories _ _ doubling a listing_slice w in
  snd (fst r) = None /\
  slice_elems (heap (snd r)) (fst (fst r)) =
    inactive (cutoffDate a (clock w))
      (zip_with set_LastActivity
         (lastActivities true (live (slice_elems (heap w) listing_slice)) (remote w))
         (live (slice_elems (heap w) listing_slice))) /\
  forall owner repo h eg h1 issues ei h2,
    Repositories_Get owner repo h = ((None, Some eg), h1) ->
    Issues_ListByRepo owner repo (mkIssueOpts "updated" "desc" 1) h1 = ((issues, ei), h2) ->
    fst (lookup_activity true h owner repo) =
      (match ei, issues with
       | None, issue0 :: _ => Z.max zeroTime (Issue_GetUpdatedAt issue0)
       | _, _ => zeroTime
       end, None).
Proof.
  apply (@force_never_fails _ _ doubling (NewAnalyzer 4000) listing_slice
           (world0 true (listing_host no_read) listing 5000)).
  - reflexivity.
  - cbn. eexists. split; [reflexivity|]. cbn. lia.
Defined.

(** Two scenarios of the specification, run on the reference service. *)

(** alice/old-proj, last pushed three years ago and without issues, under a
    threshold of two years: it is reported, with the push timestamp as its
    last activity. *)
Example stale_repository_reported :
  let year := 365 * 24 * Hour in
  let now := 2026 * year in
  let pushed := now - 3 * year in
  let h := mkSimHost ∅ {["alice"]}
             {[("alice", "old-proj") :=
                 mkGhRepository (Some "old-proj") (Some "alice") (Some pushed) (Some now)
                                (Some false)]} ∅ up in
  let w := world0 false h [[mkRepository "alice" "old-proj" now false]] now in
  let r := @FindInactiveRepositories _ _ doubling (NewAnalyzer (2 * year))
             (mkSlice (Some 0%nat) 0 1 1) w in
  snd (fst r) = None /\
  slice_elems (heap (snd r)) (fst (fst r)) = [mkRepository "alice" "old-proj" pushed false].
Proof. vm_compute. split; reflexivity. Qed.

(** Archiving alice/old-proj when alice-archive/old-proj exists already: no
    fork is asked for; the wait, the deletion and the archived flag follow. *)
Example existing_fork_skipped :
  let fork := mkGhRepository (Some "old-proj") (Some "alice-archive") (Some 1000)
                             (Some 1500) (Some false) in
  let h := mkSimHost ∅ {["alice"; "alice-archive"]}
             {[("alice", "old-proj") := old_proj;
               ("alice-archive", "old-proj") := fork]} ∅ up in
  let w := world0 false h [] 5000 in
  let r := ArchiveRepository "alice" "alice-archive" "old-proj" w in
  fst r = None /\
  new_events w (snd r) =
    [Requested (OrganizationsGet "alice-archive") (Some not_found);
     Requested (UsersGet "alice-archive") None;
     Requested (RepositoriesGet "alice-archive" "old-proj") None;
     Slept (5 * Second);
     Requested (RepositoriesDelete "alice" "old-proj") None;
     Requested (RepositoriesGet "alice-archive" "old-proj") None;
     Requested (RepositoriesEdit "alice-archive" "old-proj" (set_Archived true fork)) None] /\
  sim_present (remote (snd r)) "alice" "old-proj" = false /\
  sim_archived (remote (snd r)) "alice-archive" "old-proj" = true.
Proof. vm_compute. repeat split. Qed.

(** ** more runs on concrete worlds *)

Lemma force_always_deletes_witness :
  let w := world0 true lonely_host [] 5000 in
  let r := ArchiveRepository "alice" "alice-archive" "old-proj" w in
  fst r = None /\
  exists before ed rest,
    new_events w (snd r) =
      before ++ Slept (5 * Second) :: Requested (RepositoriesDelete "alice" "old-proj") ed
             :: rest /\
    Forall (fun ev => ~ is_delete_request ev) before /\
    Forall (fun ev => ~ is_delete_request ev) rest.
Proof.
  apply (force_always_deletes "alice" "alice-archive" "old-proj"
           (world0 true lonely_host [] 5000)).
  reflexivity.
Defined.

Lemma delete_only_behind_fork_witness :
  exists checks forked,
    [Requested (OrganizationsGet "alice-archive") (Some not_found);
     Requested (UsersGet "alice-archive") None;
     Requested (RepositoriesGet "alice-archive" "old-proj") (Some not_found);
     Requested (RepositoriesCreateFork "alice" "old-proj" (mkForkOpts "alice-archive")) None;
     Slept (5 * Second)] = checks ++ forked ++ [Slept (5 * Second)] /\
    (checks = [Requested (OrganizationsGet "alice-archive") None] \/
     exists e0, checks = [Requested (OrganizationsGet "alice-archive") (Some e0);
                         Requested (UsersGet "alice-archive") None]) /\
    (forked = [Requested (RepositoriesGet "alice-archive" "old-proj") None] \/
     exists ep, forked = [Requested (RepositoriesGet "alice-archive" "old-proj") (Some ep);
                         Requested (RepositoriesCreateFork "alice" "old-proj"
                                      (mkForkOpts "alice-archive")) None]).
Proof.
  apply (delete_only_behind_fork "alice" "alice-archive" "old-proj"
           (world0 false (alice_host up) [] 5000) _ None
           [Requested (RepositoriesGet "alice-archive" "old-proj") None;
            Requested (RepositoriesEdit "alice-archive" "old-proj"
               (set_Archived true
                  (mkGhRepository (Some "old-proj") (Some "alice-archive") (Some 1000)
                                  (Some 1500) (Some false)))) None]).
  - reflexivity.
  - vm_compute. reflexivity.
Defined.

Lemma nil_means_archived_witness :
  let w := world0 false (alice_host up) [] 5000 in
  exists before g,
    new_events w (snd (ArchiveRepository "alice" "alice-archive" "old-proj" w)) =
      before ++ [Requested (RepositoriesDelete "alice" "old-proj") None;
                 Requested (RepositoriesGet "alice-archive" "old-proj") None;
                 Requested (RepositoriesEdit "alice-archive" "old-proj" (set_Archived true g))
                           None].
Proof.
  apply (nil_means_archived "alice" "alice-archive" "old-proj"
           (world0 false (alice_host up) [] 5000)).
  - reflexivity.
  - vm_compute. reflexivity.
Defined.

Lemma error_stops_at_step_witness :
  let w := world0 false (alice_host no_delete) [] 5000 in
  exists before last,
    new_events w (snd (ArchiveRepository "alice" "alice-archive" "old-proj" w)) =
      before ++ [last] /\
    halted "alice" "alice-archive" "old-proj"
      (Wrapf "failed to delete original repository: %w" []
         (Some (Wrapf "failed to delete repository: %w" [] (Some unavailable))))
      last.
Proof.
  apply (error_stops_at_step "alice" "alice-archive" "old-proj"
           (world0 false (alice_host no_delete) [] 5000)).
  - reflexivity.
  - vm_compute. reflexivity.
Defined.

Lemma force_silences_client_witness :
  let w := world0 true (alice_host no_delete) [] 5000 in
  fst (ForkRepository "alice" "old-proj" "nobody" w) = None /\
  fst (DeleteRepository "alice" "old-proj" w) = None /\
  snd (fst (GetLastActivity "alice" "old-proj" w)) = None /\
  (fst (SetArchiveStatus "alice" "old-proj" true w) = None \/
   fst (SetArchiveStatus "alice" "old-proj" true w) =
     Some (Errorf "repository object is nil" [])).
Proof.
  apply (force_silences_client "alice" "old-proj" "nobody" true
           (world0 true (alice_host no_delete) [] 5000)).
  reflexivity.
Defined.

Lemma GetLastActivity_failed_read_witness :
  let w := world0 false (listing_host no_read) [] 5000 in
  let r := GetLastActivity "alice" "old-proj" w in
  fst r = (zeroTime,
           Some (Wrapf "failed to get repository info: %w" [] (Some unavailable))) /\
  new_events w (snd r) = [Requested (RepositoriesGet "alice" "old-proj") (Some unavailable)] /\
  remote (snd r) = listing_host no_read.
Proof.
  apply (GetLastActivity_failed_read "alice" "old-proj"
           (world0 false (listing_host no_read) [] 5000) None unavailable
           (listing_host no_read)).
  - reflexivity.
  - reflexivity.
Defined.

Lemma SetArchiveStatus_edits_what_it_read_witness :
  let w := world0 false (alice_host up) [] 5000 in
  RepositoriesEdit "alice" "old-proj" (set_Archived true old_proj) =
    RepositoriesGet "alice" "old-proj" \/
  exists g,
    fst (fst (Repositories_Get "alice" "old-proj" (remote w))) = Some g /\
    RepositoriesEdit "alice" "old-proj" (set_Archived true old_proj) =
      RepositoriesEdit "alice" "old-proj" (set_Archived true g).
Proof.
  apply (SetArchiveStatus_edits_what_it_read "alice" "old-proj" true
           (world0 false (alice_host up) [] 5000) _ None).
  vm_compute. repeat constructor.
Defined.

Lemma FindInactiveRepositories_requests_witness :
  let w := world0 false (listing_host up) listing 5000 in
  exists groups,
    Forall2 (full_group (FORCE_PROCESSING w))
            (live (slice_elems (heap w) listing_slice)) groups /\
    new_events w (snd (@FindInactiveRepositories _ _ doubling (NewAnalyzer 2000)
                         listing_slice w)) = concat groups.
Proof.
  apply (@FindInactiveRepositories_requests _ _ doubling (NewAnalyzer 2000) listing_slice
           (world0 false (listing_host up) listing 5000)).
  - cbn. eexists. split; [reflexivity|]. cbn. lia.
  - vm_compute. reflexivity.
Defined.

Lemma FindInactiveRepositories_failure_witness :
  let w := world0 false (listing_host no_read) listing 5000 in
  let r := @FindInactiveRepositories _ _ doubling (NewAnalyzer 2000) listing_slice w in
  FORCE_PROCESSING w = false /\
  fst (fst r) = nilSlice /\
  exists done x rest eg groups,
    live (slice_elems (heap w) listing_slice) = done ++ x :: rest /\
    Forall2 (full_group false) done groups /\
    new_events w (snd r) =
      concat groups ++ [Requested (RepositoriesGet (Owner x) (Name x)) (Some eg)] /\
    activity_failure (mkRepository "alice" "old-proj" 77 false) unavailable =
      activity_failure x eg.
Proof.
  apply (@FindInactiveRepositories_failure _ _ doubling (NewAnalyzer 2000) listing_slice
           (world0 false (listing_host no_read) listing 5000)).
  - cbn. eexists. split; [reflexivity|]. cbn. lia.
  - vm_compute. reflexivity.
Defined.

Lemma FindInactiveRepositories_idle_witness :
  let w := world0 false (listing_host up) listing 5000 in
  let r := @FindInactiveRepositories _ _ doubling (NewAnalyzer 2000)
             (mkSlice (Some 0%nat) 2 1 1) w in
  fst r = (nilSlice, None) /\ new_events w (snd r) = [] /\ heap (snd r) = heap w.
Proof.
  apply (@FindInactiveRepositories_idle _ _ doubling (NewAnalyzer 2000)
           (mkSlice (Some 0%nat) 2 1 1) (world0 false (listing_host up) listing 5000)).
  - cbn. eexists. split; [reflexivity|]. cbn. lia.
  - vm_compute. repeat constructor.
Defined.

(** ** runs of the listing and of the driver *)

Lemma dry_run_only_looks_up_witness :
  Forall lookup_event
    (new_events (world (process0 (alice_host up) later))
       (world (snd (main (rt := doubling) 5 (Parsed (alice_flags true false))
                      (process0 (alice_host up) later))))).
Proof.
  apply (dry_run_only_looks_up (rt := doubling) 5 (alice_flags true false)
           (process0 (alice_host up) later)).
  reflexivity.
Defined.

Lemma main_changes_only_target_witness : "alice" = "alice".
Proof.
  apply (main_changes_only_target (rt := doubling) 5 (alice_flags false false)
           (process0 (alice_host up) later)
           (RepositoriesDelete "alice" "old-proj") None).
  vm_compute. repeat constructor.
Defined.

Lemma main_exit_code_witness :
  1 = 1 /\ (false = true -> "secret" = "" \/ "alice" = "").
Proof.
  apply (main_exit_code (api := Script_api) (lst := Script_listing) (rt := doubling) 5
           (Parsed (alice_flags false false)) (process0 broken_pages later) 1).
  vm_compute. reflexivity.
Defined.

Lemma quiet_main_witness :
  ErrorLevel = WarnLevel \/ ErrorLevel = ErrorLevel \/ ErrorLevel = FatalLevel \/
  ErrorLevel = SilentLevel.
Proof.
  apply (quiet_main (api := Script_api) (lst := Script_listing) (rt := doubling) 5
           (mkFlags "secret" "alice" false false 2 false true false)
           (process0 broken_pages later) ErrorLevel
           "Failed to list repositories for user %s: %v"
           [AStr "alice"; AErr (Some unavailable)]).
  - reflexivity.
  - reflexivity.
  - vm_compute. repeat constructor.
Defined.

Lemma main_usage_witness :
  let p := process0 (alice_host up) later in
  let r := main (rt := doubling) 5
             (Parsed (mkFlags "" "alice" false false 2 false false true)) p in
  fst r = Exited 1 /\
  usages (snd r) = S (usages p) /\
  listings (snd r) = listings p /\
  events (world (snd r)) = events (world p) /\
  remote (world (snd r)) = remote (world p).
Proof.
  apply (main_usage (rt := doubling) 5 (mkFlags "" "alice" false false 2 false false true)
           (process0 (alice_host up) later)).
  left. reflexivity.
Defined.

Lemma archive_loop_transactions_witness :
  let w := world0 true (listing_host up) listing 5000 in
  let r := archive_loop "alice" "alice-archive" listing_slice (s_len listing_slice) 0 w in
  transactions (FORCE_PROCESSING w) "alice" "alice-archive"
               (slice_elems (heap w) listing_slice)
               (remote w) (new_events w (snd r)) (remote (snd r)) /\
  heap (snd r) = heap w.
Proof.
  apply (archive_loop_transactions "alice" "alice-archive" listing_slice
           (world0 true (listing_host up) listing 5000)).
  cbn. eexists. split; [reflexivity|]. cbn. lia.
Defined.

Lemma ListRepositories_all_pages_witness :
  let p := process0 two_pages later in
  let r := ListRepositories (lst := Script_listing) (rt := doubling) 5 "alice" false p in
  exists s,
    fst r = Done (s, None) /\
    owned (heap (world p)) (heap (world (snd r))) s /\
    slice_elems (heap (world (snd r))) s =
      omap listed
        (entries [(first_page,
                   ([Some old_proj; Some (mkGhRepository (Some "lost") None None None None);
                     None], Some (mkResponse 2), None))] ++
         [Some (mkGhRepository (Some "new") (Some "alice") (Some 4000) None None)]) /\
    events (world (snd r)) = events (world p) /\
    remote (world (snd r)) = [] /\
    listings (snd r) =
      listings p ++
      recorded (list_call false "alice")
        ([(first_page,
           ([Some old_proj; Some (mkGhRepository (Some "lost") None None None None); None],
            Some (mkResponse 2), None))] ++
         [(mkListOptions 2 100,
           ([Some (mkGhRepository (Some "new") (Some "alice") (Some 4000) None None)],
            Some (mkResponse 0), None))]).
Proof.
  apply (ListRepositories_all_pages (lst := Script_listing) (rt := doubling) 5 "alice" false (process0 two_pages later)
           _ (mkListOptions 2 100)
           [([Some (mkGhRepository (Some "new") (Some "alice") (Some 4000) None None)],
             Some (mkResponse 0), None)]).
  - eapply paged_cons; [reflexivity | reflexivity | discriminate | apply paged_nil].
  - reflexivity.
  - reflexivity.
  - reflexivity.
  - cbn. lia.
Defined.

Lemma ListRepositories_failure_witness :
  let p := process0 broken_pages later in
  let r := ListRepositories (lst := Script_listing) (rt := doubling) 5 "alice" false p in
  fst r = Done (nilSlice,
                Some (Wrapf "failed to list repositories: %w" [] (Some unavailable))) /\
  listing_only p
    (recorded (list_call false "alice")
       ([(first_page, ([Some old_proj], Some (mkResponse 2), None))] ++
        [(mkListOptions 2 100, ([], None, Some unavailable))]))
    [] (snd r).
Proof.
  apply (ListRepositories_failure (lst := Script_listing) (rt := doubling) 5 "alice" false (process0 broken_pages later)
           _ (mkListOptions 2 100) [([], None, Some unavailable)]).
  - reflexivity.
  - eapply paged_cons; [reflexivity | reflexivity | discriminate | apply paged_nil].
  - reflexivity.
  - cbn. lia.
Defined.

Lemma ListRepositories_nil_response_witness :
  fst (ListRepositories (lst := Script_listing) (rt := doubling) 5 "alice" false
         (mkProcess (world0 true broken_pages [] later) [] 0)) = Panicked.
Proof.
  apply (ListRepositories_nil_response (lst := Script_listing) (rt := doubling) 5 "alice" false
           (mkProcess (world0 true broken_pages [] later) [] 0)
           [(first_page, ([Some old_proj], Some (mkResponse 2), None))]
           (mkListOptions 2 100) [([], None, Some unavailable)] [] (Some unavailable) []).
  - eapply paged_cons; [reflexivity | reflexivity | discriminate | apply paged_nil].
  - reflexivity.
  - reflexivity.
  - cbn. lia.
Defined.

Lemma main_stops_at_failed_listing_witness :
  let p := process0 broken_pages later in
  let r := main (api := Script_api) (lst := Script_listing) (rt := doubling) 5
             (Parsed (alice_flags false false)) p in
  fst r = Exited 1 /\
  events (world (snd r)) = events (world p) /\
  remote (world (snd r)) = [] /\
  heap (world (snd r)) = heap (world p) /\
  listings (snd r) =
    listings p ++
    recorded (list_call false "alice")
      ([(first_page, ([Some old_proj], Some (mkResponse 2), None))] ++
       [(mkListOptions 2 100, ([], None, Some unavailable))]).
Proof.
  apply (main_stops_at_failed_listing (api := Script_api) (lst := Script_listing) (rt := doubling) 5 (alice_flags false false)
           (process0 broken_pages later) _ (mkListOptions 2 100)
           [([], None, Some unavailable)]).
  - discriminate.
  - discriminate.
  - reflexivity.
  - eapply paged_cons; [reflexivity | reflexivity | discriminate | apply paged_nil].
  - reflexivity.
  - cbn. lia.
Defined.

Lemma unfinished_run_changed_nothing_witness :
  Forall lookup_event
    (new_events (world (process0 (listing_host no_read) later))
       (world (snd (main (rt := doubling) 5 (Parsed (alice_flags false false))
                      (process0 (listing_host no_read) later))))).
Proof.
  apply (unfinished_run_changed_nothing (rt := doubling) 5 (Parsed (alice_flags false false))
           (process0 (listing_host no_read) later)).
  vm_compute. discriminate.
Defined.

Lemma main_archives_inactive_witness :
  let p := process0 (alice_host up) later in
  let r := main (rt := doubling) 5 (Parsed (alice_flags false false)) p in
  let a := NewAnalyzer (mul64 (mul64 (mul64 2 365) 24) Hour) in
  let xs := omap listed (entries [] ++ [Some old_proj]) in
  exists groups h3 txs,
    new_events (world p) (world (snd r)) = concat groups ++ txs /\
    Forall2 (full_group false) (live xs) groups /\
    transactions false "alice" (String.append "alice" "-archive")
                 (classified false (cutoffDate a (clock (world p))) xs (alice_host up))
                 h3 txs (remote (world (snd r))).
Proof.
  apply (main_archives_inactive (rt := doubling) 5 (alice_flags false false)
           (process0 (alice_host up) later) [] first_page (alice_host up)
           [Some old_proj] (mkResponse 0) None (alice_host up)).
  - discriminate.
  - discriminate.
  - reflexivity.
  - apply paged_nil.
  - vm_compute. reflexivity.
  - reflexivity.
  - reflexivity.
  - cbn. lia.
  - vm_compute. reflexivity.
Defined.

Lemma forced_run_returns_witness :
  fst (main (rt := doubling) 5 (Parsed (alice_flags false true))
         (process0 (listing_host no_read) later)) = Done tt.
Proof.
  apply (forced_run_returns (rt := doubling) 5 (alice_flags false true)
           (process0 (listing_host no_read) later) [] first_page (listing_host no_read)
           [Some old_proj;
            Some (mkGhRepository (Some "new") (Some "alice") (Some 4000) None None)]
           (mkResponse 0) None (listing_host no_read)).
  - discriminate.
  - discriminate.
  - reflexivity.
  - reflexivity.
  - apply paged_nil.
  - vm_compute. reflexivity.
  - reflexivity.
  - cbn. lia.
Defined.

(** A command line that [flag.Parse] refuses, and one that asks for help:
    the usage is printed, the process ends with code 2 and with code 0, and
    nothing was sent. *)
Example command_line_not_parsed :
  let p := process0 (alice_host up) later in
  fst (main (rt := doubling) 5 ErrFlag p) = Exited 2 /\
  fst (main (rt := doubling) 5 ErrHelp p) = Exited 0 /\
  usages (snd (main (rt := doubling) 5 ErrFlag p)) = 1%nat /\
  events (world (snd (main (rt := doubling) 5 ErrFlag p))) = [] /\
  listings (snd (main (rt := doubling) 5 ErrFlag p)) = [].
Proof. vm_compute. repeat split. Qed.
